(** * CESM-LENS cookbook: weighted means, calendar resampling and trends

    A shallow embedding of the numerical cells of the notebook
    (area-weighted global means, [weighted_temporal_mean], [calc_slope],
    [linear_trend] and the December-anchored seasonal resample) together
    with the properties stated about them.

    Numbers.  A float64 value is modelled by [float]: NaN, the two
    infinities, or a finite value carried as an exact rational.  Rounding
    and overflow of finite values are therefore abstracted away, and a zero
    is always the positive zero; the treatment of NaN and of the infinities
    follows IEEE 754.

    Exceptions.  A call that can raise returns a [result].  As in xarray
    and pandas, [resample] raises ValueError on a time index that is empty
    or not monotonic, and a slice by labels raises KeyError on an index
    that is not sorted. *)

From Stdlib Require Import List ZArith QArith Qcanon Lia Bool Permutation Sorted.
Import ListNotations.

Close Scope Qc_scope.
Close Scope Q_scope.

Set Implicit Arguments.

(* ------------------------------------------------------------------ *)
(** ** Floating-point values *)

Module Float.

Inductive float : Type :=
| NaN
| PInf
| NInf
| Fin (q : Qc).

Definition isnan (v : float) : bool :=
  match v with NaN => true | _ => false end.

Definition isfinite (v : float) : bool :=
  match v with Fin _ => true | _ => false end.

(** The rational carried by a finite value (0 for the special values). *)
Definition to_Qc (v : float) : Qc :=
  match v with Fin q => q | _ => 0%Qc end.

Definition Qc_eqb (a b : Qc) : bool := Qeq_bool a b.
Definition Qc_ltb (a b : Qc) : bool :=
  match (a ?= b)%Qc with Lt => true | _ => false end.

Definition of_Z (z : Z) : float := Fin (Q2Qc (inject_Z z)).

Definition fneg (v : float) : float :=
  match v with
  | NaN => NaN
  | PInf => NInf
  | NInf => PInf
  | Fin q => Fin (- q)%Qc
  end.

Definition fadd (a b : float) : float :=
  match a, b with
  | NaN, _ | _, NaN => NaN
  | PInf, NInf | NInf, PInf => NaN
  | PInf, _ | _, PInf => PInf
  | NInf, _ | _, NInf => NInf
  | Fin x, Fin y => Fin (x + y)%Qc
  end.

(** An infinity scaled by a finite factor. *)
Definition scale_inf (inf : float) (q : Qc) : float :=
  if Qc_eqb q 0 then NaN
  else if Qc_ltb 0 q then inf else fneg inf.

Definition fmul (a b : float) : float :=
  match a, b with
  | NaN, _ | _, NaN => NaN
  | PInf, PInf | NInf, NInf => PInf
  | PInf, NInf | NInf, PInf => NInf
  | PInf, Fin q | Fin q, PInf => scale_inf PInf q
  | NInf, Fin q | Fin q, NInf => scale_inf NInf q
  | Fin x, Fin y => Fin (x * y)%Qc
  end.

Definition fdiv (a b : float) : float :=
  match a, b with
  | NaN, _ | _, NaN => NaN
  | Fin _, PInf | Fin _, NInf => Fin 0
  | Fin x, Fin y =>
      if Qc_eqb y 0 then
        (if Qc_eqb x 0 then NaN else if Qc_ltb 0 x then PInf else NInf)
      else Fin (x / y)%Qc
  | PInf, Fin q => if Qc_ltb q 0 then NInf else PInf
  | NInf, Fin q => if Qc_ltb q 0 then PInf else NInf
  | _, _ => NaN
  end.

Definition eqb (a b : float) : bool :=
  match a, b with
  | NaN, NaN | PInf, PInf | NInf, NInf => true
  | Fin x, Fin y => Qc_eqb x y
  | _, _ => false
  end.

End Float.
Export Float.

Declare Scope float_scope.
Delimit Scope float_scope with float.
Bind Scope float_scope with float.
Infix "+" := fadd : float_scope.
Infix "*" := fmul : float_scope.
Infix "/" := fdiv : float_scope.

(** Literal helper: the finite value [n / d]. *)
Definition fin (n : Z) (d : positive) : float := Fin (Q2Qc (n # d)).

(* ------------------------------------------------------------------ *)
(** ** Exceptions *)

Inductive exn : Type :=
| LinAlgError | TypeError | IndexError | AssertionError | ValueError | KeyError.

Inductive result (A : Type) : Type :=
| Ok (a : A)
| Raise (e : exn).
Arguments Ok {A} a.
Arguments Raise {A} e.

Definition bind (A B : Type) (r : result A) (k : A -> result B) : result B :=
  match r with Ok a => k a | Raise e => Raise e end.

Fixpoint mapM (A B : Type) (f : A -> result B) (l : list A)
    : result (list B) :=
  match l with
  | [] => Ok []
  | a :: l' => bind (f a) (fun b => bind (mapM f l') (fun bs => Ok (b :: bs)))
  end.

(* ------------------------------------------------------------------ *)
(** ** Reductions of one-dimensional float arrays *)

(** [numpy.sum]: NaN and opposite infinities propagate. *)
Definition fsum (l : list float) : float := fold_right fadd (Fin 0) l.

(** [fillna(0)], the first step of every NaN-skipping reduction. *)
Definition fillna0 (v : float) : float := if isnan v then Fin 0 else v.

(** [xarray]'s [sum] on float data ([skipna] defaults to true): NaN
    entries count as zero. *)
Definition nansum (l : list float) : float := fsum (map fillna0 l).

Definition count_valid (l : list float) : nat :=
  length (filter (fun v => negb (isnan v)) l).

(** [xarray]'s [mean] on float data: the NaN-skipping sum over the number
    of entries that are not NaN (0/0 = NaN when there is none). *)
Definition nanmean (l : list float) : float :=
  (nansum l / of_Z (Z.of_nat (count_valid l)))%float.

(* ------------------------------------------------------------------ *)
(** ** Grids, time coordinates and labelled arrays *)

(** A (lat, lon) slab. *)
Definition grid : Type := list (list float).

Definition cell (g : grid) (i j : nat) : float := nth j (nth i g []) NaN.

Definition tabulate (nlat nlon : nat) (f : nat -> nat -> float) : grid :=
  map (fun i => map (f i) (seq 0 nlon)) (seq 0 nlat).

Definition has_shape (nlat nlon : nat) (g : grid) : Prop :=
  length g = nlat /\ Forall (fun row => length row = nlon) g.

Definition grid_map (f : float -> float) (g : grid) : grid := map (map f) g.

(** Elementwise arithmetic of two slabs on the same (lat, lon) coordinates. *)
Definition grid_zip (f : float -> float -> float) (a b : grid) : grid :=
  map (fun r => map (fun p => f (fst p) (snd p)) (combine (fst r) (snd r)))
      (combine a b).

(** Reduction over both [lat] and [lon]. *)
Definition flatten (g : grid) : list float := concat g.

(** A time stamp, to the day (the data are monthly). *)
Record datetime : Type := mkdate { year : Z; month : Z; day : Z }.

Definition valid_date (t : datetime) : Prop := (1 <= month t <= 12)%Z.

(** [a <= b] on time stamps. *)
Definition date_leb (a b : datetime) : bool :=
  ((year a <? year b)
   || ((year a =? year b)
       && ((month a <? month b)
           || ((month a =? month b) && (day a <=? day b)))))%Z.

(** [index.is_monotonic_increasing]: no stamp is earlier than the one
    before it. *)
Fixpoint is_monotonic_increasing (time : list datetime) : bool :=
  match time with
  | [] => true
  | a :: rest =>
      match rest with
      | [] => true
      | b :: _ => date_leb a b && is_monotonic_increasing rest
      end
  end.

Definition month_ordinal (t : datetime) : Z := 12 * year t + (month t - 1).

(** Resampling frequencies used by the notebook: ["AS"] (year start) and
    ["QS-DEC"] (quarter start, quarters anchored on December). *)
Inductive freq : Type := AS | QS_DEC.

Definition period (f : freq) : Z :=
  match f with AS => 12 | QS_DEC => 3 end.

(** Month ordinal of the first month of the bin a time stamp falls in. *)
Definition bin_start (f : freq) (t : datetime) : Z :=
  match f with
  | AS => 12 * year t
  | QS_DEC => month_ordinal t - (month_ordinal t + 1) mod 3
  end.

(** The label of a bin: the first day of its first month. *)
Definition bin_label (o : Z) : datetime :=
  {| year := o / 12; month := o mod 12 + 1; day := 1 |}.

(** The bins of a resample run from the bin of the earliest sample to the
    bin of the latest one, without gaps. *)
Definition bins_between (f : freq) (lo hi : Z) : list Z :=
  map (fun k => lo + period f * Z.of_nat k)%Z
      (seq 0 (Z.to_nat ((hi - lo) / period f) + 1)).

Definition bin_range (f : freq) (time : list datetime) : list Z :=
  match map (bin_start f) time with
  | [] => []
  | b :: bs => bins_between f (fold_right Z.min b bs) (fold_right Z.max b bs)
  end.

(** Members of one bin, in time order. *)
Definition group (A : Type) (f : freq) (b : Z) (time : list datetime)
    (xs : list A) : list A :=
  map snd (filter (fun p => (bin_start f (fst p) =? b)%Z) (combine time xs)).

(** Reduce a list of slabs along time, cell by cell. *)
Definition reduce_time (agg : list float -> float) (nlat nlon : nat)
    (gs : list grid) : grid :=
  tabulate nlat nlon (fun i j => agg (map (fun g => cell g i j) gs)).

(** A bin that holds no sample is restored as missing after the groupwise
    reduction, whatever the reduction. *)
Definition reduce_group (agg : list float -> float) (nlat nlon : nat)
    (gs : list grid) : grid :=
  match gs with
  | [] => tabulate nlat nlon (fun _ _ => NaN)
  | _ => reduce_time agg nlat nlon gs
  end.

(** The work of a resample on an index that has passed
    [check_time_index] below: the reduced value of every bin. *)
Definition resample_bins (f : freq) (agg : list float -> float)
    (nlat nlon : nat) (time : list datetime) (xs : list grid) : list grid :=
  map (fun b => reduce_group agg nlat nlon (group f b time xs))
      (bin_range f time).

(** [resample] raises ValueError on a time index that is empty or is not
    monotonic. *)
Definition check_time_index (time : list datetime) : result unit :=
  match time with
  | [] => Raise ValueError
  | _ => if is_monotonic_increasing time then Ok tt else Raise ValueError
  end.

(** [x.resample(time=f).agg(dim="time")] on the values of a
    (time, lat, lon) array. *)
Definition resample_values (f : freq) (agg : list float -> float)
    (nlat nlon : nat) (time : list datetime) (xs : list grid)
    : result (list grid) :=
  bind (check_time_index time) (fun _ =>
    Ok (resample_bins f agg nlat nlon time xs)).

(** A (member_id, time, lat, lon) array. *)
Record DataArray : Type := mkDataArray {
  time : list datetime;
  nlat : nat;
  nlon : nat;
  values : list (list grid)
}.

(** The resampled array, once the index has passed the check: the labels
    of the bins and, member by member, their reduced values. *)
Definition resampled (f : freq) (agg : list float -> float)
    (da : DataArray) : DataArray :=
  {| time := map bin_label (bin_range f (time da));
     nlat := nlat da;
     nlon := nlon da;
     values := map (resample_bins f agg (nlat da) (nlon da) (time da))
                   (values da) |}.

(** [da.resample(time=f).agg("time")] *)
Definition resample (f : freq) (agg : list float -> float)
    (da : DataArray) : result DataArray :=
  bind (check_time_index (time da)) (fun _ => Ok (resampled f agg da)).

(** Selection of the time steps whose stamp satisfies [p]. *)
Definition sel_time (p : datetime -> bool) (da : DataArray) : DataArray :=
  {| time := filter p (time da);
     nlat := nlat da;
     nlon := nlon da;
     values := map (fun xs => map snd (filter (fun q => p (fst q))
                                              (combine (time da) xs)))
                   (values da) |}.

(** [sel(time=slice(str a, str b))] with year strings: every stamp from the
    first instant of year [a] to the last instant of year [b]. *)
Definition in_years (a b : Z) (t : datetime) : bool :=
  ((a <=? year t) && (year t <=? b))%Z.

(** [x.sel(time=slice(str a, str b))]: a slice by labels raises KeyError
    on an index that is not sorted. *)
Definition sel_years (a b : Z) (da : DataArray) : result DataArray :=
  if is_monotonic_increasing (time da)
  then Ok (sel_time (in_years a b) da)
  else Raise KeyError.

(* ------------------------------------------------------------------ *)
(** ** Area-weighted global means *)

(** [total_area = cell_area.sum()] *)
Definition total_area (cell_area : grid) : float := nansum (flatten cell_area).

(** [(x * cell_area).sum(dim=("lat", "lon")) / total_area] for a
    (member_id, time, lat, lon) field [x]: the product broadcasts
    [cell_area] over members and time steps. *)
Definition weighted_reduce (x : list (list grid)) (cell_area : grid)
    : list (list float) :=
  map (map (fun g =>
         (nansum (flatten (grid_zip fmul g cell_area))
          / total_area cell_area)%float)) x.

(** [t_20c_ts]; [t_hist_ts] and [t_rcp_ts] are the same expression on other
    fields. *)
Definition t_20c_ts (t_20c : DataArray) (cell_area : grid)
    : result (list (list float)) :=
  bind (resample AS nanmean t_20c) (fun annual =>
    Ok (weighted_reduce (values annual) cell_area)).

(** The unweighted counterpart, [x.mean(dim=("lat", "lon"))]. *)
Definition unweighted_mean (x : list (list grid)) : list (list float) :=
  map (map (fun g => nanmean (flatten g))) x.

(* ------------------------------------------------------------------ *)
(** ** Duration-weighted annual means of the observations *)

(** The observational dataset: [air] on (time, lat, lon) and the bounds of
    the interval each time step stands for. *)
Record Dataset : Type := mkDataset {
  ds_time : list datetime;
  time_bnds : list (Z * Z);
  ds_nlat : nat;
  ds_nlon : nat;
  air : list grid
}.

(** [ds.time_bnds.diff(dim="nbnds")[:, 0]] *)
Definition time_bound_diff (ds : Dataset) : list Z :=
  map (fun b => snd b - fst b)%Z (time_bnds ds).

(** [time_bound_diff.groupby("time.year").sum(xr.ALL_DIMS)] at year [y]. *)
Definition year_sum (time : list datetime) (d : list Z) (y : Z) : Z :=
  fold_right Z.add 0%Z
    (map snd (filter (fun p => (year (fst p) =? y)%Z) (combine time d))).

(** [wgts]: every duration over the sum of its calendar year. *)
Definition wgts (ds : Dataset) : list float :=
  let d := time_bound_diff ds in
  map (fun p => (of_Z (snd p) / of_Z (year_sum (ds_time ds) d (year (fst p))))%float)
      (combine (ds_time ds) d).

(** [a * w] for [a] on (time, lat, lon) and [w] on (time). *)
Definition mul_time (a : list grid) (w : list float) : list grid :=
  map (fun p => grid_map (fun v => (v * snd p)%float) (fst p)) (combine a w).

(** [ones = xr.where(obs.isnull(), 0.0, 1.0)] *)
Definition ones_of (obs : list grid) : list grid :=
  map (grid_map (fun v => if isnan v then Fin 0 else Fin 1)) obs.

Definition obs_sum (ds : Dataset) : result (list grid) :=
  resample_values AS nansum (ds_nlat ds) (ds_nlon ds) (ds_time ds)
    (mul_time (air ds) (wgts ds)).

Definition ones_out (ds : Dataset) : result (list grid) :=
  resample_values AS nansum (ds_nlat ds) (ds_nlon ds) (ds_time ds)
    (mul_time (ones_of (air ds)) (wgts ds)).

(** [a / b] for two arrays on the same (time, lat, lon) coordinates. *)
Definition div_time (a b : list grid) : list grid :=
  map (fun p => grid_zip fdiv (fst p) (snd p)) (combine a b).

(** [obs_sum / ones_out], one slab per year. *)
Definition annual_ratio (ds : Dataset) : result (list grid) :=
  bind (obs_sum ds) (fun s =>
  bind (ones_out ds) (fun o => Ok (div_time s o))).

(** The returned series: the year labels with the mean over (lat, lon). *)
Definition weighted_temporal_mean (ds : Dataset)
    : result (list (datetime * float)) :=
  bind (annual_ratio ds) (fun ratio =>
    Ok (combine (map bin_label (bin_range AS (ds_time ds)))
                (map (fun g => nanmean (flatten g)) ratio))).

(* ------------------------------------------------------------------ *)
(** ** Linear trends *)

(** [np.arange(n)] *)
Definition arange (n : nat) : list Z := map Z.of_nat (seq 0 n).

(** [a[mask]] for a boolean mask. *)
Definition boolean_index (A : Type) (a : list A) (mask : list bool) : list A :=
  map fst (filter snd (combine a mask)).

(** [np.sum(mask)] *)
Definition count_true (mask : list bool) : nat := length (filter id mask).

(** [r[0]] on the outcome of a call. *)
Definition first_coefficient (r : result (list float)) : result float :=
  match r with
  | Ok (c :: _) => Ok c
  | Ok [] => Raise IndexError
  | Raise e => Raise e
  end.

Section Trend.

(** [np.polyfit(x, y, deg)]: the coefficients, highest power first, or an
    exception.  It belongs to numpy and is a parameter here. *)
Variable polyfit : list Z -> list float -> nat -> result (list float).

Definition finite_indexes (y : list float) : list bool :=
  map (fun v => negb (isnan v)) y.

(** The samples handed to the fit. *)
Definition fit_inputs (y : list float) : list Z * list float :=
  let x := arange (length y) in
  (boolean_index x (finite_indexes y), boolean_index y (finite_indexes y)).

Definition calc_slope (y : list float) : result float :=
  if (count_true (finite_indexes y) <? 2)%nat then Ok NaN
  else first_coefficient
         (polyfit (fst (fit_inputs y)) (snd (fit_inputs y)) 1).

(** The 1-D slice along time at one (lat, lon) point of one member. *)
Definition time_slice (xs : list grid) (i j : nat) : list float :=
  map (fun g => cell g i j) xs.

(** [xr.apply_ufunc(calc_slope, ..., vectorize=True,
    input_core_dims=[["time"]])]: one call per (member_id, lat, lon); an
    exception in any call aborts the whole computation.  Chunking and the
    dask scheduling mode do not enter the values. *)
Definition linear_trend (da : DataArray) : result (list grid) :=
  mapM (fun xs =>
          mapM (fun i =>
                  mapM (fun j => calc_slope (time_slice xs i j))
                       (seq 0 (nlon da)))
               (seq 0 (nlat da)))
       (values da).

End Trend.

(* ------------------------------------------------------------------ *)
(** ** Winter seasons *)

(** [t.sel(time=slice("1979", "2012")).resample(time="QS-DEC").mean("time")]
    followed by [.sel(time=slice("1979", "2012"))]. *)
Definition seasons (t : DataArray) : result DataArray :=
  bind (sel_years 1979 2012 t) (fun window =>
  bind (resample QS_DEC nanmean window) (fun quarters =>
    sel_years 1979 2012 quarters)).

(** The seasons whose label falls in December.  The labels of a resample
    are pairwise distinct, so selecting by the retained labels is the same
    as filtering on the month. *)
Definition winter_seasons (seasons : DataArray) : DataArray :=
  sel_time (fun l => (month l =? 12)%Z) seasons.

(** [assert len(winter_seasons.time) == 34] *)
Definition assert_34_seasons (winter_seasons : DataArray) : result unit :=
  if (length (time winter_seasons) =? 34)%nat then Ok tt
  else Raise AssertionError.

(* ================================================================== *)
(** * Quantities used in the statements *)

(* ------------------------------------------------------------------ *)
(** ** Exact sums *)

Definition qsum (l : list Qc) : Qc := fold_right Qcplus 0%Qc l.

(** An integer as a rational. *)
Definition qint (z : Z) : Qc := Q2Qc (inject_Z z).

Definition qsq (q : Qc) : Qc := (q * q)%Qc.

Definition sumZ (l : list Z) : Z := fold_right Z.add 0%Z l.

(** Decidable comparison of computed results. *)
Fixpoint list_eqb (A : Type) (e : A -> A -> bool) (l1 l2 : list A) : bool :=
  match l1, l2 with
  | [], [] => true
  | a :: l1', b :: l2' => e a b && list_eqb e l1' l2'
  | _, _ => false
  end.

(* ------------------------------------------------------------------ *)
(** ** Fields and time axes *)

(** The grid whose value at the point (i, j) is [f i j]. *)
Definition grid_of (nlat nlon : nat) (f : nat -> nat -> float) : grid :=
  map (fun i => map (fun j => f i j) (seq 0 nlon)) (seq 0 nlat).

(** The mean of the values that are not NaN, NaN when there is none. *)
Definition valid_mean (l : list float) : float :=
  let vs := filter (fun v => negb (isnan v)) l in
  (fsum vs / of_Z (Z.of_nat (length vs)))%float.

(** [a] is strictly earlier than [b]. *)
Definition before (a b : datetime) : Prop :=
  (year a < year b
   \/ (year a = year b
       /\ (month a < month b \/ (month a = month b /\ day a < day b))))%Z.

(** A time axis that is a strictly increasing sequence of instants. *)
Definition increasing (time : list datetime) : Prop :=
  StronglySorted before time.

(** The integers from [a] on, [n] of them. *)
Definition zrange (a : Z) (n : nat) : list Z :=
  map (fun k => a + Z.of_nat k)%Z (seq 0 n).

(** The years from [a] to [b], none when [b < a]. *)
Definition years_between (a b : Z) : list Z :=
  zrange a (Z.to_nat (b - a + 1)).

Definition first_year (time : list datetime) : Z :=
  match map year time with
  | [] => 0%Z
  | y :: ys => fold_right Z.min y ys
  end.

Definition last_year (time : list datetime) : Z :=
  match map year time with
  | [] => 0%Z
  | y :: ys => fold_right Z.max y ys
  end.

(** The calendar years a time axis spans, from the earliest to the
    latest. *)
Definition calendar_years (time : list datetime) : list Z :=
  years_between (first_year time) (last_year time).

Definition new_year (y : Z) : datetime := mkdate y 1 1.

(* ------------------------------------------------------------------ *)
(** ** The weighted reduction *)

(** The value and the weight met at each (lat, lon) point. *)
Definition paired_cells (g w : grid) : list (float * float) :=
  concat (map (fun r => combine (fst r) (snd r)) (combine g w)).

(** The reduction as the specification words it, with plain sums: the sum
    of F*W over the sum of W. *)
Definition spec_weighted_mean (g w : grid) : float :=
  (fsum (map (fun p => fst p * snd p)%float (paired_cells g w))
   / fsum (flatten w))%float.

Definition weighted_sum (g w : grid) : Qc :=
  qsum (map (fun p => to_Qc (fst p) * to_Qc (snd p))%Qc (paired_cells g w)).

(** The weighted sum over the points where the field is not missing. *)
Definition valid_weighted_sum (g w : grid) : Qc :=
  qsum (map (fun p => to_Qc (fst p) * to_Qc (snd p))%Qc
            (filter (fun p => negb (isnan (fst p))) (paired_cells g w))).

Definition weight_sum (w : grid) : Qc := qsum (map to_Qc (flatten w)).

Definition nan_or_finite (v : float) : bool := isnan v || isfinite v.

Definition same_shape (g w : grid) : Prop :=
  map (@length float) g = map (@length float) w.

(** Every slab of the field lies on the grid of [w] and its values
    satisfy [P]. *)
Definition field_on (P : float -> bool) (w : grid) (x : list (list grid)) : Prop :=
  Forall (Forall (fun g => same_shape g w
                           /\ Forall (fun v => P v = true) (flatten g))) x.

(* ------------------------------------------------------------------ *)
(** ** Duration-weighted annual values *)

(** One sample of the series at a (lat, lon) point: its stamp, its value
    and the duration of its interval. *)
Definition sample : Type := (datetime * float * Z)%type.

Definition stamp (s : sample) : datetime := fst (fst s).
Definition value (s : sample) : float := snd (fst s).
Definition duration (s : sample) : Z := snd s.

(** The sample at time step [k] of the series at the point (i, j): its
    stamp, its value, and the length of the interval it stands for, upper
    bound minus lower bound. *)
Definition sample_at (ds : Dataset) (i j k : nat) : sample :=
  (nth k (ds_time ds) (mkdate 0 1 1),
   nth j (nth i (nth k (air ds) []) []) NaN,
   (snd (nth k (time_bnds ds) (0, 0)) - fst (nth k (time_bnds ds) (0, 0)))%Z).

Definition point_samples (ds : Dataset) (i j : nat) : list sample :=
  map (sample_at ds i j) (seq 0 (length (ds_time ds))).

(** The samples of calendar year [y]. *)
Definition samples_of_year (ds : Dataset) (i j : nat) (y : Z) : list sample :=
  filter (fun s => (year (stamp s) =? y)%Z) (point_samples ds i j).

(** The same samples in the form the computation pairs them, used in the
    proofs. *)
Definition cell_samples (ds : Dataset) (i j : nat) : list sample :=
  combine (combine (ds_time ds) (map (fun g => cell g i j) (air ds)))
          (time_bound_diff ds).

Definition year_samples (ds : Dataset) (i j : nat) (y : Z) : list sample :=
  filter (fun s => (year (stamp s) =? y)%Z) (cell_samples ds i j).

Definition total_duration (ss : list sample) : Z :=
  fold_right Z.add 0%Z (map duration ss).

(** [weight_i = duration_i / sum of duration_j over the same year]. *)
Definition spec_weight (ss : list sample) (s : sample) : float :=
  (of_Z (duration s) / of_Z (total_duration ss))%float.

(** The annual value as the specification words it: the weighted sum of
    the valid samples over the sum of the weights of the valid samples. *)
Definition spec_annual (valid : float -> bool) (ss : list sample) : float :=
  let vs := filter (fun s => valid (value s)) ss in
  (fsum (map (fun s => value s * spec_weight ss s) vs)
   / fsum (map (spec_weight ss) vs))%float.

Definition not_nan (v : float) : bool := negb (isnan v).

(** The duration-weighted mean without any missing-value handling. *)
Definition plain_duration_mean (ss : list sample) : float :=
  fsum (map (fun s => value s * spec_weight ss s)%float ss).

(** Well-formed dataset: one bounds pair and one slab per time step, every
    slab of the declared shape. *)
Definition wf_dataset (ds : Dataset) : Prop :=
  length (time_bnds ds) = length (ds_time ds)
  /\ length (air ds) = length (ds_time ds)
  /\ Forall (has_shape (ds_nlat ds) (ds_nlon ds)) (air ds).

Definition positive_durations (ds : Dataset) : Prop :=
  Forall (fun b => fst b < snd b)%Z (time_bnds ds).

(** Every year between the first and the last holds at least one sample. *)
Definition covered_years (ds : Dataset) : Prop :=
  Forall (fun y => exists t, In t (ds_time ds) /\ year t = y)
         (calendar_years (ds_time ds)).

Definition all_finite (ds : Dataset) : Prop :=
  Forall (fun g => Forall (fun v => isfinite v = true) (flatten g)) (air ds).

(* ------------------------------------------------------------------ *)
(** ** Ordinary least squares of degree 1 *)

Definition Sx (xs : list Z) : Qc := qsum (map qint xs).
Definition Sxx (xs : list Z) : Qc := qsum (map (fun x => qsq (qint x)) xs).
Definition Syy (ys : list Qc) : Qc := qsum (map qsq ys).
Definition Sxy (xs : list Z) (ys : list Qc) : Qc :=
  qsum (map (fun p => qint (fst p) * snd p)%Qc (combine xs ys)).
Definition ols_count (xs : list Z) : Qc := qint (Z.of_nat (length xs)).

(** Determinant of the normal equations. *)
Definition ols_det (xs : list Z) : Qc :=
  (ols_count xs * Sxx xs - Sx xs * Sx xs)%Qc.

Definition ols_slope (xs : list Z) (ys : list Qc) : Qc :=
  ((ols_count xs * Sxy xs ys - Sx xs * qsum ys) / ols_det xs)%Qc.

Definition ols_intercept (xs : list Z) (ys : list Qc) : Qc :=
  ((qsum ys - ols_slope xs ys * Sx xs) / ols_count xs)%Qc.

(** Sum of the squared residuals of the line [m * x + c]. *)
Definition sse (xs : list Z) (ys : list Qc) (m c : Qc) : Qc :=
  qsum (map (fun p => qsq (snd p - (m * qint (fst p) + c)))%Qc (combine xs ys)).

(** What is assumed of [np.polyfit]: on finite data with a regular normal
    matrix, the degree-1 fit returns the least-squares slope and
    intercept, highest power first. *)
Definition least_squares_fit
    (polyfit : list Z -> list float -> nat -> result (list float)) : Prop :=
  forall (xs : list Z) (ys : list Qc),
    length xs = length ys -> ols_det xs <> 0%Qc ->
    polyfit xs (map Fin ys) 1%nat
    = Ok [Fin (ols_slope xs ys); Fin (ols_intercept xs ys)].

(** What is assumed of [np.polyfit] on data that hold a value that is not
    finite: it does not raise, and its leading coefficient is not
    finite. *)
Definition nonfinite_fit
    (polyfit : list Z -> list float -> nat -> result (list float)) : Prop :=
  forall (xs : list Z) (ys : list float),
    length xs = length ys ->
    Exists (fun v => isfinite v = false) ys ->
    exists c cs, polyfit xs ys 1%nat = Ok (c :: cs) /\ isfinite c = false.

(** A fit of that kind: exact least squares on finite data with a regular
    normal matrix; NaN coefficients when a value is not finite, as the
    sums of the fit then are; an error elsewhere. *)
Definition polyfit_exact (xs : list Z) (ys : list float) (deg : nat)
    : result (list float) :=
  if forallb isfinite ys && (length xs =? length ys)%nat && (deg =? 1)%nat
     && negb (Qc_eqb (ols_det xs) 0)
  then Ok [Fin (ols_slope xs (map to_Qc ys));
           Fin (ols_intercept xs (map to_Qc ys))]
  else if negb (forallb isfinite ys) && (length xs =? length ys)%nat
          && (deg =? 1)%nat
  then Ok [NaN; NaN]
  else Raise LinAlgError.

(** Every member has one slab per time step, of the declared shape, with
    finite values. *)
Definition finite_field (da : DataArray) : Prop :=
  Forall (fun xs =>
            length xs = length (time da)
            /\ Forall (fun g => has_shape (nlat da) (nlon da) g
                              /\ Forall (fun v => isfinite v = true) (flatten g))
                      xs)
         (values da).

(** The series [y_i = 2 * i + 5]. *)
Definition linear_series (n : nat) : list float :=
  map (fun x => Fin (qint 2 * qint x + qint 5)%Qc) (arange n).

(** The series of member [m] at the point (i, j), read off the field:
    its value at every time step. *)
Definition series_at (da : DataArray) (m i j : nat) : list float :=
  map (fun k => nth j (nth i (nth k (nth m (values da) []) []) []) NaN)
      (seq 0 (length (time da))).

(* ------------------------------------------------------------------ *)
(** ** Sample data *)

(** A 2 x 2 grid of cell areas, and fields of one member and one time step
    on it. *)
Definition sample_area : grid := [[fin 1 1; fin 2 1]; [fin 3 1; fin 4 1]].
Definition sample_field : list (list grid) :=
  [[ [[fin 10 1; fin 20 1]; [fin 30 1; fin 40 1]] ]].
Definition sample_field_gap : list (list grid) :=
  [[ [[fin 10 1; NaN]; [fin 30 1; fin 40 1]] ]].
Definition uniform_area : grid := [[fin 5 2; fin 5 2]; [fin 5 2; fin 5 2]].
Definition zero_area : grid := [[fin 0 1; fin 0 1]; [fin 0 1; fin 0 1]].

(** A one-member field on that grid with two time steps in 2000 and one in
    2001; one sample of 2000 is missing at the second point. *)
Definition sample_t_20c : DataArray :=
  {| time := [mkdate 2000 1 16; mkdate 2000 7 16; mkdate 2001 1 16];
     nlat := 2; nlon := 2;
     values := [ [ [[fin 10 1; NaN]; [fin 30 1; fin 40 1]];
                   [[fin 20 1; fin 20 1]; [fin 50 1; fin 60 1]];
                   [[fin 1 1; fin 1 1]; [fin 1 1; fin 1 1]] ] ] |}.

(** A monthly time axis of [n] months from January of year [y0], stamped
    mid-month, and a one-member, one-cell field on it whose value at month
    [k] is [k]. *)
Definition monthly_axis (y0 : Z) (n : nat) : list datetime :=
  map (fun k => let o := (12 * y0 + Z.of_nat k)%Z in
                mkdate (o / 12) (o mod 12 + 1) 15) (seq 0 n).

Definition monthly_field (y0 : Z) (n : nat) : DataArray :=
  {| time := monthly_axis y0 n; nlat := 1; nlon := 1;
     values := [map (fun k => [[of_Z (Z.of_nat k)]]) (seq 0 n)] |}.


(** The same with finite values everywhere. *)
Definition sample_obs_finite : Dataset :=
  {| ds_time := [mkdate 2000 1 16; mkdate 2000 2 15; mkdate 2001 1 16];
     time_bnds := [(0, 31); (31, 60); (366, 397)]%Z;
     ds_nlat := 1; ds_nlon := 2;
     air := [ [[fin 1 1; fin 2 1]]; [[fin 4 1; fin 3 1]]; [[fin 5 1; fin 6 1]] ] |}.

(** A one-member field of three time steps on a 1 x 2 grid: the first
    point follows [2 * i + 5], the second one holds 1, 4, 2. *)
Definition sample_trend_field : DataArray :=
  {| time := [mkdate 1979 12 1; mkdate 1980 12 1; mkdate 1981 12 1];
     nlat := 1; nlon := 2;
     values := [ [ [[fin 5 1; fin 1 1]]; [[fin 7 1; fin 4 1]];
                   [[fin 9 1; fin 2 1]] ] ] |}.


(* ================================================================== *)
(** * Further cells of the notebook *)

From Stdlib Require Import Sorted Qround.

(* ------------------------------------------------------------------ *)
(** ** Scaled trends and their ensemble mean *)

Section WinterTrends.

Variable polyfit : list Z -> list float -> nat -> result (list float).

(** [linear_trend(winter_seasons.chunk(...)).load()
     * len(winter_seasons.time)]: the slope per sample times the number of
    samples, on (member_id, lat, lon). *)
Definition winter_trends (winter_seasons : DataArray) : result (list grid) :=
  bind (linear_trend polyfit winter_seasons) (fun trend =>
    Ok (map (grid_map (fun v =>
               (v * of_Z (Z.of_nat (length (time winter_seasons))))%float))
            trend)).

End WinterTrends.

(** [x.isel(member_id=range(n))]: the first [n] members; an index past the
    end raises. *)
Definition isel_members (n : nat) (x : list grid) : result (list grid) :=
  if (length x <? n)%nat then Raise IndexError else Ok (firstn n x).

(** [winter_trends.isel(member_id=range(30)).mean(dim='member_id')] *)
Definition winter_trends_mean (nlat nlon : nat) (winter_trends : list grid)
    : result grid :=
  bind (isel_members 30 winter_trends) (fun members =>
    Ok (reduce_time nanmean nlat nlon members)).

(* ------------------------------------------------------------------ *)
(** ** Quantities used in the statements *)

(** Integer form of the determinant of the normal equations. *)
Definition detZ (xs : list Z) : Z :=
  (Z.of_nat (length xs) * sumZ (map (fun x => x * x) xs)
   - sumZ xs * sumZ xs)%Z.

(** Sum of the squared distances of [x] to the elements of [xs]. *)
Definition spreadZ (x : Z) (xs : list Z) : Z :=
  sumZ (map (fun y => (x - y) * (x - y))%Z xs).

(** A series that follows the line [a * i + b] wherever it is not missing. *)
Definition on_line (a b : Qc) (y : list float) : Prop :=
  Forall2 (fun i v => v = NaN \/ v = Fin (a * qint i + b)%Qc)
          (arange (length y)) y.

(** Every slice of the field follows the line and has two valid samples. *)
Definition field_on_line (a b : Qc) (da : DataArray) : Prop :=
  Forall (fun xs => forall i j, (i < nlat da)%nat -> (j < nlon da)%nat ->
            on_line a b (time_slice xs i j)
            /\ (2 <= count_valid (time_slice xs i j))%nat)
         (values da).

(** A line with gaps: 5, missing, 9, 11, missing. *)
Definition gappy_series : list float :=
  [fin 5 1; NaN; fin 9 1; fin 11 1; NaN].

Definition gappy_trend_field : DataArray :=
  {| time := [mkdate 1979 12 1; mkdate 1980 12 1; mkdate 1981 12 1];
     nlat := 1; nlon := 2;
     values := [ [ [[fin 5 1; NaN]]; [[NaN; fin 7 1]]; [[fin 9 1; fin 9 1]] ] ] |}.

(** A field with a single time step. *)
Definition one_step_field : DataArray :=
  {| time := [mkdate 1979 12 1]; nlat := 1; nlon := 2;
     values := [ [ [[fin 5 1; PInf]] ]; [ [[NaN; fin 7 1]] ] ] |}.

(* ------------------------------------------------------------------ *)
(** ** The content of the winter seasons *)

(** The years 1979 to 2012. *)
Definition winter_years : list Z :=
  map (fun k => 1979 + Z.of_nat k)%Z (seq 0 34).

Definition december (y : Z) : datetime := mkdate y 12 1.

(** The stamps that enter the season labelled December [y]: December of
    [y], and January and February of [y + 1] as far as the selection up
    to 2012 keeps them. *)
Definition in_winter (y : Z) (s : datetime) : bool :=
  ((year s =? y) && (month s =? 12))%Z
  || ((year s =? y + 1) && (month s <=? 2) && (y + 1 <=? 2012))%Z.

(* ------------------------------------------------------------------ *)
(** ** The observed series *)

(** [obs_s['1920':]]: the entries from the first instant of the year on
    (the index of the series is increasing). *)
Definition series_from (y0 : Z) (s : list (datetime * float))
    : list (datetime * float) :=
  filter (fun p => (y0 <=? year (fst p))%Z) s.

(** [[val.year for val in obs_s.index]] *)
Definition obs_years (s : list (datetime * float)) : list Z :=
  map (fun p => year (fst p)) s.

(** The mean of the samples that are not NaN, weighted by their
    durations; NaN when there is none. *)
Definition valid_duration_mean (ss : list sample) : float :=
  match filter (fun s => not_nan (value s)) ss with
  | [] => NaN
  | vs => Fin (qsum (map (fun s => to_Qc (value s) * qint (duration s))%Qc vs)
               / qint (total_duration vs))
  end.

Definition finite_or_missing (ds : Dataset) : Prop :=
  Forall (fun g => Forall (fun v => nan_or_finite v = true) (flatten g))
         (air ds).

(** Every value of the dataset is the constant [c] or missing. *)
Definition constant_or_missing (c : Qc) (ds : Dataset) : Prop :=
  Forall (fun g => Forall (fun v => v = NaN \/ v = Fin c) (flatten g))
         (air ds).

Definition has_valid (ss : list sample) : bool :=
  existsb (fun s => not_nan (value s)) ss.

(** Observations with gaps and no infinite value, and a constant field
    with gaps. *)
Definition sample_obs_gaps : Dataset :=
  {| ds_time := [mkdate 2000 1 16; mkdate 2000 2 15; mkdate 2001 1 16];
     time_bnds := [(0, 31); (31, 60); (366, 397)]%Z;
     ds_nlat := 1; ds_nlon := 2;
     air := [ [[fin 1 1; NaN]]; [[fin 4 1; fin 3 1]]; [[fin 5 1; NaN]] ] |}.

Definition sample_obs_constant : Dataset :=
  {| ds_time := [mkdate 2000 1 16; mkdate 2000 2 15; mkdate 2001 1 16];
     time_bnds := [(0, 31); (31, 60); (366, 397)]%Z;
     ds_nlat := 1; ds_nlon := 2;
     air := [ [[fin 7 2; NaN]]; [[NaN; fin 7 2]]; [[fin 7 2; NaN]] ] |}.

(* ------------------------------------------------------------------ *)
(** ** Global means: the reference period *)

(** [t_ref = t_20c.sel(time=slice("1961", "1990"))] *)
Definition t_ref (t_20c : DataArray) : result DataArray :=
  sel_years 1961 1990 t_20c.

(** [t_ref_ts]: the global annual means of the reference period, averaged
    over [time] and [member_id]. *)
Definition t_ref_ts (t_ref : DataArray) (cell_area : grid) : result float :=
  bind (resample AS nanmean t_ref) (fun annual =>
    Ok (nanmean (concat (weighted_reduce (values annual) cell_area)))).

(** The entries of a row of annual values whose year lies between [a]
    and [b]. *)
Definition entries_of_years (a b : Z) (years : list Z) (row : list float)
    : list float :=
  map snd (filter (fun q => ((a <=? fst q) && (fst q <=? b))%Z)
                  (combine years row)).

(** A field on the 2 x 2 grid with samples in 2000 and 2002 and none in
    2001. *)
Definition sample_t_gap_year : DataArray :=
  {| time := [mkdate 2000 1 16; mkdate 2002 1 16];
     nlat := 2; nlon := 2;
     values := [ [ [[fin 10 1; fin 20 1]; [fin 30 1; fin 40 1]];
                   [[fin 20 1; fin 20 1]; [fin 50 1; fin 60 1]] ] ] |}.

(** Monthly data from January 1960 to December 1991, one member, one
    cell. *)
Definition sample_t_1960_1991 : DataArray := monthly_field 1960 384.

(* ------------------------------------------------------------------ *)
(** ** The panel of maps *)

(** The loop over the ensemble members: [plot_index = ensemble_index + 1],
    [plotRow = ensemble_index // numPlotCols],
    [plotCol = ensemble_index % numPlotCols]. *)
Definition plot_index (ensemble_index : Z) : Z := (ensemble_index + 1)%Z.
Definition plotRow (numPlotCols ensemble_index : Z) : Z :=
  (ensemble_index / numPlotCols)%Z.
Definition plotCol (numPlotCols ensemble_index : Z) : Z :=
  (ensemble_index mod numPlotCols)%Z.

(** The (row, column) of the axes that [plt.subplot(nrows, ncols, index)]
    addresses: indexes count from 1 along the rows. *)
Definition subplot_cell (ncols index : Z) : Z * Z :=
  ((index - 1) / ncols, (index - 1) mod ncols)%Z.

(* ------------------------------------------------------------------ *)
(** ** Longitudes of the gridded observations *)

(** The remainder of numpy and Python on floats: it has the sign of the
    divisor, and is NaN for an infinite dividend or a zero divisor. *)
Definition fmod (a b : float) : float :=
  match a, b with
  | Fin x, Fin y =>
      if Qc_eqb y 0 then NaN
      else Fin (x - y * qint (Qfloor (x / y)%Qc))%Qc
  | Fin x, PInf => if Qc_ltb x 0 then PInf else Fin x
  | Fin x, NInf => if Qc_ltb 0 x then NInf else Fin x
  | _, _ => NaN
  end.

(** [(ds.lon + 360) % 360] *)
Definition wrap_lon (v : float) : float :=
  fmod (v + Fin (qint 360)) (Fin (qint 360)).

(** The order of a numpy sort: the numbers in increasing order, NaN
    last. *)
Definition fleb (a b : float) : bool :=
  match a, b with
  | _, NaN => true
  | NaN, _ => false
  | NInf, _ => true
  | _, NInf => false
  | _, PInf => true
  | PInf, _ => false
  | Fin x, Fin y => negb (Qc_ltb y x)
  end.

(** Stable insertion of a (key, index) pair among sorted pairs. *)
Fixpoint insert_key (p : float * nat) (l : list (float * nat))
    : list (float * nat) :=
  match l with
  | [] => [p]
  | q :: l' =>
      if fleb (fst p) (fst q) then p :: q :: l' else q :: insert_key p l'
  end.

(** The stable argsort that [sortby] applies to the coordinate. *)
Definition argsort (keys : list float) : list nat :=
  map snd (fold_right insert_key [] (combine keys (seq 0 (length keys)))).

(** Positional indexing by a list of indexes. *)
Definition take (A : Type) (d : A) (idx : list nat) (l : list A) : list A :=
  map (fun i => nth i l d) idx.

(** The gridded observations: [tempanomaly] on (time, lat, lon). *)
Record ObsDataset : Type := mkObsDataset {
  obs_time : list datetime;
  obs_lat : list float;
  obs_lon : list float;
  tempanomaly : list grid
}.

(** [ds.assign_coords(lon=((ds.lon + 360) % 360)).sortby('lon')]: the new
    coordinate is sorted and the data are reordered along [lon] with
    it. *)
Definition wrap_and_sort_lon (ds : ObsDataset) : ObsDataset :=
  let lon := map wrap_lon (obs_lon ds) in
  let idx := argsort lon in
  {| obs_time := obs_time ds;
     obs_lat := obs_lat ds;
     obs_lon := take NaN idx lon;
     tempanomaly := map (map (take NaN idx)) (tempanomaly ds) |}.

(** Longitudes from -180 to 180 by steps of 90, and one slab on them. *)
Definition sample_gridded : ObsDataset :=
  {| obs_time := [mkdate 1979 12 15];
     obs_lat := [fin 0 1];
     obs_lon := [fin (-180) 1; fin (-90) 1; fin 0 1; fin 90 1; fin 180 1];
     tempanomaly := [ [[fin 1 1; fin 2 1; fin 3 1; fin 4 1; fin 5 1]] ] |}.

(* ------------------------------------------------------------------ *)
(** ** The samples that enter a fit *)

(** Indexes and values of the samples that are not NaN. *)
Definition valid_indexes (y : list float) : list Z :=
  map fst (filter (fun q => not_nan (snd q)) (combine (arange (length y)) y)).

Definition valid_values (y : list float) : list Qc :=
  map to_Qc (filter not_nan y).

(** A change of unit or of origin, [k * v + c]. *)
Definition affine (k c : Qc) (v : float) : float := (Fin k * v + Fin c)%float.

(** A series with gaps that is not a line: 1, missing, 4, 2. *)
Definition gappy_values : list float := [fin 1 1; NaN; fin 4 1; fin 2 1].

(* ================================================================== *)
(** * Properties *)

(* ------------------------------------------------------------------ *)
(** ** Arithmetic of the float model *)

Lemma Qc_eqb_true (a b : Qc) : Qc_eqb a b = true <-> a = b.
Proof.
  unfold Qc_eqb. rewrite Qeq_bool_iff. split.
  - apply Qc_is_canon.
  - intros ->. reflexivity.
Qed.

Lemma Qc_eqb_false (a b : Qc) : Qc_eqb a b = false <-> a <> b.
Proof.
  rewrite <- Qc_eqb_true. destruct (Qc_eqb a b); split; congruence.
Qed.

Lemma eqb_eq (a b : float) : eqb a b = true <-> a = b.
Proof.
  destruct a, b; simpl; try (split; congruence).
  rewrite Qc_eqb_true. split; congruence.
Qed.

Lemma fadd_0_l (v : float) : (Fin 0 + v)%float = v.
Proof. destruct v; simpl; try reflexivity. f_equal. ring. Qed.

Lemma fadd_comm (a b : float) : (a + b)%float = (b + a)%float.
Proof. destruct a, b; simpl; try reflexivity. f_equal. ring. Qed.

Lemma fadd_assoc (a b c : float) :
  (a + (b + c))%float = ((a + b) + c)%float.
Proof. destruct a, b, c; simpl; try reflexivity. f_equal. ring. Qed.

(** In this model the order of a summation does not matter. *)
Lemma fsum_perm (l l' : list float) : Permutation l l' -> fsum l = fsum l'.
Proof.
  unfold fsum. induction 1 as [|a l l' _ IH|a b l|l l' l'' _ IH1 _ IH2]; simpl.
  - reflexivity.
  - rewrite IH. reflexivity.
  - rewrite !fadd_assoc, (fadd_comm b a). reflexivity.
  - rewrite IH1. exact IH2.
Qed.

Lemma fsum_Fin (qs : list Qc) : fsum (map Fin qs) = Fin (qsum qs).
Proof.
  induction qs as [|q qs IH]; simpl; [reflexivity|].
  fold (fsum (map Fin qs)). rewrite IH. reflexivity.
Qed.

Lemma finite_is_Fin (v : float) : isfinite v = true -> v = Fin (to_Qc v).
Proof. destruct v; simpl; congruence. Qed.

Lemma all_finite_map (l : list float) :
  Forall (fun v => isfinite v = true) l -> l = map Fin (map to_Qc l).
Proof.
  induction 1 as [|v l Hv _ IH]; simpl; [reflexivity|].
  rewrite <- IH, <- (finite_is_Fin _ Hv). reflexivity.
Qed.

(* ------------------------------------------------------------------ *)
(** ** The weighted reduction over (lat, lon) *)

Lemma flatten_grid_zip (f : float -> float -> float) (g w : grid) :
  flatten (grid_zip f g w) = map (fun p => f (fst p) (snd p)) (paired_cells g w).
Proof.
  unfold flatten, grid_zip, paired_cells.
  rewrite concat_map, map_map. reflexivity.
Qed.

Lemma in_paired_cells (g w : grid) (p : float * float) :
  In p (paired_cells g w) -> In (fst p) (flatten g) /\ In (snd p) (flatten w).
Proof.
  unfold paired_cells, flatten. revert w.
  induction g as [|r g IH]; intros [|s w]; simpl; try tauto.
  rewrite !in_app_iff. intros [H|H].
  - destruct p as [a b]. split; left.
    + eapply in_combine_l; eauto.
    + eapply in_combine_r; eauto.
  - destruct (IH _ H). tauto.
Qed.

Lemma nansum_finite (l : list float) :
  Forall (fun v => isfinite v = true) l -> nansum l = Fin (qsum (map to_Qc l)).
Proof.
  unfold nansum. induction 1 as [|v l Hv _ IH]; simpl; [reflexivity|].
  fold (fsum (map fillna0 l)). rewrite IH.
  destruct v; simpl in *; try discriminate. reflexivity.
Qed.

Lemma nansum_products (ps : list (float * float)) :
  Forall (fun p => nan_or_finite (fst p) = true /\ isfinite (snd p) = true) ps ->
  nansum (map (fun p => fst p * snd p)%float ps)
  = Fin (qsum (map (fun p => to_Qc (fst p) * to_Qc (snd p))%Qc
                   (filter (fun p => negb (isnan (fst p))) ps))).
Proof.
  unfold nansum. induction 1 as [|[a b] ps [Ha Hb] _ IH]; simpl; [reflexivity|].
  fold (fsum (map fillna0 (map (fun p => fst p * snd p)%float ps))).
  rewrite IH. simpl in Ha, Hb.
  destruct a, b; simpl in *; try discriminate.
  - f_equal. ring.
  - reflexivity.
Qed.

Lemma weighted_cell (g w : grid) :
  Forall (fun v => nan_or_finite v = true) (flatten g) ->
  Forall (fun v => isfinite v = true) (flatten w) ->
  weight_sum w <> 0%Qc ->
  (nansum (flatten (grid_zip fmul g w)) / total_area w)%float
  = Fin (valid_weighted_sum g w / weight_sum w).
Proof.
  intros Hg Hw Hs. rewrite flatten_grid_zip, nansum_products.
  - unfold total_area. rewrite (nansum_finite Hw). simpl.
    fold (weight_sum w). apply Qc_eqb_false in Hs. rewrite Hs. reflexivity.
  - rewrite Forall_forall in *. intros p Hp.
    destruct (in_paired_cells _ _ _ Hp). auto.
Qed.

Lemma map_fst_combine_eq (A B : Type) (a : list A) (b : list B) :
  length a = length b -> map fst (combine a b) = a.
Proof.
  revert b. induction a as [|x a IH]; intros [|y b]; simpl; try congruence.
  intros H. f_equal. apply IH. congruence.
Qed.

Lemma map_snd_combine_eq (A B : Type) (a : list A) (b : list B) :
  length a = length b -> map snd (combine a b) = b.
Proof.
  revert b. induction a as [|x a IH]; intros [|y b]; simpl; try congruence.
  intros H. f_equal. apply IH. congruence.
Qed.

Lemma paired_cells_fst (g w : grid) :
  same_shape g w -> map fst (paired_cells g w) = flatten g.
Proof.
  unfold same_shape, paired_cells, flatten. revert w.
  induction g as [|r g IH]; intros [|s w]; simpl; try congruence.
  intros H. injection H as Hr Hg.
  rewrite map_app, map_fst_combine_eq by assumption. f_equal. auto.
Qed.

Lemma paired_cells_snd (g w : grid) :
  same_shape g w -> map snd (paired_cells g w) = flatten w.
Proof.
  unfold same_shape, paired_cells, flatten. revert w.
  induction g as [|r g IH]; intros [|s w]; simpl; try congruence.
  intros H. injection H as Hr Hg.
  rewrite map_app, map_snd_combine_eq by assumption. f_equal. auto.
Qed.

Lemma filter_all_true (A : Type) (p : A -> bool) (l : list A) :
  Forall (fun a => p a = true) l -> filter p l = l.
Proof.
  induction 1 as [|a l Ha _ IH]; simpl; [reflexivity|].
  rewrite Ha, IH. reflexivity.
Qed.

Lemma finite_not_nan (v : float) : isfinite v = true -> isnan v = false.
Proof. destruct v; simpl; congruence. Qed.

Lemma finite_nan_or_finite (v : float) :
  isfinite v = true -> nan_or_finite v = true.
Proof. unfold nan_or_finite. intros ->. apply orb_true_r. Qed.

Lemma valid_weighted_sum_finite (g w : grid) :
  Forall (fun v => isfinite v = true) (flatten g) ->
  valid_weighted_sum g w = weighted_sum g w.
Proof.
  intros Hg. unfold valid_weighted_sum, weighted_sum.
  rewrite filter_all_true; [reflexivity|].
  rewrite Forall_forall in *. intros p Hp.
  destruct (in_paired_cells _ _ _ Hp) as [H _].
  rewrite (finite_not_nan _ (Hg _ H)). reflexivity.
Qed.

Lemma fsum_products_finite (ps : list (float * float)) :
  Forall (fun p => isfinite (fst p) = true /\ isfinite (snd p) = true) ps ->
  fsum (map (fun p => fst p * snd p)%float ps)
  = Fin (qsum (map (fun p => to_Qc (fst p) * to_Qc (snd p))%Qc ps)).
Proof.
  induction 1 as [|[a b] ps [Ha Hb] _ IH]; simpl; [reflexivity|].
  fold (fsum (map (fun p => fst p * snd p)%float ps)). rewrite IH.
  destruct a, b; simpl in *; try discriminate. reflexivity.
Qed.

Lemma fsum_finite (l : list float) :
  Forall (fun v => isfinite v = true) l -> fsum l = Fin (qsum (map to_Qc l)).
Proof.
  intros H. rewrite (all_finite_map H) at 1. apply fsum_Fin.
Qed.

Lemma spec_weighted_mean_finite (g w : grid) :
  Forall (fun v => isfinite v = true) (flatten g) ->
  Forall (fun v => isfinite v = true) (flatten w) ->
  weight_sum w <> 0%Qc ->
  spec_weighted_mean g w = Fin (weighted_sum g w / weight_sum w).
Proof.
  intros Hg Hw Hs. unfold spec_weighted_mean.
  rewrite fsum_products_finite, (fsum_finite Hw).
  - simpl. fold (weight_sum w). apply Qc_eqb_false in Hs. rewrite Hs.
    reflexivity.
  - rewrite Forall_forall in *. intros p Hp.
    destruct (in_paired_cells _ _ _ Hp). auto.
Qed.

Lemma map_map_ext_Forall (A B : Type) (f h : A -> B) (x : list (list A))
    (P : A -> Prop) :
  (forall a, P a -> f a = h a) ->
  Forall (Forall P) x -> map (map f) x = map (map h) x.
Proof.
  intros Hfh. induction 1 as [|r x Hr _ IH]; simpl; [reflexivity|].
  f_equal; [|exact IH].
  induction Hr as [|a r Ha _ IHr]; simpl; [reflexivity|].
  rewrite (Hfh _ Ha), IHr. reflexivity.
Qed.

(** C10.  In the area-weighted global mean a missing (NaN) sample adds
    nothing to the numerator while its cell area stays in the denominator:
    for a field whose samples are finite or NaN and cell areas that are
    finite with a nonzero total, every output is the finite value
    (sum over the non-missing points of F*W) / (sum of W over all points). *)
Theorem weighted_reduce_missing_counts_zero
    (x : list (list grid)) (cell_area : grid) :
  field_on nan_or_finite cell_area x ->
  Forall (fun v => isfinite v = true) (flatten cell_area) ->
  weight_sum cell_area <> 0%Qc ->
  weighted_reduce x cell_area
  = map (map (fun g =>
       Fin (valid_weighted_sum g cell_area / weight_sum cell_area))) x.
Proof.
  intros Hx Hw Hs. unfold weighted_reduce.
  apply map_map_ext_Forall with (2 := Hx).
  intros g [_ Hg]. apply weighted_cell; assumption.
Qed.

Lemma list_eqb_eq (A : Type) (e : A -> A -> bool) :
  (forall a b, e a b = true <-> a = b) ->
  forall l1 l2, list_eqb e l1 l2 = true <-> l1 = l2.
Proof.
  intros He. induction l1 as [|a l1 IH]; intros [|b l2]; simpl;
    try (split; congruence).
  rewrite andb_true_iff, He, IH. split.
  - intros [-> ->]. reflexivity.
  - intros H. injection H. auto.
Qed.

Lemma series_eqb_eq (l1 l2 : list (list float)) :
  list_eqb (list_eqb eqb) l1 l2 = true <-> l1 = l2.
Proof. apply list_eqb_eq, list_eqb_eq, eqb_eq. Qed.

Lemma vector_eqb_eq (l1 l2 : list float) :
  list_eqb eqb l1 l2 = true <-> l1 = l2.
Proof. apply list_eqb_eq, eqb_eq. Qed.

Lemma grids_eqb_eq (l1 l2 : list grid) :
  list_eqb (list_eqb (list_eqb eqb)) l1 l2 = true <-> l1 = l2.
Proof. apply list_eqb_eq, series_eqb_eq. Qed.

Lemma series_eqb_neq (l1 l2 : list (list float)) :
  list_eqb (list_eqb eqb) l1 l2 = false -> l1 <> l2.
Proof.
  intros H E. apply series_eqb_eq in E. congruence.
Qed.

(** Closes goals about concrete float data by evaluation. *)
Ltac float_eval :=
  lazymatch goal with
  | |- @eq float _ _ => apply eqb_eq; vm_compute; reflexivity
  | |- @eq (list float) _ _ => apply vector_eqb_eq; vm_compute; reflexivity
  | |- @eq (list (list float)) _ _ => apply series_eqb_eq; vm_compute; reflexivity
  | |- @eq (list grid) _ _ => apply grids_eqb_eq; vm_compute; reflexivity
  | |- _ <> _ :> list (list float) => apply series_eqb_neq; vm_compute; reflexivity
  | |- _ <> _ :> Qc => apply Qc_eqb_false; vm_compute; reflexivity
  | |- @eq Qc _ _ => apply Qc_eqb_true; vm_compute; reflexivity
  | |- _ => vm_compute; reflexivity
  end.

Lemma qint_succ (n : nat) : qint (Z.of_nat (S n)) = (qint (Z.of_nat n) + 1)%Qc.
Proof.
  unfold qint. apply Qc_is_canon. unfold Qcplus, Q2Qc. cbn [this].
  rewrite !Qred_correct, Nat2Z.inj_succ. unfold Z.succ.
  rewrite inject_Z_plus. reflexivity.
Qed.

Lemma qint_eq0 (z : Z) : qint z = 0%Qc -> z = 0%Z.
Proof.
  unfold qint. intros H. apply Q2Qc_eq_iff in H.
  unfold Qeq in H. simpl in H. lia.
Qed.

Lemma qsum_scale_r (c : Qc) (ps : list (float * float)) :
  Forall (fun p => snd p = Fin c) ps ->
  qsum (map (fun p => to_Qc (fst p) * to_Qc (snd p))%Qc ps)
  = (qsum (map to_Qc (map fst ps)) * c)%Qc.
Proof.
  induction 1 as [|[a b] ps Hb _ IH]; simpl.
  - ring.
  - fold (qsum (map (fun p => to_Qc (fst p) * to_Qc (snd p))%Qc ps)).
    fold (qsum (map to_Qc (map fst ps))).
    rewrite IH. simpl in Hb. subst b. simpl. ring.
Qed.

Lemma qsum_const (c : Qc) (l : list float) :
  Forall (fun v => v = Fin c) l ->
  qsum (map to_Qc l) = (qint (Z.of_nat (length l)) * c)%Qc.
Proof.
  induction 1 as [|v l Hv _ IH].
  - cbn [map qsum fold_right length Z.of_nat].
    change (qint 0) with 0%Qc. ring.
  - cbn [map qsum fold_right length]. fold (qsum (map to_Qc l)).
    rewrite IH, qint_succ. subst v. simpl. ring.
Qed.

Lemma count_valid_finite (l : list float) :
  Forall (fun v => isfinite v = true) l -> count_valid l = length l.
Proof.
  intros H. unfold count_valid. rewrite filter_all_true; [reflexivity|].
  eapply Forall_impl; [|exact H]. simpl. intros v Hv.
  rewrite (finite_not_nan _ Hv). reflexivity.
Qed.

Lemma nanmean_finite (l : list float) :
  Forall (fun v => isfinite v = true) l ->
  nanmean l = (Fin (qsum (map to_Qc l)) / Fin (qint (Z.of_nat (length l))))%float.
Proof.
  intros H. unfold nanmean. rewrite (nansum_finite H), (count_valid_finite H).
  reflexivity.
Qed.

Lemma uniform_cell (g w : grid) (c : Qc) :
  c <> 0%Qc ->
  Forall (fun v => v = Fin c) (flatten w) ->
  same_shape g w ->
  Forall (fun v => isfinite v = true) (flatten g) ->
  (nansum (flatten (grid_zip fmul g w)) / total_area w)%float
  = nanmean (flatten g).
Proof.
  intros Hc Hw Hsh Hg.
  assert (Hwf : Forall (fun v => isfinite v = true) (flatten w)).
  { eapply Forall_impl; [|exact Hw]. simpl. intros v ->. reflexivity. }
  assert (Hlen : length (flatten w) = length (flatten g)).
  { rewrite <- (paired_cells_fst Hsh), <- (paired_cells_snd Hsh).
    rewrite !length_map. reflexivity. }
  rewrite (nanmean_finite Hg), flatten_grid_zip.
  rewrite nansum_products.
  2:{ rewrite Forall_forall in *. intros p Hp.
      destruct (in_paired_cells _ _ _ Hp).
      auto using finite_nan_or_finite. }
  fold (valid_weighted_sum g w). rewrite valid_weighted_sum_finite by assumption.
  unfold total_area. rewrite (nansum_finite Hwf).
  unfold weighted_sum. rewrite (qsum_scale_r (c := c)).
  2:{ rewrite Forall_forall in *. intros p Hp.
      destruct (in_paired_cells _ _ _ Hp). auto. }
  rewrite (paired_cells_fst Hsh), (qsum_const Hw), Hlen.
  set (n := qint (Z.of_nat (length (flatten g)))).
  set (s := qsum (map to_Qc (flatten g))).
  simpl. destruct (Qc_eqb n 0) eqn:Hn.
  - apply Qc_eqb_true in Hn. rewrite Hn.
    replace (0 * c)%Qc with 0%Qc by ring.
    replace (Qc_eqb 0 0) with true by (symmetry; apply Qc_eqb_true; reflexivity).
    subst n. apply qint_eq0 in Hn.
    assert (Hnil : flatten g = []).
    { destruct (flatten g); [reflexivity|simpl in Hn; lia]. }
    subst s. rewrite Hnil. simpl.
    replace (Qc_eqb (0 * c) 0) with true
      by (symmetry; apply Qc_eqb_true; ring).
    reflexivity.
  - apply Qc_eqb_false in Hn.
    assert (Hnc : (n * c)%Qc <> 0%Qc).
    { intros E. apply Qcmult_integral in E. tauto. }
    apply Qc_eqb_false in Hnc. rewrite Hnc. f_equal. field. tauto.
Qed.

Lemma weighted_reduce_missing_counts_zero_witness :
  weighted_reduce sample_field_gap sample_area
  = map (map (fun g =>
       Fin (valid_weighted_sum g sample_area / weight_sum sample_area)))
        sample_field_gap.
Proof.
  apply weighted_reduce_missing_counts_zero.
  - unfold field_on, sample_field_gap. repeat constructor.
  - unfold sample_area. repeat constructor.
  - float_eval.
Defined.

(** With a gap the output is neither NaN nor the mean renormalised over
    the valid points: here (10*1 + 30*3 + 40*4) / 10 = 26, where the
    renormalised mean would be 260 / 8. *)
Example weighted_reduce_gap_value :
  weighted_reduce sample_field_gap sample_area = [[fin 26 1]].
Proof. float_eval. Qed.

(** A call that returns a value equal, by a decidable comparison, to the
    expected one. *)
Lemma ok_by (A : Type) (e : A -> A -> bool) (x : result A) (v : A) :
  (forall a b, e a b = true <-> a = b) ->
  match x with Ok r => e r v | Raise _ => false end = true ->
  x = Ok v.
Proof.
  intros He H. destruct x as [r|]; [|discriminate].
  apply He in H. rewrite H. reflexivity.
Qed.

(** The annual means of the sample field are [[15; 20]; [40; 50]] in 2000
    (the missing sample is left out of the mean over time) and 1 everywhere
    in 2001; their area-weighted global means are 37.5 and 1. *)
Example t_20c_ts_sample :
  t_20c_ts sample_t_20c sample_area = Ok [[fin 75 2; fin 1 1]].
Proof.
  apply (ok_by (list_eqb (list_eqb eqb)) _ _ series_eqb_eq).
  vm_compute. reflexivity.
Qed.

(** C4 (as amended).  For a field with finite values on the grid of the
    weights, and finite weights with a nonzero sum, the weighted reduction
    over (lat, lon) is, at every (member, time) index, the plain sum of F*W
    divided by the plain sum of W, the finite value sum(F*W) / sum(W). *)
Theorem weighted_reduce_finite (x : list (list grid)) (w : grid) :
  field_on isfinite w x ->
  Forall (fun v => isfinite v = true) (flatten w) ->
  weight_sum w <> 0%Qc ->
  weighted_reduce x w = map (map (fun g => spec_weighted_mean g w)) x
  /\ weighted_reduce x w
     = map (map (fun g => Fin (weighted_sum g w / weight_sum w))) x.
Proof.
  intros Hx Hw Hs.
  assert (H : weighted_reduce x w
              = map (map (fun g => Fin (weighted_sum g w / weight_sum w))) x).
  { unfold weighted_reduce. apply map_map_ext_Forall with (2 := Hx).
    intros g [_ Hg]. rewrite weighted_cell; try assumption.
    - rewrite valid_weighted_sum_finite by assumption. reflexivity.
    - eapply Forall_impl; [|exact Hg]. apply finite_nan_or_finite. }
  split; [|exact H]. rewrite H. symmetry.
  apply map_map_ext_Forall with (2 := Hx).
  intros g [_ Hg]. apply spec_weighted_mean_finite; assumption.
Qed.

Lemma weighted_reduce_finite_witness :
  weighted_reduce sample_field sample_area
  = map (map (fun g => spec_weighted_mean g sample_area)) sample_field
  /\ weighted_reduce sample_field sample_area
     = map (map (fun g =>
          Fin (weighted_sum g sample_area / weight_sum sample_area)))
           sample_field.
Proof.
  apply weighted_reduce_finite.
  - unfold field_on, sample_field. repeat constructor.
  - unfold sample_area. repeat constructor.
  - float_eval.
Defined.

(** C4 as stated fails on a field with a missing value: the plain sum of
    F*W is NaN, while the reduction skips the NaN product and returns
    (10*1 + 30*3 + 40*4) / (1+2+3+4) = 26. *)
Lemma weighted_reduce_skips_nan :
  field_on (fun _ => true) sample_area sample_field_gap
  /\ Forall (fun v => isfinite v = true /\ (0 <= to_Qc v)%Qc) (flatten sample_area)
  /\ weight_sum sample_area <> 0%Qc
  /\ map (map (fun g => spec_weighted_mean g sample_area)) sample_field_gap
     = [[NaN]]
  /\ weighted_reduce sample_field_gap sample_area = [[fin 26 1]]
  /\ weighted_reduce sample_field_gap sample_area
     <> map (map (fun g => spec_weighted_mean g sample_area)) sample_field_gap.
Proof.
  split; [unfold field_on, sample_field_gap; repeat constructor|].
  split; [unfold sample_area; repeat constructor; discriminate|].
  split; [float_eval|].
  split; [float_eval|].
  split; float_eval.
Qed.

(** C6 (as amended).  For a field with finite values and weights equal to
    one nonzero constant over the grid, the weighted reduction is the
    unweighted mean over (lat, lon). *)
Theorem weighted_reduce_uniform (x : list (list grid)) (w : grid) (c : Qc) :
  c <> 0%Qc ->
  Forall (fun v => v = Fin c) (flatten w) ->
  field_on isfinite w x ->
  weighted_reduce x w = unweighted_mean x.
Proof.
  intros Hc Hw Hx. unfold weighted_reduce, unweighted_mean.
  apply map_map_ext_Forall with (2 := Hx).
  intros g [Hsh Hg]. apply uniform_cell with (c := c); assumption.
Qed.

Lemma weighted_reduce_uniform_witness :
  weighted_reduce sample_field uniform_area = unweighted_mean sample_field.
Proof.
  apply weighted_reduce_uniform with (c := Q2Qc (5 # 2)).
  - float_eval.
  - unfold uniform_area. repeat constructor.
  - unfold field_on, sample_field. repeat constructor.
Defined.

(** C6 as stated fails for the uniform weight zero: the reduction divides
    0 by 0 and returns NaN, while the unweighted mean is 25. *)
Lemma weighted_reduce_uniform_zero :
  Forall (fun v => v = Fin 0) (flatten zero_area)
  /\ field_on isfinite zero_area sample_field
  /\ weighted_reduce sample_field zero_area = [[NaN]]
  /\ unweighted_mean sample_field = [[fin 25 1]]
  /\ weighted_reduce sample_field zero_area <> unweighted_mean sample_field.
Proof.
  split; [unfold zero_area; repeat constructor|].
  split; [unfold field_on, sample_field; repeat constructor|].
  split; [float_eval|].
  split; float_eval.
Qed.

(* ------------------------------------------------------------------ *)
(** ** The slope of one time slice *)

Lemma boolean_index_mask (A : Type) (p : A -> bool) (a : list A) :
  boolean_index a (map p a) = filter p a.
Proof.
  unfold boolean_index. induction a as [|v a IH]; simpl; [reflexivity|].
  destruct (p v); simpl; rewrite IH; reflexivity.
Qed.

Lemma boolean_index_zip (A B : Type) (p : B -> bool) (a : list A) (b : list B) :
  length a = length b ->
  boolean_index a (map p b)
  = map fst (filter (fun q => p (snd q)) (combine a b)).
Proof.
  unfold boolean_index. revert b.
  induction a as [|v a IH]; intros [|w b]; simpl; try congruence.
  intros H. destruct (p w); simpl; rewrite IH by congruence; reflexivity.
Qed.

Lemma count_true_mask (y : list float) :
  count_true (finite_indexes y) = count_valid y.
Proof.
  unfold count_true, finite_indexes, count_valid.
  induction y as [|v y IH]; simpl; [reflexivity|].
  unfold id at 1. destruct (negb (isnan v)); simpl; rewrite IH; reflexivity.
Qed.

Lemma length_arange (n : nat) : length (arange n) = n.
Proof. unfold arange. rewrite length_map, length_seq. reflexivity. Qed.

Lemma fit_inputs_values (y : list float) :
  snd (fit_inputs y) = filter (fun v => negb (isnan v)) y.
Proof. unfold fit_inputs. simpl. apply boolean_index_mask. Qed.

Lemma fit_inputs_indexes (y : list float) :
  fst (fit_inputs y)
  = map fst (filter (fun q => negb (isnan (snd q)))
                    (combine (arange (length y)) y)).
Proof.
  unfold fit_inputs. simpl. unfold finite_indexes.
  apply boolean_index_zip, length_arange.
Qed.

(** C9.  [calc_slope] tests for missing samples with is-NaN only: the
    values handed to the fit are exactly the samples that are not NaN, in
    order and with their indexes, so an infinite sample is kept; the
    sentinel NaN is returned, without calling the fit, exactly when fewer
    than two samples are not NaN, so infinite samples count toward the
    minimum of two. *)
Theorem calc_slope_drops_only_nan
    (polyfit : list Z -> list float -> nat -> result (list float))
    (y : list float) :
  snd (fit_inputs y) = filter (fun v => negb (isnan v)) y
  /\ fst (fit_inputs y)
     = map fst (filter (fun q => negb (isnan (snd q)))
                       (combine (arange (length y)) y))
  /\ (forall v, In v (snd (fit_inputs y)) <-> In v y /\ v <> NaN)
  /\ calc_slope polyfit y
     = if (count_valid y <? 2)%nat then Ok NaN
       else first_coefficient
              (polyfit (fst (fit_inputs y)) (snd (fit_inputs y)) 1).
Proof.
  split; [apply fit_inputs_values|].
  split; [apply fit_inputs_indexes|].
  split.
  - intros v. rewrite fit_inputs_values, filter_In.
    destruct v; simpl; intuition congruence.
  - unfold calc_slope. rewrite count_true_mask. reflexivity.
Qed.

(** Two infinite samples and a NaN: no sample is finite, and the fit is
    still called, on the two infinite samples at indexes 0 and 2. *)
Example calc_slope_infinite_samples
    (polyfit : list Z -> list float -> nat -> result (list float)) :
  calc_slope polyfit [PInf; NaN; NInf]
  = first_coefficient (polyfit [0; 2]%Z [PInf; NInf] 1).
Proof. reflexivity. Qed.

Lemma fit_inputs_lengths (y : list float) :
  length (fst (fit_inputs y)) = length (snd (fit_inputs y)).
Proof.
  rewrite fit_inputs_values, fit_inputs_indexes, length_map.
  assert (H : forall (xs : list Z) (l : list float),
            length xs = length l ->
            length (filter (fun q => negb (isnan (snd q))) (combine xs l))
            = length (filter (fun v => negb (isnan v)) l)).
  { intros xs l. revert xs. induction l as [|v l IH]; intros [|x xs] Hl;
      simpl in *; try reflexivity; try discriminate.
    destruct (isnan v); simpl; rewrite IH by congruence; reflexivity. }
  apply H, length_arange.
Qed.

(** Among the samples that are not NaN, the finite ones are all of them
    or an infinite one is present. *)
Lemma valid_not_finite (y : list float) :
  (count_valid y <= length (filter isfinite y))%nat
  \/ Exists (fun v => isfinite v = false)
            (filter (fun v => negb (isnan v)) y).
Proof.
  unfold count_valid. induction y as [|v y [IH|IH]].
  - left. simpl. lia.
  - destruct v; simpl; try (left; simpl in *; lia);
      right; constructor; reflexivity.
  - right. destruct v; simpl; try exact IH;
      apply Exists_cons_tl; exact IH.
Qed.

Lemma polyfit_exact_nonfinite : nonfinite_fit polyfit_exact.
Proof.
  intros xs ys Hl Hex. exists NaN, [NaN]. split; [|reflexivity].
  unfold polyfit_exact.
  assert (Hf : forallb isfinite ys = false).
  { apply Exists_exists in Hex. destruct Hex as [v [Hin Hv]].
    destruct (forallb isfinite ys) eqn:E; [|reflexivity].
    rewrite forallb_forall in E. rewrite (E _ Hin) in Hv. discriminate. }
  rewrite Hf, Hl, Nat.eqb_refl. reflexivity.
Qed.

(** C3 (as amended).  In every slice the samples that are NaN, and only
    they, are dropped from the fit: the fit is called on the samples that
    are not NaN, with the indexes they have in the slice.  Whenever fewer
    than two samples are not NaN the result is the sentinel NaN and the
    fit is not called, so nothing can be raised.  Whenever fewer than two
    samples are finite the result is a value that is not finite and
    nothing is raised, provided [np.polyfit] itself returns a coefficient
    that is not finite, without raising, on data that hold an infinite
    value. *)
Theorem calc_slope_sentinel
    (polyfit : list Z -> list float -> nat -> result (list float))
    (y : list float) :
  calc_slope polyfit y
  = (if (length (filter not_nan y) <? 2)%nat then Ok NaN
     else first_coefficient
            (polyfit (valid_indexes y) (filter not_nan y) 1%nat))
  /\ ((count_valid y < 2)%nat -> calc_slope polyfit y = Ok NaN)
  /\ (nonfinite_fit polyfit ->
      (length (filter isfinite y) < 2)%nat ->
      exists v, calc_slope polyfit y = Ok v /\ isfinite v = false).
Proof.
  split.
  { unfold calc_slope.
    rewrite count_true_mask, fit_inputs_values, fit_inputs_indexes.
    reflexivity. }
  assert (Hs : (count_valid y < 2)%nat -> calc_slope polyfit y = Ok NaN).
  { intros H. unfold calc_slope. rewrite count_true_mask.
    apply Nat.ltb_lt in H. rewrite H. reflexivity. }
  split; [exact Hs|].
  intros Hp Hfin.
  destruct (Nat.ltb_spec (count_valid y) 2) as [Hlt|Hge].
  { exists NaN. split; [apply Hs; exact Hlt|reflexivity]. }
  destruct (valid_not_finite y) as [Hle|Hex]; [lia|].
  rewrite <- fit_inputs_values in Hex.
  destruct (Hp _ _ (fit_inputs_lengths y) Hex) as [c [cs [Hc Hnf]]].
  exists c. split; [|exact Hnf].
  unfold calc_slope. rewrite count_true_mask.
  apply Nat.ltb_ge in Hge. rewrite Hge, Hc. reflexivity.
Qed.

Lemma calc_slope_sentinel_witness :
  calc_slope polyfit_exact [NaN; fin 7 2; NaN] = Ok NaN
  /\ exists v, calc_slope polyfit_exact [PInf; NaN; NInf] = Ok v
               /\ isfinite v = false.
Proof.
  split.
  - apply (proj1 (proj2 (calc_slope_sentinel polyfit_exact
                           [NaN; fin 7 2; NaN]))).
    vm_compute. lia.
  - apply (proj2 (proj2 (calc_slope_sentinel polyfit_exact
                           [PInf; NaN; NInf]))).
    + exact polyfit_exact_nonfinite.
    + vm_compute. lia.
Defined.

(** C3 as stated fails on infinite samples: an infinite sample is not
    dropped from the fit.  In the slice +infinity, 1, 2 all three samples
    are handed to the fit, with the indexes 0, 1, 2, and the result is
    what the fit returns on them. *)
Lemma calc_slope_keeps_infinity :
  snd (fit_inputs [PInf; fin 1 1; fin 2 1]) = [PInf; fin 1 1; fin 2 1]
  /\ In PInf (snd (fit_inputs [PInf; fin 1 1; fin 2 1]))
  /\ isfinite PInf = false
  /\ forall polyfit,
       calc_slope polyfit [PInf; fin 1 1; fin 2 1]
       = first_coefficient
           (polyfit [0; 1; 2]%Z [PInf; fin 1 1; fin 2 1] 1%nat).
Proof.
  split; [reflexivity|]. split; [left; reflexivity|].
  split; [reflexivity|]. intros polyfit. reflexivity.
Qed.

(* ------------------------------------------------------------------ *)
(** ** Increasing time axes *)

Lemma before_leb (a b : datetime) : before a b -> date_leb a b = true.
Proof.
  unfold before, date_leb. intros H.
  destruct (Z.ltb_spec (year a) (year b)); [reflexivity|].
  destruct (Z.eqb_spec (year a) (year b)); [|lia].
  destruct (Z.ltb_spec (month a) (month b)); [reflexivity|].
  destruct (Z.eqb_spec (month a) (month b)); [|lia].
  simpl. apply Z.leb_le. lia.
Qed.

(** A strictly increasing axis passes the monotonicity test. *)
Lemma increasing_monotonic (time : list datetime) :
  increasing time -> is_monotonic_increasing time = true.
Proof.
  induction 1 as [|a l Hl IH Ha]; [reflexivity|].
  destruct l as [|b l']; [reflexivity|].
  change (date_leb a b && is_monotonic_increasing (b :: l') = true).
  rewrite IH, andb_true_r. apply before_leb.
  inversion Ha; assumption.
Qed.

Lemma increasing_filter (p : datetime -> bool) (time : list datetime) :
  increasing time -> increasing (filter p time).
Proof.
  induction 1 as [|a l Hl IH Ha]; simpl; [constructor|].
  destruct (p a); [|exact IH]. constructor; [exact IH|].
  rewrite Forall_forall in *. intros x Hx. apply filter_In in Hx.
  apply Ha, Hx.
Qed.

Lemma check_time_index_ok (time : list datetime) :
  increasing time -> time <> [] -> check_time_index time = Ok tt.
Proof.
  intros Hinc Hne. unfold check_time_index.
  rewrite (increasing_monotonic Hinc).
  destruct time; [congruence|reflexivity].
Qed.

Lemma strongly_sorted_map_seq (A : Type) (R : A -> A -> Prop)
    (f : nat -> A) (a n : nat) :
  (forall i j, (i < j)%nat -> R (f i) (f j)) ->
  StronglySorted R (map f (seq a n)).
Proof.
  intros HR. revert a. induction n as [|n IH]; intros a; simpl;
    constructor; [apply IH|].
  apply Forall_forall. intros x Hx. apply in_map_iff in Hx.
  destruct Hx as [k [<- Hk]]. apply in_seq in Hk. apply HR. lia.
Qed.

Lemma monthly_axis_increasing (y0 : Z) (n : nat) :
  increasing (monthly_axis y0 n).
Proof.
  unfold increasing, monthly_axis. apply strongly_sorted_map_seq.
  intros i j Hij. unfold before. cbn [year month day].
  set (a := (12 * y0 + Z.of_nat i)%Z). set (b := (12 * y0 + Z.of_nat j)%Z).
  assert (Hab : (a < b)%Z) by (subst a b; lia).
  pose proof (Z.div_mod a 12 ltac:(lia)) as Ha.
  pose proof (Z.div_mod b 12 ltac:(lia)) as Hb.
  pose proof (Z.mod_pos_bound a 12 ltac:(lia)).
  pose proof (Z.mod_pos_bound b 12 ltac:(lia)).
  lia.
Qed.

(* ------------------------------------------------------------------ *)
(** ** The number of winter seasons *)

Lemma fold_min_spec (b : Z) (bs : list Z) :
  In (fold_right Z.min b bs) (b :: bs)
  /\ Forall (fun e => fold_right Z.min b bs <= e)%Z (b :: bs).
Proof.
  induction bs as [|c bs [IHin IHle]]; simpl.
  - split; [auto|]. repeat constructor. lia.
  - set (m := fold_right Z.min b bs) in *. split.
    + destruct (Z.min_spec c m) as [[_ ->]|[_ ->]]; [auto|].
      simpl in IHin. tauto.
    + inversion IHle as [|? ? Hb Hbs]; subst.
      constructor; [lia|]. constructor; [lia|].
      eapply Forall_impl; [|exact Hbs]. simpl. lia.
Qed.

Lemma fold_max_spec (b : Z) (bs : list Z) :
  In (fold_right Z.max b bs) (b :: bs)
  /\ Forall (fun e => e <= fold_right Z.max b bs)%Z (b :: bs).
Proof.
  induction bs as [|c bs [IHin IHle]]; simpl.
  - split; [auto|]. repeat constructor. lia.
  - set (m := fold_right Z.max b bs) in *. split.
    + destruct (Z.max_spec c m) as [[_ ->]|[_ ->]]; [|auto].
      simpl in IHin. tauto.
    + inversion IHle as [|? ? Hb Hbs]; subst.
      constructor; [lia|]. constructor; [lia|].
      eapply Forall_impl; [|exact Hbs]. simpl. lia.
Qed.

(** The first bin of the selected window is one of the five quarters from
    December 1978 to December 1979, and the last one is December 2012. *)
Lemma seasons_bins (ts : list datetime) :
  Forall valid_date ts ->
  (exists s, In s ts /\ year s = 1979%Z) ->
  (exists s, In s ts /\ year s = 2012%Z /\ month s = 12%Z) ->
  exists k, (0 <= k <= 4)%Z /\
    bin_range QS_DEC (filter (in_years 1979 2012) ts)
    = bins_between QS_DEC (23747 + 3 * k) 24155.
Proof.
  intros Hv [s1 [Hs1 Hy1]] [s2 [Hs2 [Hy2 Hm2]]].
  set (sel := filter (in_years 1979 2012) ts).
  assert (Hsel : forall s, In s sel ->
            (23747 <= bin_start QS_DEC s <= 24155
             /\ (bin_start QS_DEC s + 1) mod 3 = 0)%Z).
  { intros s Hs. apply filter_In in Hs. destruct Hs as [Hs Hy].
    rewrite Forall_forall in Hv. specialize (Hv _ Hs).
    unfold in_years in Hy. apply andb_true_iff in Hy.
    destruct Hy as [Ha Hb]. apply Z.leb_le in Ha, Hb.
    unfold valid_date in Hv. unfold bin_start, month_ordinal.
    set (o := (12 * year s + (month s - 1))%Z).
    pose proof (Z.mod_pos_bound (o + 1) 3 ltac:(lia)) as Hr.
    pose proof (Z.div_mod (o + 1) 3 ltac:(lia)) as Hq.
    assert (Hb3 : (o - (o + 1) mod 3 + 1 = ((o + 1) / 3) * 3)%Z) by lia.
    split; [subst o; lia|].
    rewrite Hb3. apply Z.mod_mul. lia. }
  assert (H1 : In s1 sel).
  { apply filter_In. split; [assumption|]. unfold in_years. rewrite Hy1.
    reflexivity. }
  assert (H2 : In s2 sel).
  { apply filter_In. split; [assumption|]. unfold in_years. rewrite Hy2.
    reflexivity. }
  assert (B1 : (bin_start QS_DEC s1 <= 23759)%Z).
  { rewrite Forall_forall in Hv. specialize (Hv _ Hs1). unfold valid_date in Hv.
    unfold bin_start, month_ordinal.
    pose proof (Z.mod_pos_bound (12 * year s1 + (month s1 - 1) + 1) 3 ltac:(lia)).
    lia. }
  assert (B2 : bin_start QS_DEC s2 = 24155%Z).
  { unfold bin_start, month_ordinal. rewrite Hy2, Hm2. reflexivity. }
  unfold bin_range.
  destruct (map (bin_start QS_DEC) sel) as [|b bs] eqn:E.
  { apply (in_map (bin_start QS_DEC)) in H1. rewrite E in H1. destruct H1. }
  destruct (fold_min_spec b bs) as [Lin Lle].
  destruct (fold_max_spec b bs) as [Uin Ule].
  set (lo := fold_right Z.min b bs) in *.
  set (hi := fold_right Z.max b bs) in *.
  rewrite <- E in Lin, Lle, Uin, Ule.
  rewrite Forall_forall in Lle, Ule.
  apply in_map_iff in Lin. destruct Lin as [sl [El Hl]].
  apply in_map_iff in Uin. destruct Uin as [su [Eu Hu]].
  destruct (Hsel _ Hl) as [Rl Ml]. destruct (Hsel _ Hu) as [Ru _].
  pose proof (Lle _ (in_map (bin_start QS_DEC) _ _ H1)) as L1.
  pose proof (Ule _ (in_map (bin_start QS_DEC) _ _ H2)) as U2.
  rewrite El in Rl, Ml. rewrite Eu in Ru.
  assert (Hhi : hi = 24155%Z) by lia.
  exists ((lo - 23747) / 3)%Z.
  assert (Hdiv : (lo - 23747 = 3 * ((lo - 23747) / 3))%Z).
  { apply Z_div_exact_full_2; [lia|].
    replace (lo - 23747)%Z with ((lo + 1) + (-7916) * 3)%Z by lia.
    rewrite Z.mod_add by lia. exact Ml. }
  split; [lia|]. rewrite Hhi. f_equal. lia.
Qed.

(** On an increasing axis with a sample in the window, the two selections
    and the resample of [seasons] raise nothing. *)
Lemma seasons_ok (t : DataArray) :
  increasing (time t) ->
  Forall valid_date (time t) ->
  (exists s, In s (time t) /\ year s = 1979%Z) ->
  (exists s, In s (time t) /\ year s = 2012%Z /\ month s = 12%Z) ->
  seasons t
  = Ok (sel_time (in_years 1979 2012)
          (resampled QS_DEC nanmean (sel_time (in_years 1979 2012) t))).
Proof.
  intros Hinc Hv H1 H2. unfold seasons, sel_years, resample.
  rewrite (increasing_monotonic Hinc). cbn [bind time sel_time].
  rewrite check_time_index_ok.
  - cbn [bind].
    assert (Hm : is_monotonic_increasing
                   (time (resampled QS_DEC nanmean
                            (sel_time (in_years 1979 2012) t))) = true).
    { destruct (seasons_bins Hv H1 H2) as [k [Hk E]].
      cbn [time resampled sel_time]. rewrite E.
      assert (Hc : (k = 0 \/ k = 1 \/ k = 2 \/ k = 3 \/ k = 4)%Z) by lia.
      destruct Hc as [Hk0 | [Hk0 | [Hk0 | [Hk0 | Hk0]]]]; subst k;
        vm_compute; reflexivity. }
    rewrite Hm. reflexivity.
  - apply increasing_filter. exact Hinc.
  - destruct H1 as [s [Hs Hy]]. intros E.
    assert (Hin : In s (filter (in_years 1979 2012) (time t))).
    { apply filter_In. split; [exact Hs|]. unfold in_years. rewrite Hy.
      reflexivity. }
    rewrite E in Hin. destruct Hin.
Qed.

(** C5.  On a field whose time axis is strictly increasing and holds
    valid dates, with a sample in 1979 and a sample in December 2012,
    selecting 1979 to 2012, resampling by December-anchored quarters,
    selecting 1979 to 2012 again and keeping the December labels raises
    nothing and yields exactly 34 periods; the count is the length of the
    time coordinate of [winter_seasons], and the notebook's assertion on
    it passes. *)
Theorem winter_seasons_count (t : DataArray) :
  increasing (time t) ->
  Forall valid_date (time t) ->
  (exists s, In s (time t) /\ year s = 1979%Z) ->
  (exists s, In s (time t) /\ year s = 2012%Z /\ month s = 12%Z) ->
  exists s, seasons t = Ok s
    /\ length (time (winter_seasons s)) = 34%nat
    /\ assert_34_seasons (winter_seasons s) = Ok tt.
Proof.
  intros Hinc Hv H1 H2. eexists. split; [apply seasons_ok; assumption|].
  set (s := sel_time _ _).
  assert (H : length (time (winter_seasons s)) = 34%nat).
  { destruct (seasons_bins Hv H1 H2) as [k [Hk E]].
    unfold s, winter_seasons. cbn [time sel_time resampled].
    rewrite E.
    assert (Hc : (k = 0 \/ k = 1 \/ k = 2 \/ k = 3 \/ k = 4)%Z) by lia.
    destruct Hc as [Hk0 | [Hk0 | [Hk0 | [Hk0 | Hk0]]]]; subst k;
      vm_compute; reflexivity. }
  split; [exact H|]. unfold assert_34_seasons. rewrite H. reflexivity.
Qed.

Lemma winter_seasons_count_witness :
  exists s, seasons (monthly_field 1979 408) = Ok s
    /\ length (time (winter_seasons s)) = 34%nat
    /\ assert_34_seasons (winter_seasons s) = Ok tt.
Proof.
  apply (winter_seasons_count (monthly_field 1979 408)).
  - apply monthly_axis_increasing.
  - apply Forall_forall. intros s Hs. apply in_map_iff in Hs.
    destruct Hs as [k [<- _]]. unfold valid_date. cbn [month].
    pose proof (Z.mod_pos_bound (12 * 1979 + Z.of_nat k) 12 ltac:(lia)). lia.
  - exists (mkdate 1979 1 15). split; [|reflexivity].
    vm_compute. left. reflexivity.
  - exists (mkdate 2012 12 15). split; [|split; reflexivity].
    apply in_map_iff. exists 407%nat. split; [reflexivity|].
    apply in_seq. lia.
Defined.

(** The last of these periods, labelled December 2012, holds the single
    month of December 2012: its value is that month's value, 407. *)
Example last_winter_is_partial :
  exists s, seasons (monthly_field 1979 408) = Ok s
    /\ map (fun xs => last xs []) (values (winter_seasons s))
       = [ [[of_Z 407]] ].
Proof.
  eexists. split.
  - apply seasons_ok.
    + apply monthly_axis_increasing.
    + apply Forall_forall. intros s Hs. apply in_map_iff in Hs.
      destruct Hs as [k [<- _]]. unfold valid_date. cbn [month].
      pose proof (Z.mod_pos_bound (12 * 1979 + Z.of_nat k) 12 ltac:(lia)).
      lia.
    + exists (mkdate 1979 1 15). split; [|reflexivity].
      vm_compute. left. reflexivity.
    + exists (mkdate 2012 12 15). split; [|split; reflexivity].
      apply in_map_iff. exists 407%nat. split; [reflexivity|].
      apply in_seq. lia.
  - apply grids_eqb_eq. vm_compute. reflexivity.
Qed.

(* ------------------------------------------------------------------ *)
(** ** Slabs and groups *)

Lemma tabulate_ext (nlat nlon : nat) (f h : nat -> nat -> float) :
  (forall i j, (i < nlat)%nat -> (j < nlon)%nat -> f i j = h i j) ->
  tabulate nlat nlon f = tabulate nlat nlon h.
Proof.
  intros H. unfold tabulate. apply map_ext_in. intros i Hi.
  apply map_ext_in. intros j Hj. apply in_seq in Hi, Hj. apply H; lia.
Qed.

Lemma combine_map_same (A B C : Type) (f : A -> B) (h : A -> C) (l : list A) :
  combine (map f l) (map h l) = map (fun a => (f a, h a)) l.
Proof. induction l as [|a l IH]; simpl; [reflexivity|]. rewrite IH. reflexivity. Qed.

Lemma grid_zip_tabulate (op : float -> float -> float) (nlat nlon : nat)
    (f h : nat -> nat -> float) :
  grid_zip op (tabulate nlat nlon f) (tabulate nlat nlon h)
  = tabulate nlat nlon (fun i j => op (f i j) (h i j)).
Proof.
  unfold grid_zip, tabulate. rewrite combine_map_same, map_map.
  apply map_ext. intros i. simpl. rewrite combine_map_same, map_map.
  reflexivity.
Qed.

Lemma cell_grid_map (f : float -> float) (nlat nlon : nat) (g : grid) (i j : nat) :
  has_shape nlat nlon g -> (i < nlat)%nat -> (j < nlon)%nat ->
  cell (grid_map f g) i j = f (cell g i j).
Proof.
  intros [Hl Hr] Hi Hj. unfold cell, grid_map.
  rewrite (nth_indep _ [] (map f [])) by (rewrite length_map; lia).
  rewrite (map_nth (map f) g [] i).
  assert (Hrow : length (nth i g []) = nlon).
  { rewrite Forall_forall in Hr. apply Hr, nth_In. lia. }
  rewrite (nth_indep _ NaN (f NaN)) by (rewrite length_map; lia).
  apply map_nth.
Qed.

Lemma group_map (A B : Type) (h : A -> B) (f : freq) (b : Z)
    (time : list datetime) (xs : list A) :
  group f b time (map h xs) = map h (group f b time xs).
Proof.
  unfold group. revert xs.
  induction time as [|t time IH]; intros [|x xs]; simpl; try reflexivity.
  destruct (bin_start f t =? b)%Z; simpl; rewrite IH; reflexivity.
Qed.

(** The members of a bin of a weighted array, as samples. *)
Lemma group_weighted (A : Type) (wf : datetime * Z -> float) (f : freq) (b : Z)
    (time : list datetime) (a : list A) (d : list Z) :
  length d = length time -> length a = length time ->
  group f b time (combine a (map wf (combine time d)))
  = map (fun s => (snd (fst s), wf (fst (fst s), snd s)))
        (filter (fun s => (bin_start f (fst (fst s)) =? b)%Z)
                (combine (combine time a) d)).
Proof.
  unfold group. revert a d.
  induction time as [|t time IH]; intros [|x a] [|z d]; simpl;
    try reflexivity; try discriminate.
  intros Hd Ha. destruct (bin_start f t =? b)%Z; simpl;
    rewrite IH by congruence; reflexivity.
Qed.

Lemma filter_samples (A B : Type) (h : A -> B) (p : datetime -> bool)
    (time : list datetime) (a : list A) (d : list Z) :
  filter (fun s => p (fst (fst s))) (combine (combine time (map h a)) d)
  = map (fun s => (fst (fst s), h (snd (fst s)), snd s))
        (filter (fun s => p (fst (fst s))) (combine (combine time a) d)).
Proof.
  revert a d.
  induction time as [|t time IH]; intros [|x a] [|z d]; simpl;
    try reflexivity.
  destruct (p t); simpl; rewrite IH; reflexivity.
Qed.

Lemma filter_durations (A : Type) (p : datetime -> bool)
    (time : list datetime) (a : list A) (d : list Z) :
  length a = length time ->
  map snd (filter (fun s => p (fst (fst s))) (combine (combine time a) d))
  = map snd (filter (fun q => p (fst q)) (combine time d)).
Proof.
  revert a d.
  induction time as [|t time IH]; intros [|x a] [|z d]; simpl;
    try reflexivity; try discriminate.
  intros Ha. destruct (p t); simpl; rewrite IH by congruence; reflexivity.
Qed.

Lemma combine_map_l (A B C : Type) (k : A -> C) (a : list A) (w : list B) :
  combine (map k a) w = map (fun p => (k (fst p), snd p)) (combine a w).
Proof.
  revert w. induction a as [|x a IH]; intros [|y w]; simpl; try reflexivity.
  rewrite IH. reflexivity.
Qed.

Lemma has_shape_grid_map (f : float -> float) (nlat nlon : nat) (g : grid) :
  has_shape nlat nlon g -> has_shape nlat nlon (grid_map f g).
Proof.
  intros [Hl Hr]. unfold has_shape, grid_map. rewrite length_map.
  split; [exact Hl|]. rewrite Forall_map.
  eapply Forall_impl; [|exact Hr]. simpl. intros r. rewrite length_map. auto.
Qed.

Lemma reduce_group_map (A : Type) (h : A -> grid) (agg : list float -> float)
    (nlat nlon : nat) (S : list A) :
  reduce_group agg nlat nlon (map h S)
  = tabulate nlat nlon (fun i j =>
      match S with
      | [] => NaN
      | _ => agg (map (fun s => cell (h s) i j) S)
      end).
Proof.
  destruct S as [|s S]; simpl; [reflexivity|].
  unfold reduce_time. apply tabulate_ext. intros i j _ _.
  simpl. rewrite map_map. reflexivity.
Qed.

(* ------------------------------------------------------------------ *)
(** ** Duration weights *)

Lemma fmul_Fin (a b : Qc) : (Fin a * Fin b)%float = Fin (a * b).
Proof. reflexivity. Qed.

Lemma isnan_fmul_Fin (v : float) (q : Qc) :
  q <> 0%Qc -> isnan (v * Fin q) = isnan v.
Proof.
  intros Hq. apply Qc_eqb_false in Hq.
  destruct v; simpl; try reflexivity; unfold scale_inf; rewrite Hq;
    destruct (Qc_ltb 0 q); reflexivity.
Qed.

Lemma nansum_weighted_valid (ss : list sample) (w : sample -> float) :
  (forall s, In s ss -> exists q, w s = Fin q /\ q <> 0%Qc) ->
  nansum (map (fun s => value s * w s)%float ss)
  = fsum (map (fun s => value s * w s)%float
              (filter (fun s => not_nan (value s)) ss))
  /\ nansum (map (fun s => (if isnan (value s) then Fin 0 else Fin 1) * w s)%float ss)
     = fsum (map w (filter (fun s => not_nan (value s)) ss)).
Proof.
  unfold nansum, fsum.
  induction ss as [|s ss IH]; intros Hw; [split; reflexivity|].
  destruct IH as [IH1 IH2]; [intros; apply Hw; right; assumption|].
  destruct (Hw s (or_introl eq_refl)) as [q [Eq Hq]].
  cbn [map filter fold_right].
  change (not_nan (value s)) with (negb (isnan (value s))).
  rewrite IH1, IH2. unfold fillna0. rewrite Eq, (isnan_fmul_Fin _ Hq).
  destruct (isnan (value s)) eqn:En; cbn [negb map fold_right];
    rewrite fmul_Fin; cbn [isnan].
  - rewrite fadd_0_l. replace (0 * q)%Qc with 0%Qc by ring.
    rewrite fadd_0_l. split; reflexivity.
  - rewrite Eq. replace (1 * q)%Qc with q by ring. split; reflexivity.
Qed.

Lemma total_duration_pos (ss : list sample) (s : sample) :
  (forall s', In s' ss -> 0 < duration s')%Z -> In s ss ->
  (0 < total_duration ss)%Z.
Proof.
  unfold total_duration. intros Hpos Hin.
  assert (H0 : (0 <= fold_right Z.add 0 (map duration ss))%Z
               /\ (ss <> [] -> 0 < fold_right Z.add 0 (map duration ss))%Z).
  { clear Hin. induction ss as [|a ss IH]; simpl.
    - split; [lia|congruence].
    - destruct IH as [IH _]; [intros; apply Hpos; right; assumption|].
      pose proof (Hpos a (or_introl eq_refl)). split; [lia|intros _; lia]. }
  apply H0. intros E. subst ss. destruct Hin.
Qed.

Lemma qint_neq0 (z : Z) : z <> 0%Z -> qint z <> 0%Qc.
Proof. intros Hz E. apply qint_eq0 in E. contradiction. Qed.

Lemma of_Z_div (a b : Z) :
  b <> 0%Z -> (of_Z a / of_Z b)%float = Fin (qint a / qint b).
Proof.
  intros Hb. unfold of_Z. simpl. fold (qint a). fold (qint b).
  pose proof (qint_neq0 Hb) as Hq. apply Qc_eqb_false in Hq.
  rewrite Hq. reflexivity.
Qed.

Lemma spec_weight_finite (ss : list sample) (s : sample) :
  (forall s', In s' ss -> 0 < duration s')%Z -> In s ss ->
  exists q, spec_weight ss s = Fin q /\ q <> 0%Qc.
Proof.
  intros Hpos Hin.
  pose proof (@total_duration_pos ss s Hpos Hin) as HD.
  pose proof (Hpos _ Hin) as Hd.
  exists (qint (duration s) / qint (total_duration ss))%Qc. split.
  - unfold spec_weight. apply of_Z_div. lia.
  - intros E.
    assert (Hq : qint (duration s) = 0%Qc).
    { rewrite <- (@Qcmult_div_r (qint (duration s)) (qint (total_duration ss)))
        by (apply qint_neq0; lia).
      rewrite E. ring. }
    apply qint_eq0 in Hq. lia.
Qed.

(** On the samples of one year the code's numerator and denominator are
    the sums of the specification, restricted to the samples that are not
    NaN. *)
Lemma annual_sums (ss : list sample) :
  (forall s, In s ss -> 0 < duration s)%Z ->
  (nansum (map (fun s => value s * spec_weight ss s)%float ss)
   / nansum (map (fun s => (if isnan (value s) then Fin 0 else Fin 1)
                           * spec_weight ss s)%float ss))%float
  = spec_annual not_nan ss.
Proof.
  intros Hpos.
  destruct (@nansum_weighted_valid ss (spec_weight ss)) as [H1 H2].
  { intros s Hs. apply spec_weight_finite; assumption. }
  rewrite H1, H2. reflexivity.
Qed.

Lemma bin_range_AS_div (time : list datetime) (b : Z) :
  In b (bin_range AS time) -> (b = 12 * (b / 12))%Z.
Proof.
  unfold bin_range. destruct (map (bin_start AS) time) as [|c cs] eqn:E;
    [intros []|].
  destruct (fold_min_spec c cs) as [Hin _]. rewrite <- E in Hin.
  apply in_map_iff in Hin. destruct Hin as [t [Ht _]].
  unfold bins_between. intros Hb. apply in_map_iff in Hb.
  destruct Hb as [k [Hk _]]. rewrite <- Ht in Hk.
  unfold bin_start, period in Hk.
  replace b with ((year t + Z.of_nat k) * 12)%Z by lia.
  rewrite Z.div_mul by lia. lia.
Qed.

Lemma sample_parts (A : Type) (time : list datetime) (a : list A) (d : list Z)
    (p : datetime * A * Z -> bool) (s : datetime * A * Z) :
  In s (filter p (combine (combine time a) d)) ->
  In (snd (fst s)) a /\ In (snd s) d /\ p s = true.
Proof.
  intros H. apply filter_In in H. destruct H as [H Hp].
  destruct s as [[t x] z]. simpl.
  pose proof (in_combine_l _ _ _ _ H) as H1.
  pose proof (in_combine_r _ _ _ _ H) as H2.
  pose proof (in_combine_r _ _ _ _ H1) as H3. auto.
Qed.

(** [obs_sum / ones_out] in closed form: at every year and every
    (lat, lon) point, the annual value of the samples of that year. *)
Lemma annual_ratio_cells (ds : Dataset) :
  wf_dataset ds -> positive_durations ds ->
  div_time
    (resample_bins AS nansum (ds_nlat ds) (ds_nlon ds) (ds_time ds)
       (mul_time (air ds) (wgts ds)))
    (resample_bins AS nansum (ds_nlat ds) (ds_nlon ds) (ds_time ds)
       (mul_time (ones_of (air ds)) (wgts ds)))
  = map (fun b => tabulate (ds_nlat ds) (ds_nlon ds) (fun i j =>
           spec_annual not_nan (year_samples ds i j (year (bin_label b)))))
        (bin_range AS (ds_time ds)).
Proof.
  intros [Hlb [Hla Hsh]] Hpos.
  unfold div_time, resample_bins.
  rewrite combine_map_same, map_map. apply map_ext_in. intros b Hb.
  cbn [fst snd]. apply bin_range_AS_div in Hb.
  set (y := (b / 12)%Z) in *. change (year (bin_label b)) with y.
  set (T := ds_time ds) in *. set (a := air ds) in *.
  set (d := time_bound_diff ds).
  assert (Hld : length d = length T).
  { unfold d, time_bound_diff. rewrite length_map. exact Hlb. }
  assert (Hd : forall z, In z d -> (0 < z)%Z).
  { intros z Hz. unfold d, time_bound_diff in Hz. apply in_map_iff in Hz.
    destruct Hz as [bd [<- Hbd]]. unfold positive_durations in Hpos.
    rewrite Forall_forall in Hpos. specialize (Hpos _ Hbd). lia. }
  unfold mul_time, ones_of, wgts. fold T. fold d.
  rewrite combine_map_l, map_map, !group_map.
  rewrite group_weighted by assumption.
  rewrite !map_map, !reduce_group_map, grid_zip_tabulate.
  apply tabulate_ext. intros i j Hi Hj.
  unfold year_samples, cell_samples. fold T. fold a. fold d.
  rewrite (filter_samples (fun g => cell g i j) (fun t => (year t =? y)%Z)).
  assert (ES : filter (fun s : datetime * grid * Z =>
                         (bin_start AS (fst (fst s)) =? b)%Z)
                      (combine (combine T a) d)
               = filter (fun s : datetime * grid * Z =>
                         (year (fst (fst s)) =? y)%Z)
                      (combine (combine T a) d)).
  { apply filter_ext. intros s. unfold bin_start.
    destruct (Z.eqb_spec (12 * year (fst (fst s))) b);
      destruct (Z.eqb_spec (year (fst (fst s))) y); try reflexivity; lia. }
  rewrite ES.
  remember (filter (fun s : datetime * grid * Z =>
                      (year (fst (fst s)) =? y)%Z) (combine (combine T a) d))
    as S eqn:ES0.
  set (ss := map (fun s : datetime * grid * Z =>
                    (fst (fst s), cell (snd (fst s)) i j, snd s)) S).
  assert (Hparts : forall s, In s S ->
            has_shape (ds_nlat ds) (ds_nlon ds) (snd (fst s))
            /\ (0 < snd s)%Z /\ year (fst (fst s)) = y).
  { intros s Hs. rewrite ES0 in Hs. apply sample_parts in Hs.
    destruct Hs as [Ha [Hz Hy]].
    rewrite Forall_forall in Hsh. apply Z.eqb_eq in Hy. auto. }
  assert (HD : year_sum T d y = total_duration ss).
  { unfold year_sum, total_duration, ss. rewrite ES0, map_map. simpl.
    rewrite <- (filter_durations (fun t => (year t =? y)%Z) T a d Hla).
    reflexivity. }
  assert (Hss : forall s', In s' ss -> (0 < duration s')%Z).
  { intros s' Hs'. unfold ss in Hs'. apply in_map_iff in Hs'.
    destruct Hs' as [s [<- Hs]]. apply Hparts in Hs. simpl. tauto. }
  assert (Hgoal :
    (nansum (map (fun s : datetime * grid * Z =>
        cell (grid_map (fun v => v * (of_Z (snd s)
                / of_Z (year_sum T d (year (fst (fst s))))))%float
                (snd (fst s))) i j) S)
     / nansum (map (fun s : datetime * grid * Z =>
        cell (grid_map (fun v => v * (of_Z (snd s)
                / of_Z (year_sum T d (year (fst (fst s))))))%float
                (grid_map (fun v => if isnan v then Fin 0 else Fin 1)
                          (snd (fst s)))) i j) S))%float
    = spec_annual not_nan ss).
  { rewrite <- (@annual_sums ss Hss). unfold ss at 2 4. rewrite !map_map.
    f_equal; f_equal; apply map_ext_in; intros s Hs;
      destruct (Hparts _ Hs) as [Hg [_ Hy]]; cbn [fst snd];
      unfold value, duration, spec_weight; cbn [fst snd];
      rewrite Hy, HD.
    - rewrite (cell_grid_map _ Hg Hi Hj). reflexivity.
    - rewrite (cell_grid_map _ (has_shape_grid_map _ Hg) Hi Hj).
      rewrite (cell_grid_map _ Hg Hi Hj). reflexivity. }
  clear ES0 Hparts HD Hss. destruct S as [|s0 S0]; [reflexivity|].
  exact Hgoal.
Qed.

Lemma fold_min_scale (y : Z) (ys : list Z) :
  fold_right Z.min (12 * y)%Z (map (Z.mul 12) ys)
  = (12 * fold_right Z.min y ys)%Z.
Proof.
  induction ys as [|z ys IH]; cbn [map fold_right]; [reflexivity|].
  rewrite IH. lia.
Qed.

Lemma fold_max_scale (y : Z) (ys : list Z) :
  fold_right Z.max (12 * y)%Z (map (Z.mul 12) ys)
  = (12 * fold_right Z.max y ys)%Z.
Proof.
  induction ys as [|z ys IH]; cbn [map fold_right]; [reflexivity|].
  rewrite IH. lia.
Qed.

Lemma fold_min_le_max (y : Z) (ys : list Z) :
  (fold_right Z.min y ys <= fold_right Z.max y ys)%Z.
Proof. induction ys as [|z ys IH]; simpl; lia. Qed.

(** The bins of an annual resample are the years from the first to the
    last year of the time axis. *)
Lemma bin_range_AS_years (time : list datetime) :
  bin_range AS time
  = match time with
    | [] => []
    | _ => map (Z.mul 12) (years_between (first_year time) (last_year time))
    end.
Proof.
  unfold bin_range, first_year, last_year.
  replace (map (bin_start AS) time) with (map (Z.mul 12) (map year time))
    by (rewrite map_map; reflexivity).
  destruct time as [|t time]; [reflexivity|]. cbn [map].
  rewrite fold_min_scale, fold_max_scale.
  pose proof (fold_min_le_max (year t) (map year time)) as Hle.
  set (a := fold_right Z.min (year t) (map year time)) in *.
  set (b := fold_right Z.max (year t) (map year time)) in *.
  unfold bins_between, years_between, zrange, period. rewrite map_map.
  replace ((12 * b - 12 * a) / 12)%Z with (b - a)%Z
    by (replace (12 * b - 12 * a)%Z with ((b - a) * 12)%Z by lia;
        rewrite Z.div_mul; lia).
  replace (Z.to_nat (b - a) + 1)%nat with (Z.to_nat (b - a + 1)) by lia.
  apply map_ext. intros k. lia.
Qed.

Lemma bin_label_new_year (y : Z) : bin_label (12 * y) = new_year y.
Proof.
  unfold bin_label, new_year. f_equal.
  - rewrite Z.mul_comm. apply Z.div_mul. lia.
  - rewrite Z.mul_comm, Z.mod_mul by lia. reflexivity.
Qed.

Lemma combine_by_index (A B : Type) (da : A) (db : B) (a : list A) (b : list B) :
  length b = length a ->
  combine a b = map (fun i => (nth i a da, nth i b db)) (seq 0 (length a)).
Proof.
  revert b. induction a as [|x a IH]; intros [|y b] Hl; try discriminate;
    [reflexivity|].
  cbn [length seq map combine nth]. f_equal.
  rewrite <- seq_shift, map_map. apply IH. simpl in Hl. congruence.
Qed.

Lemma cell_in_flatten (nlat nlon : nat) (g : grid) (i j : nat) :
  has_shape nlat nlon g -> (i < nlat)%nat -> (j < nlon)%nat ->
  In (cell g i j) (flatten g).
Proof.
  intros [Hl Hr] Hi Hj. unfold cell, flatten. apply in_concat.
  exists (nth i g []). rewrite Forall_forall in Hr.
  assert (Hin : In (nth i g []) g) by (apply nth_In; lia).
  split; [exact Hin|]. apply nth_In. rewrite (Hr _ Hin). exact Hj.
Qed.

Lemma nth_map_in (A B : Type) (f : A -> B) (l : list A) (d : A) (d' : B)
    (k : nat) :
  (k < length l)%nat -> nth k (map f l) d' = f (nth k l d).
Proof.
  intros Hk. rewrite (nth_indep _ d' (f d)) by (rewrite length_map; exact Hk).
  apply map_nth.
Qed.

(** The samples the computation pairs are the samples read off the
    dataset step by step. *)
Lemma cell_samples_spec (ds : Dataset) (i j : nat) :
  wf_dataset ds -> cell_samples ds i j = point_samples ds i j.
Proof.
  intros [Hlb [Hla _]]. unfold cell_samples, point_samples, time_bound_diff.
  set (T := ds_time ds) in *.
  set (C := map (fun g => cell g i j) (air ds)).
  assert (HC : length C = length T) by (unfold C; rewrite length_map; auto).
  assert (HTC : length (combine T C) = length T).
  { rewrite length_combine, HC. lia. }
  rewrite (combine_by_index (mkdate 0 1 1, NaN) 0%Z)
    by (rewrite length_map, HTC; exact Hlb).
  rewrite HTC. apply map_ext_in. intros k Hk. apply in_seq in Hk.
  unfold sample_at. fold T.
  rewrite combine_nth by (symmetry; exact HC).
  unfold C.
  rewrite (@nth_map_in _ _ (fun g => cell g i j) (air ds) [] NaN k) by lia.
  rewrite (@nth_map_in _ _ (fun b : Z * Z => (snd b - fst b)%Z)
             (time_bnds ds) (0, 0)%Z 0%Z k) by lia.
  reflexivity.
Qed.

Lemma year_samples_spec (ds : Dataset) (i j : nat) (y : Z) :
  wf_dataset ds -> year_samples ds i j y = samples_of_year ds i j y.
Proof.
  intros Hwf. unfold year_samples, samples_of_year.
  rewrite (cell_samples_spec i j Hwf). reflexivity.
Qed.

Lemma bin_range_AS_calendar (time : list datetime) :
  time <> [] -> bin_range AS time = map (Z.mul 12) (calendar_years time).
Proof.
  intros Hne. rewrite bin_range_AS_years.
  destruct time; [congruence|reflexivity].
Qed.

Lemma nansum_filter (l : list float) :
  nansum l = fsum (filter (fun v => negb (isnan v)) l).
Proof.
  unfold nansum. induction l as [|v l IH]; [reflexivity|].
  cbn [map fsum fold_right filter]. fold (fsum (map fillna0 l)).
  rewrite IH. destruct v; cbn [isnan negb fillna0]; try reflexivity.
  apply fadd_0_l.
Qed.

Lemma nanmean_valid_mean (l : list float) : nanmean l = valid_mean l.
Proof.
  unfold nanmean, valid_mean, count_valid. rewrite nansum_filter.
  reflexivity.
Qed.

Lemma year_samples_durations (ds : Dataset) (i j : nat) (y : Z) :
  positive_durations ds ->
  forall s, In s (year_samples ds i j y) -> (0 < duration s)%Z.
Proof.
  intros Hpos s Hs. unfold year_samples, cell_samples in Hs.
  apply filter_In in Hs. destruct Hs as [Hs _].
  destruct s as [[t' v] z]. apply in_combine_r in Hs.
  unfold time_bound_diff in Hs. apply in_map_iff in Hs.
  destruct Hs as [bd [<- Hbd]]. unfold positive_durations in Hpos.
  rewrite Forall_forall in Hpos. specialize (Hpos _ Hbd).
  unfold duration. simpl. lia.
Qed.

Lemma year_samples_values (P : float -> Prop) (ds : Dataset) (i j : nat)
    (y : Z) :
  wf_dataset ds -> (i < ds_nlat ds)%nat -> (j < ds_nlon ds)%nat ->
  Forall (fun g => Forall P (flatten g)) (air ds) ->
  Forall (fun s => P (value s)) (year_samples ds i j y).
Proof.
  intros [_ [_ Hsh]] Hi Hj HP. apply Forall_forall. intros s Hs.
  unfold year_samples, cell_samples in Hs.
  apply filter_In in Hs. destruct Hs as [Hs _].
  destruct s as [[t' v] z]. apply in_combine_l in Hs.
  apply in_combine_r in Hs. apply in_map_iff in Hs.
  destruct Hs as [g [<- Hg]]. unfold value. simpl.
  rewrite Forall_forall in HP, Hsh.
  pose proof (cell_in_flatten (Hsh _ Hg) Hi Hj) as Hc.
  pose proof (HP _ Hg) as Hf. rewrite Forall_forall in Hf. auto.
Qed.

(** The annual values and the returned series in closed form, on a
    well-formed dataset whose time axis is increasing and not empty: one
    entry per calendar year from the first to the last, whatever the
    form [F] in which the annual value of a point is written. *)
Lemma weighted_temporal_mean_spec (ds : Dataset) (F : list sample -> float) :
  wf_dataset ds -> positive_durations ds ->
  increasing (ds_time ds) -> ds_time ds <> [] ->
  (forall i j y, (i < ds_nlat ds)%nat -> (j < ds_nlon ds)%nat ->
     In y (calendar_years (ds_time ds)) ->
     spec_annual not_nan (samples_of_year ds i j y)
     = F (samples_of_year ds i j y)) ->
  annual_ratio ds
  = Ok (map (fun y => grid_of (ds_nlat ds) (ds_nlon ds) (fun i j =>
               F (samples_of_year ds i j y)))
            (calendar_years (ds_time ds)))
  /\ weighted_temporal_mean ds
     = Ok (map (fun y =>
             (new_year y,
              valid_mean (concat (grid_of (ds_nlat ds) (ds_nlon ds)
                (fun i j => F (samples_of_year ds i j y))))))
             (calendar_years (ds_time ds))).
Proof.
  intros Hwf Hpos Hinc Hne HF.
  assert (H : annual_ratio ds
    = Ok (map (fun y => grid_of (ds_nlat ds) (ds_nlon ds) (fun i j =>
                 F (samples_of_year ds i j y)))
              (calendar_years (ds_time ds)))).
  { unfold annual_ratio, obs_sum, ones_out, resample_values.
    rewrite (check_time_index_ok Hinc Hne). cbn [bind].
    rewrite (annual_ratio_cells Hwf Hpos). f_equal.
    rewrite (bin_range_AS_calendar Hne), map_map.
    apply map_ext_in. intros y Hy. rewrite bin_label_new_year.
    cbn [year new_year]. apply tabulate_ext. intros i j Hi Hj.
    rewrite (year_samples_spec i j y Hwf). apply HF; assumption. }
  split; [exact H|]. unfold weighted_temporal_mean. rewrite H. cbn [bind].
  f_equal. rewrite (bin_range_AS_calendar Hne), !map_map, combine_map_same.
  apply map_ext. intros y. rewrite bin_label_new_year, nanmean_valid_mean.
  reflexivity.
Qed.



Lemma sample_obs_increasing :
  increasing [mkdate 2000 1 16; mkdate 2000 2 15; mkdate 2001 1 16].
Proof.
  unfold increasing, before. repeat constructor; simpl; lia.
Qed.



(* ------------------------------------------------------------------ *)
(** ** Without missing values *)

Lemma qint_add (a b : Z) : qint (a + b) = (qint a + qint b)%Qc.
Proof.
  unfold qint. apply Qc_is_canon. unfold Qcplus, Q2Qc. cbn [this].
  rewrite !Qred_correct, inject_Z_plus. reflexivity.
Qed.

Lemma qsum_fractions (D : Qc) (ss : list sample) :
  qsum (map (fun s => qint (duration s) / D)%Qc ss)
  = (qint (total_duration ss) / D)%Qc.
Proof.
  unfold total_duration, Qcdiv. induction ss as [|s ss IH].
  - simpl. change (qint 0) with 0%Qc. ring.
  - cbn [map qsum fold_right]. rewrite qint_add.
    fold (qsum (map (fun s => qint (duration s) * / D)%Qc ss)).
    rewrite IH. ring.
Qed.

Lemma fdiv_1 (v : float) : (v / Fin 1)%float = v.
Proof.
  destruct v; try reflexivity.
  simpl. replace (Qc_eqb 1 0) with false by reflexivity.
  f_equal. field. discriminate.
Qed.

Lemma fsum_spec_weights (ss vs : list sample) :
  total_duration ss <> 0%Z ->
  fsum (map (spec_weight ss) vs)
  = Fin (qint (total_duration vs) / qint (total_duration ss)).
Proof.
  intros HD. rewrite <- qsum_fractions, <- fsum_Fin, map_map.
  f_equal. apply map_ext. intros s. unfold spec_weight.
  apply of_Z_div. exact HD.
Qed.

Lemma spec_annual_no_missing (ss : list sample) :
  (forall s, In s ss -> 0 < duration s)%Z ->
  Forall (fun s => isfinite (value s) = true) ss ->
  ss <> [] ->
  spec_annual not_nan ss = plain_duration_mean ss.
Proof.
  intros Hpos Hfin Hne. unfold spec_annual, plain_duration_mean.
  rewrite filter_all_true.
  2:{ eapply Forall_impl; [|exact Hfin]. simpl. intros s Hs.
      unfold not_nan. rewrite (finite_not_nan _ Hs). reflexivity. }
  assert (HD : (0 < total_duration ss)%Z).
  { destruct ss as [|s ss']; [congruence|].
    apply (@total_duration_pos (s :: ss') s Hpos). left. reflexivity. }
  rewrite fsum_spec_weights by lia.
  replace (qint (total_duration ss) / qint (total_duration ss))%Qc with 1%Qc.
  - apply fdiv_1.
  - field. apply qint_neq0. lia.
Qed.

Lemma in_combine_exists (A B : Type) (a : list A) (b : list B) (x : A) :
  length b = length a -> In x a -> exists y, In (x, y) (combine a b).
Proof.
  revert b. induction a as [|x0 a IH]; intros [|y0 b]; simpl;
    try discriminate; try tauto.
  intros Hl [->|Hin].
  - exists y0. auto.
  - destruct (IH b ltac:(congruence) Hin) as [y Hy]. exists y. auto.
Qed.

Lemma year_samples_nonempty (ds : Dataset) (i j : nat) (y : Z) (t : datetime) :
  wf_dataset ds -> In t (ds_time ds) -> year t = y ->
  year_samples ds i j y <> [].
Proof.
  intros [Hlb [Hla _]] Ht Hy.
  destruct (@in_combine_exists _ _ (ds_time ds)
              (map (fun g => cell g i j) (air ds)) t) as [v Hv];
    [rewrite length_map; exact Hla|exact Ht|].
  assert (Hl2 : length (time_bound_diff ds)
                = length (combine (ds_time ds)
                            (map (fun g => cell g i j) (air ds)))).
  { unfold time_bound_diff.
    rewrite length_combine, !length_map, Hla, Hlb. lia. }
  destruct (@in_combine_exists _ _ _ _ (t, v) Hl2 Hv) as [z Hz].
  intros E.
  assert (Hin : In (t, v, z) (year_samples ds i j y)).
  { unfold year_samples, cell_samples. apply filter_In. split; [exact Hz|].
    unfold stamp. simpl. apply Z.eqb_eq. exact Hy. }
  rewrite E in Hin. destruct Hin.
Qed.

(** C7.  For a well-formed dataset with positive interval durations, a
    strictly increasing time axis, no missing or infinite value, and no
    year without samples, the duration-weighted annual resample is, at
    every (lat, lon) point and for every calendar year from the first to
    the last, the plain mean weighted by each sample's fraction of the
    total duration of its year, sum of value_i * duration_i / D;
    zero-filling the numerator and restricting the denominator change
    nothing. *)
Theorem weighted_temporal_mean_no_missing (ds : Dataset) :
  wf_dataset ds -> positive_durations ds -> all_finite ds ->
  increasing (ds_time ds) -> covered_years ds ->
  annual_ratio ds
  = Ok (map (fun y => grid_of (ds_nlat ds) (ds_nlon ds) (fun i j =>
               plain_duration_mean (samples_of_year ds i j y)))
            (calendar_years (ds_time ds)))
  /\ weighted_temporal_mean ds
     = Ok (map (fun y =>
             (new_year y,
              valid_mean (concat (grid_of (ds_nlat ds) (ds_nlon ds)
                (fun i j => plain_duration_mean (samples_of_year ds i j y))))))
             (calendar_years (ds_time ds))).
Proof.
  intros Hwf Hpos Hfin Hinc Hcov.
  unfold covered_years in Hcov. rewrite Forall_forall in Hcov.
  assert (Hne : ds_time ds <> []).
  { intros E. destruct (Hcov 0%Z) as [t [Ht _]].
    - rewrite E. left. reflexivity.
    - rewrite E in Ht. destruct Ht. }
  apply (weighted_temporal_mean_spec plain_duration_mean Hwf Hpos Hinc Hne).
  intros i j y Hi Hj Hy. rewrite <- (year_samples_spec i j y Hwf).
  apply spec_annual_no_missing.
  - apply year_samples_durations. exact Hpos.
  - apply (@year_samples_values (fun v => isfinite v = true)); assumption.
  - destruct (Hcov _ Hy) as [t [Ht Hyt]].
    apply (@year_samples_nonempty ds i j y t Hwf Ht Hyt).
Qed.

Lemma weighted_temporal_mean_no_missing_witness :
  annual_ratio sample_obs_finite
  = Ok (map (fun y => grid_of 1 2 (fun i j =>
               plain_duration_mean (samples_of_year sample_obs_finite i j y)))
            (calendar_years (ds_time sample_obs_finite)))
  /\ weighted_temporal_mean sample_obs_finite
     = Ok (map (fun y =>
             (new_year y,
              valid_mean (concat (grid_of 1 2 (fun i j =>
                plain_duration_mean
                  (samples_of_year sample_obs_finite i j y))))))
             (calendar_years (ds_time sample_obs_finite))).
Proof.
  apply (@weighted_temporal_mean_no_missing sample_obs_finite).
  - unfold wf_dataset, has_shape. simpl. repeat split; repeat constructor.
  - unfold positive_durations. simpl. repeat constructor.
  - unfold all_finite. simpl. repeat constructor.
  - exact sample_obs_increasing.
  - unfold covered_years. simpl. constructor; [|constructor; [|constructor]].
    + exists (mkdate 2000 1 16). split; [left; reflexivity|reflexivity].
    + exists (mkdate 2001 1 16). split; [right; right; left; reflexivity|reflexivity].
Defined.

(** The annual values of the sample: at the first point of year 2000,
    1 * 31/60 + 4 * 29/60 = 49/20. *)
Example annual_ratio_sample :
  annual_ratio sample_obs_finite
  = Ok [ [[fin 49 20; fin 149 60]]; [[fin 5 1; fin 6 1]] ].
Proof.
  apply (ok_by (list_eqb (list_eqb (list_eqb eqb))) _ _ grids_eqb_eq).
  vm_compute. reflexivity.
Qed.

(* ------------------------------------------------------------------ *)
(** ** Least squares *)

Lemma qint_mul (a b : Z) : qint (a * b) = (qint a * qint b)%Qc.
Proof.
  unfold qint. apply Qc_is_canon. unfold Qcmult, Q2Qc. cbn [this].
  rewrite !Qred_correct. unfold Qeq. simpl. lia.
Qed.

Lemma qint_pos (z : Z) : (0 < z)%Z -> (0 < qint z)%Qc.
Proof.
  intros Hz. unfold qint, Qclt, Q2Qc. cbn [this].
  rewrite !Qred_correct. unfold Qlt. simpl. lia.
Qed.

Lemma Sx_sumZ (xs : list Z) : Sx xs = qint (sumZ xs).
Proof.
  unfold Sx, sumZ. induction xs as [|x xs IH]; simpl; [reflexivity|].
  fold (qsum (map qint xs)). rewrite IH, qint_add. reflexivity.
Qed.

Lemma Sxx_sumZ (xs : list Z) : Sxx xs = qint (sumZ (map (fun x => x * x)%Z xs)).
Proof.
  unfold Sxx, sumZ, qsq. induction xs as [|x xs IH]; simpl; [reflexivity|].
  fold (qsum (map (fun x => qint x * qint x)%Qc xs)).
  rewrite IH, qint_add, qint_mul. reflexivity.
Qed.

Lemma arange_succ (n : nat) : arange (S n) = arange n ++ [Z.of_nat n].
Proof. unfold arange. rewrite seq_S, map_app. reflexivity. Qed.

Lemma sumZ_app (l1 l2 : list Z) : sumZ (l1 ++ l2) = (sumZ l1 + sumZ l2)%Z.
Proof.
  unfold sumZ. induction l1 as [|a l1 IH]; simpl; [reflexivity|].
  rewrite IH. lia.
Qed.

Lemma sum_arange (n : nat) :
  (2 * sumZ (arange n) = Z.of_nat n * (Z.of_nat n - 1))%Z.
Proof.
  induction n as [|n IH]; [reflexivity|].
  rewrite arange_succ, sumZ_app, Nat2Z.inj_succ. unfold Z.succ.
  cbn [sumZ fold_right]. lia.
Qed.

Lemma sum_squares_arange (n : nat) :
  (6 * sumZ (map (fun x => x * x) (arange n))
   = (Z.of_nat n - 1) * Z.of_nat n * (2 * Z.of_nat n - 1))%Z.
Proof.
  induction n as [|n IH]; [reflexivity|].
  rewrite arange_succ, map_app, sumZ_app, Nat2Z.inj_succ. unfold Z.succ.
  cbn [map sumZ fold_right]. lia.
Qed.

(** The normal matrix of the indexes 0..T-1 is regular when T >= 2:
    12 * det = T^2 * (T^2 - 1). *)
Lemma ols_det_arange (n : nat) : (2 <= n)%nat -> (0 < ols_det (arange n))%Qc.
Proof.
  intros Hn. unfold ols_det, ols_count.
  rewrite Sx_sumZ, Sxx_sumZ, length_arange.
  pose proof (sum_arange n) as H1. pose proof (sum_squares_arange n) as H2.
  set (s1 := sumZ (arange n)) in *.
  set (s2 := sumZ (map (fun x => (x * x)%Z) (arange n))) in *.
  set (t := Z.of_nat n) in *.
  assert (Ht : (2 <= t)%Z) by (subst t; lia).
  replace (qint t * qint s2 - qint s1 * qint s1)%Qc
    with (qint (t * s2 - s1 * s1)).
  2:{ replace (t * s2 - s1 * s1)%Z with (t * s2 + (-1) * (s1 * s1))%Z by lia.
      rewrite qint_add, !qint_mul. change (qint (-1)) with (- (1))%Qc. ring. }
  apply qint_pos.
  assert (H : (12 * (t * s2 - s1 * s1) = t * t * (t - 1) * (t + 1))%Z).
  { replace (12 * (t * s2 - s1 * s1))%Z
      with (2 * t * (6 * s2) - 3 * ((2 * s1) * (2 * s1)))%Z by ring.
    rewrite H1, H2. ring. }
  assert (Hp : (0 < t * t * (t - 1) * (t + 1))%Z).
  { repeat apply Z.mul_pos_pos; lia. }
  lia.
Qed.

Lemma ols_count_cons (x : Z) (xs : list Z) :
  ols_count (x :: xs) = (ols_count xs + 1)%Qc.
Proof. unfold ols_count. cbn [length]. apply qint_succ. Qed.

Lemma combine_map_r_same (A B : Type) (f : A -> B) (l : list A) :
  combine l (map f l) = map (fun a => (a, f a)) l.
Proof. induction l as [|a l IH]; simpl; [reflexivity|]. rewrite IH. reflexivity. Qed.

Lemma moments_linear (a b : Qc) (xs : list Z) :
  Sxy xs (map (fun x => a * qint x + b)%Qc xs) = (a * Sxx xs + b * Sx xs)%Qc
  /\ qsum (map (fun x => a * qint x + b)%Qc xs)
     = (a * Sx xs + b * ols_count xs)%Qc.
Proof.
  unfold Sxy. rewrite combine_map_r_same, map_map. cbn [fst snd].
  induction xs as [|x xs [IH1 IH2]].
  - cbn. change (ols_count []) with 0%Qc. split; ring.
  - rewrite ols_count_cons. unfold Sxx, Sx in *. cbn [map qsum fold_right].
    fold (qsum (map (fun x => qint x * (a * qint x + b))%Qc xs)).
    fold (qsum (map (fun x => a * qint x + b)%Qc xs)).
    fold (qsum (map (fun x => qsq (qint x)) xs)).
    fold (qsum (map qint xs)).
    rewrite IH1, IH2. unfold qsq. split; ring.
Qed.

(** On data that lie on a line the least-squares slope is the slope of
    the line. *)
Lemma ols_slope_linear (a b : Qc) (xs : list Z) :
  ols_det xs <> 0%Qc ->
  ols_slope xs (map (fun x => a * qint x + b)%Qc xs) = a.
Proof.
  intros Hd. unfold ols_slope.
  destruct (moments_linear a b xs) as [-> ->].
  unfold ols_det in *. field. exact Hd.
Qed.

Lemma mapM_ok (A B : Type) (f : A -> result B) (g : A -> B) (l : list A) :
  (forall a, In a l -> f a = Ok (g a)) -> mapM f l = Ok (map g l).
Proof.
  induction l as [|a l IH]; intros H; simpl; [reflexivity|].
  rewrite (H a (or_introl eq_refl)), IH by (intros; apply H; right; assumption).
  reflexivity.
Qed.

Lemma fit_inputs_finite (y : list float) :
  Forall (fun v => isfinite v = true) y ->
  fit_inputs y = (arange (length y), y).
Proof.
  intros H. rewrite (surjective_pairing (fit_inputs y)).
  rewrite fit_inputs_values, fit_inputs_indexes.
  assert (Hn : Forall (fun v => negb (isnan v) = true) y).
  { eapply Forall_impl; [|exact H]. simpl. intros v Hv.
    rewrite (finite_not_nan _ Hv). reflexivity. }
  rewrite (filter_all_true _ Hn), filter_all_true.
  - rewrite map_fst_combine_eq by apply length_arange. reflexivity.
  - rewrite Forall_forall in *. intros [x v] Hp. simpl.
    apply Hn. eapply in_combine_r; eauto.
Qed.

Section TrendFacts.

Variable polyfit : list Z -> list float -> nat -> result (list float).
Hypothesis polyfit_ls : least_squares_fit polyfit.

(** A slice of finite samples, at least two: every sample enters the fit
    with its index, and the slope is the least-squares one. *)
Lemma calc_slope_finite (y : list float) :
  Forall (fun v => isfinite v = true) y -> (2 <= length y)%nat ->
  calc_slope polyfit y
  = Ok (Fin (ols_slope (arange (length y)) (map to_Qc y))).
Proof.
  intros Hy Hlen. unfold calc_slope.
  rewrite count_true_mask, count_valid_finite by assumption.
  destruct (Nat.ltb_spec (length y) 2) as [Hlt|_]; [lia|].
  rewrite (fit_inputs_finite Hy). cbn [fst snd].
  pose proof (polyfit_ls : least_squares_fit polyfit) as Hp.
  unfold least_squares_fit in Hp.
  specialize (Hp (arange (length y)) (map to_Qc y)).
  rewrite <- (all_finite_map Hy) in Hp. rewrite Hp; [reflexivity| |].
  - rewrite length_arange, length_map. reflexivity.
  - pose proof (Qclt_not_eq _ _ (ols_det_arange Hlen)) as Hd. congruence.
Qed.

Lemma calc_slope_linear (n : nat) :
  (2 <= n)%nat -> calc_slope polyfit (linear_series n) = Ok (Fin (qint 2)).
Proof.
  intros Hn.
  assert (Hl : length (linear_series n) = n).
  { unfold linear_series. rewrite length_map. apply length_arange. }
  rewrite calc_slope_finite.
  - rewrite Hl. unfold linear_series. rewrite map_map. cbn [to_Qc].
    rewrite ols_slope_linear; [reflexivity|].
    pose proof (Qclt_not_eq _ _ (ols_det_arange Hn)) as Hd. congruence.
  - unfold linear_series. rewrite Forall_map. apply Forall_forall.
    reflexivity.
  - lia.
Qed.

End TrendFacts.

Lemma time_slice_finite (da : DataArray) (xs : list grid) (i j : nat) :
  finite_field da -> In xs (values da) ->
  (i < nlat da)%nat -> (j < nlon da)%nat ->
  Forall (fun v => isfinite v = true) (time_slice xs i j)
  /\ length (time_slice xs i j) = length (time da).
Proof.
  intros Hf Hxs Hi Hj. unfold finite_field in Hf.
  rewrite Forall_forall in Hf. destruct (Hf _ Hxs) as [Hl Hg].
  unfold time_slice. rewrite length_map. split; [|exact Hl].
  rewrite Forall_map. eapply Forall_impl; [|exact Hg]. simpl.
  intros g [Hsh Hfin]. rewrite Forall_forall in Hfin.
  apply Hfin. eapply cell_in_flatten; eauto.
Qed.

Lemma map_by_index (A B : Type) (f : A -> B) (d : A) (l : list A) :
  map f l = map (fun k => f (nth k l d)) (seq 0 (length l)).
Proof.
  induction l as [|a l IH]; [reflexivity|].
  cbn [length seq map nth]. f_equal.
  rewrite <- seq_shift, map_map. exact IH.
Qed.

Lemma nth_map_seq (A : Type) (f : nat -> A) (d : A) (n k : nat) :
  (k < n)%nat -> nth k (map f (seq 0 n)) d = f k.
Proof.
  intros Hk. rewrite (@nth_map_in _ _ f (seq 0 n) 0%nat d k)
    by (rewrite length_seq; exact Hk).
  rewrite seq_nth by exact Hk. reflexivity.
Qed.

Lemma arange_zrange (n : nat) : arange n = zrange 0 n.
Proof. reflexivity. Qed.

(** The slice the computation takes is the series read off the field. *)
Lemma time_slice_series (da : DataArray) (m i j : nat) :
  finite_field da -> (m < length (values da))%nat ->
  time_slice (nth m (values da) []) i j = series_at da m i j.
Proof.
  intros Hf Hm. unfold finite_field in Hf. rewrite Forall_forall in Hf.
  destruct (Hf (nth m (values da) []) (nth_In _ _ Hm)) as [Hl _].
  unfold time_slice, series_at.
  rewrite (@map_by_index grid float (fun g => cell g i j) []
             (nth m (values da) [])).
  rewrite Hl. reflexivity.
Qed.

(** C2.  With a least-squares [np.polyfit], on a field with at least two
    time steps and finite samples the trend is, independently at every
    (member, lat, lon), the ordinary-least-squares slope of the series of
    that member and point against the sample indexes 0..T-1; and wherever
    the series is 2*k + 5 the trend is 2. *)
Theorem linear_trend_least_squares
    (polyfit : list Z -> list float -> nat -> result (list float))
    (da : DataArray) :
  least_squares_fit polyfit ->
  (2 <= length (time da))%nat ->
  finite_field da ->
  exists trend,
    linear_trend polyfit da = Ok trend
    /\ trend
       = map (fun m => grid_of (nlat da) (nlon da) (fun i j =>
                Fin (ols_slope (zrange 0 (length (time da)))
                               (map to_Qc (series_at da m i j)))))
             (seq 0 (length (values da)))
    /\ forall m i j,
         (m < length (values da))%nat ->
         (i < nlat da)%nat -> (j < nlon da)%nat ->
         (forall k, (k < length (time da))%nat ->
            nth k (series_at da m i j) NaN
            = Fin (qint 2 * qint (Z.of_nat k) + qint 5)%Qc) ->
         nth j (nth i (nth m trend []) []) NaN = Fin (qint 2).
Proof.
  intros Hp HT Hf. eexists. split; [|split; [reflexivity|]].
  - unfold linear_trend.
    rewrite (@mapM_ok _ _ _ (fun xs => tabulate (nlat da) (nlon da) (fun i j =>
               Fin (ols_slope (arange (length (time da)))
                              (map to_Qc (time_slice xs i j)))))).
    + f_equal. rewrite (map_by_index _ [] (values da)).
      apply map_ext_in. intros m Hm. apply in_seq in Hm.
      apply tabulate_ext. intros i j Hi Hj.
      rewrite (time_slice_series i j Hf) by lia. reflexivity.
    + intros xs Hxs. unfold tabulate.
      apply mapM_ok. intros i Hi. apply mapM_ok. intros j Hj.
      apply in_seq in Hi, Hj.
      destruct (@time_slice_finite da xs i j Hf Hxs) as [Hfin Hl]; try lia.
      rewrite (calc_slope_finite Hp Hfin) by lia. rewrite Hl. reflexivity.
  - intros m i j Hm Hi Hj Hlin. unfold grid_of.
    rewrite (@nth_map_seq grid _ [] _ m Hm).
    rewrite (@nth_map_seq (list float) _ [] _ i Hi).
    rewrite (@nth_map_seq float _ NaN _ j Hj).
    f_equal.
    assert (Hs : series_at da m i j = linear_series (length (time da))).
    { unfold series_at, linear_series, arange. rewrite map_map.
      apply map_ext_in. intros k Hk. apply in_seq in Hk.
      specialize (Hlin k ltac:(lia)). unfold series_at in Hlin.
      rewrite (nth_map_seq _ NaN) in Hlin by lia. exact Hlin. }
    rewrite Hs. unfold linear_series. rewrite map_map. cbn [to_Qc].
    rewrite <- arange_zrange. apply ols_slope_linear.
    pose proof (Qclt_not_eq _ _ (ols_det_arange HT)) as Hd. congruence.
Qed.

Lemma polyfit_exact_least_squares : least_squares_fit polyfit_exact.
Proof.
  intros xs ys Hl Hd. unfold polyfit_exact.
  assert (H1 : forallb isfinite (map Fin ys) = true).
  { apply forallb_forall. intros v Hv. apply in_map_iff in Hv.
    destruct Hv as [q [<- _]]. reflexivity. }
  assert (H2 : (length xs =? length (map Fin ys))%nat = true).
  { rewrite length_map. apply Nat.eqb_eq. exact Hl. }
  apply Qc_eqb_false in Hd. rewrite H1, H2, Hd. simpl.
  rewrite map_map. simpl. rewrite map_id. reflexivity.
Qed.

Lemma linear_trend_least_squares_witness :
  exists trend,
    linear_trend polyfit_exact sample_trend_field = Ok trend
    /\ trend
       = map (fun m => grid_of 1 2 (fun i j =>
                Fin (ols_slope (zrange 0 3)
                               (map to_Qc (series_at sample_trend_field m i j)))))
             (seq 0 1)
    /\ nth 0 (nth 0 (nth 0 trend []) []) NaN = Fin (qint 2).
Proof.
  destruct (@linear_trend_least_squares polyfit_exact sample_trend_field)
    as [trend [Hr [Ht Hlin]]].
  - exact polyfit_exact_least_squares.
  - simpl. lia.
  - unfold finite_field, has_shape. simpl. repeat constructor.
  - exists trend. split; [exact Hr|]. split; [exact Ht|].
    apply Hlin; simpl; try lia.
    intros k Hk.
    assert (Hc : k = 0%nat \/ k = 1%nat \/ k = 2%nat) by lia.
    destruct Hc as [-> | [-> | ->]]; float_eval.
Defined.

(** The trends of the sample field: 2 on the linear slice 5, 7, 9 and
    1/2 on the slice 1, 4, 2. *)
Example linear_trend_sample :
  linear_trend polyfit_exact sample_trend_field = Ok [ [[fin 2 1; fin 1 2]] ].
Proof.
  assert (H : match linear_trend polyfit_exact sample_trend_field with
              | Ok r => list_eqb (list_eqb (list_eqb eqb)) r [ [[fin 2 1; fin 1 2]] ]
              | Raise _ => false
              end = true) by (vm_compute; reflexivity).
  destruct (linear_trend polyfit_exact sample_trend_field) as [r|e];
    [|discriminate]. apply grids_eqb_eq in H. rewrite H. reflexivity.
Qed.

(* ------------------------------------------------------------------ *)
(** ** [ols_slope] and [ols_intercept] are the least-squares line *)

Lemma sse_moments (xs : list Z) (ys : list Qc) (m c : Qc) :
  length xs = length ys ->
  sse xs ys m c
  = (Syy ys - (m * Sxy xs ys + m * Sxy xs ys) - (c * qsum ys + c * qsum ys)
     + m * m * Sxx xs + (m * c * Sx xs + m * c * Sx xs)
     + ols_count xs * (c * c))%Qc.
Proof.
  revert ys. induction xs as [|x xs IH]; intros [|y ys] Hl; try discriminate.
  - cbn. change (ols_count []) with 0%Qc. ring.
  - rewrite ols_count_cons. unfold sse, Syy, Sxy, Sxx, Sx in *.
    cbn [combine map qsum fold_right fst snd].
    fold (qsum (map (fun p => qsq (snd p - (m * qint (fst p) + c)))%Qc
                    (combine xs ys))).
    fold (qsum (map qsq ys)).
    fold (qsum (map (fun p => qint (fst p) * snd p)%Qc (combine xs ys))).
    fold (qsum (map (fun x => qsq (qint x)) xs)).
    fold (qsum (map qint xs)). fold (qsum ys).
    rewrite (IH ys) by (simpl in Hl; congruence).
    unfold qsq. ring.
Qed.

Lemma qsq_nonneg (q : Qc) : (0 <= q * q)%Qc.
Proof.
  unfold Qcle, Qcmult, Q2Qc. cbn [this]. rewrite !Qred_correct.
  destruct q as [q Hq]. cbn [this]. unfold Qle. simpl. nia.
Qed.

Lemma Qcmult_nonneg (a b : Qc) : (0 <= a)%Qc -> (0 <= b)%Qc -> (0 <= a * b)%Qc.
Proof.
  intros Ha Hb. replace 0%Qc with (0 * b)%Qc by ring.
  apply Qcmult_le_compat_r; assumption.
Qed.

Lemma Qcplus_nonneg (a b : Qc) : (0 <= a)%Qc -> (0 <= b)%Qc -> (0 <= a + b)%Qc.
Proof.
  intros Ha Hb. replace 0%Qc with (0 + 0)%Qc by ring.
  apply Qcplus_le_compat; assumption.
Qed.

Lemma ols_count_pos (xs : list Z) : xs <> [] -> (0 < ols_count xs)%Qc.
Proof.
  intros H. unfold ols_count. apply qint_pos.
  destruct xs; [congruence|]. simpl. lia.
Qed.

(** No line has a smaller sum of squared residuals. *)
Lemma ols_least_squares (xs : list Z) (ys : list Qc) (m c : Qc) :
  length xs = length ys -> (0 < ols_det xs)%Qc ->
  (sse xs ys (ols_slope xs ys) (ols_intercept xs ys) <= sse xs ys m c)%Qc.
Proof.
  intros Hl Hd.
  assert (Hne : xs <> []).
  { intros E. subst xs. revert Hd. vm_compute. discriminate. }
  pose proof (ols_count_pos Hne) as Hn.
  pose proof (Qclt_not_eq _ _ Hn) as Hn0.
  pose proof (Qclt_not_eq _ _ Hd) as Hd0.
  set (m0 := ols_slope xs ys). set (c0 := ols_intercept xs ys).
  assert (Hid : ((sse xs ys m c + - sse xs ys m0 c0) * ols_count xs
                 = (ols_count xs * (c - c0) + (m - m0) * Sx xs)
                   * (ols_count xs * (c - c0) + (m - m0) * Sx xs)
                   + ols_det xs * ((m - m0) * (m - m0)))%Qc).
  { rewrite !sse_moments by assumption. subst m0 c0.
    unfold ols_intercept, ols_slope, ols_det in *.
    field. split; congruence. }
  apply Qcle_minus_iff.
  apply Qcmult_lt_0_le_reg_r with (z := ols_count xs); [exact Hn|].
  rewrite Hid. replace (0 * ols_count xs)%Qc with 0%Qc by ring.
  apply Qcplus_nonneg.
  - apply qsq_nonneg.
  - apply Qcmult_nonneg; [apply Qclt_le_weak; exact Hd|apply qsq_nonneg].
Qed.

(* ================================================================== *)
(** * Further properties *)

(* ------------------------------------------------------------------ *)
(** ** Regular normal equations *)

Lemma spreadZ_nonneg (x : Z) (xs : list Z) : (0 <= spreadZ x xs)%Z.
Proof.
  unfold spreadZ, sumZ. induction xs as [|y ys IH]; simpl; [lia|].
  pose proof (Z.square_nonneg (x - y)). lia.
Qed.

Lemma spreadZ_moments (x : Z) (xs : list Z) :
  (spreadZ x xs
   = Z.of_nat (length xs) * (x * x) - 2 * x * sumZ xs
     + sumZ (map (fun y => y * y) xs))%Z.
Proof.
  unfold spreadZ, sumZ. induction xs as [|y ys IH]; [simpl; lia|].
  cbn [map fold_right length]. rewrite IH, Nat2Z.inj_succ. lia.
Qed.

Lemma detZ_cons (x : Z) (xs : list Z) :
  detZ (x :: xs) = (detZ xs + spreadZ x xs)%Z.
Proof.
  rewrite spreadZ_moments. unfold detZ, sumZ.
  cbn [map fold_right length]. rewrite Nat2Z.inj_succ. lia.
Qed.

Lemma detZ_nonneg (xs : list Z) : (0 <= detZ xs)%Z.
Proof.
  induction xs as [|x xs IH]; [reflexivity|].
  rewrite detZ_cons. pose proof (spreadZ_nonneg x xs). lia.
Qed.

Lemma detZ_pos (xs : list Z) :
  NoDup xs -> (2 <= length xs)%nat -> (0 < detZ xs)%Z.
Proof.
  intros Hnd Hl. destruct xs as [|x [|y zs]]; simpl in Hl; try lia.
  rewrite detZ_cons. pose proof (detZ_nonneg (y :: zs)).
  assert (Hxy : x <> y).
  { inversion Hnd as [|? ? Hnin _]. intros E. apply Hnin. left. auto. }
  unfold spreadZ, sumZ. cbn [map fold_right].
  pose proof (spreadZ_nonneg x zs) as Hs. unfold spreadZ, sumZ in Hs.
  assert (0 < (x - y) * (x - y))%Z by nia. lia.
Qed.

Lemma ols_det_detZ (xs : list Z) : ols_det xs = qint (detZ xs).
Proof.
  unfold ols_det, ols_count, detZ. rewrite Sx_sumZ, Sxx_sumZ.
  set (n := Z.of_nat (length xs)). set (s1 := sumZ xs).
  set (s2 := sumZ (map (fun x => (x * x)%Z) xs)).
  replace (n * s2 - s1 * s1)%Z with (n * s2 + (-1) * (s1 * s1))%Z by lia.
  rewrite qint_add, !qint_mul. change (qint (-1)) with (- (1))%Qc. ring.
Qed.

(** Two or more distinct abscissae make the normal equations regular. *)
Lemma ols_det_distinct (xs : list Z) :
  NoDup xs -> (2 <= length xs)%nat -> ols_det xs <> 0%Qc.
Proof.
  intros Hnd Hl. rewrite ols_det_detZ. apply qint_neq0.
  pose proof (detZ_pos Hnd Hl). lia.
Qed.

(* ------------------------------------------------------------------ *)
(** ** Trends of series with gaps *)

Lemma NoDup_arange (n : nat) : NoDup (arange n).
Proof.
  unfold arange. apply Finite.Injective_map_NoDup.
  - intros a b H. lia.
  - apply seq_NoDup.
Qed.

Lemma NoDup_masked (A B : Type) (p : A * B -> bool) (a : list A) (b : list B) :
  NoDup a -> NoDup (map fst (filter p (combine a b))).
Proof.
  revert b. induction a as [|x a IH]; intros [|y b] Hnd; simpl;
    try constructor.
  inversion Hnd as [|? ? Hnin Hnd']; subst.
  destruct (p (x, y)); simpl; [|apply IH; assumption].
  constructor; [|apply IH; assumption].
  intros Hin. apply in_map_iff in Hin. destruct Hin as [[x' y'] [E Hq]].
  simpl in E. subst x'. apply filter_In in Hq. destruct Hq as [Hq _].
  apply in_combine_l in Hq. contradiction.
Qed.

Lemma filter_snd_combine (A B : Type) (p : B -> bool) (a : list A) (b : list B) :
  length a = length b ->
  map snd (filter (fun q => p (snd q)) (combine a b)) = filter p b.
Proof.
  revert b. induction a as [|x a IH]; intros [|y b]; simpl; try congruence.
  intros H. destruct (p y); simpl; rewrite IH by congruence; reflexivity.
Qed.

Lemma Forall2_combine (A B : Type) (R : A -> B -> Prop) (a : list A) (b : list B) :
  Forall2 R a b -> forall q, In q (combine a b) -> R (fst q) (snd q).
Proof.
  induction 1 as [|x y a b Hxy _ IH]; simpl; [tauto|].
  intros q [<-|Hq]; [exact Hxy|auto].
Qed.

Lemma fit_inputs_on_line (a b : Qc) (y : list float) :
  on_line a b y ->
  snd (fit_inputs y)
  = map Fin (map (fun i => a * qint i + b)%Qc (fst (fit_inputs y)))
  /\ NoDup (fst (fit_inputs y))
  /\ length (fst (fit_inputs y)) = count_valid y.
Proof.
  intros Hy. rewrite fit_inputs_values, fit_inputs_indexes.
  set (P := filter (fun q : Z * float => negb (isnan (snd q)))
                   (combine (arange (length y)) y)).
  assert (Hs : filter (fun v => negb (isnan v)) y = map snd P).
  { symmetry. unfold P.
    apply (filter_snd_combine (fun v => negb (isnan v))), length_arange. }
  split; [|split].
  - rewrite Hs, !map_map. apply map_ext_in. intros q Hq.
    apply filter_In in Hq. destruct Hq as [Hq Hn].
    destruct (Forall2_combine Hy q Hq) as [E|E]; [|exact E].
    rewrite E in Hn. discriminate.
  - apply NoDup_masked, NoDup_arange.
  - unfold count_valid. rewrite Hs, !length_map. reflexivity.
Qed.

Section GappyTrends.

Variable polyfit : list Z -> list float -> nat -> result (list float).
Hypothesis polyfit_ls : least_squares_fit polyfit.

(** The fit of a line with gaps returns the slope of the line. *)
Lemma fit_on_line (a b : Qc) (y : list float) :
  on_line a b y -> (2 <= count_valid y)%nat ->
  first_coefficient (polyfit (fst (fit_inputs y)) (snd (fit_inputs y)) 1)
  = Ok (Fin a).
Proof.
  intros Hy Hc. destruct (fit_inputs_on_line Hy) as [Hv [Hnd Hl]].
  rewrite Hv.
  pose proof (polyfit_ls : least_squares_fit polyfit) as Hp.
  unfold least_squares_fit in Hp.
  assert (Hd : ols_det (fst (fit_inputs y)) <> 0%Qc).
  { apply ols_det_distinct; [exact Hnd|lia]. }
  rewrite Hp; [|rewrite length_map; reflexivity|exact Hd].
  cbn [first_coefficient]. rewrite ols_slope_linear by exact Hd.
  reflexivity.
Qed.

(** X1.  With a least-squares [np.polyfit], a series that follows the line
    [a * i + b] wherever it is not NaN, with at least two samples that are
    not NaN, has the slope [a]: the samples that remain keep their own
    indexes, so gaps do not distort the trend. *)
Theorem calc_slope_line_with_gaps (a b : Qc) (y : list float) :
  on_line a b y -> (2 <= count_valid y)%nat ->
  calc_slope polyfit y = Ok (Fin a).
Proof.
  intros Hy Hc. unfold calc_slope. rewrite count_true_mask.
  destruct (Nat.ltb_spec (count_valid y) 2) as [Hlt|_]; [lia|].
  apply fit_on_line with (b := b); assumption.
Qed.

(** X2.  On a field whose slices all follow the line [a * i + b] where they
    are not NaN, each with two valid samples, the scaled trend is
    [a * T] at every (member, lat, lon), [T] being the number of time
    steps. *)
Theorem winter_trends_line (a b : Qc) (da : DataArray) :
  field_on_line a b da ->
  winter_trends polyfit da
  = Ok (map (fun _ => tabulate (nlat da) (nlon da) (fun _ _ =>
              Fin (a * qint (Z.of_nat (length (time da))))))
            (values da)).
Proof.
  intros Hf. unfold winter_trends.
  assert (H : linear_trend polyfit da
              = Ok (map (fun _ => tabulate (nlat da) (nlon da)
                                    (fun _ _ => Fin a)) (values da))).
  { unfold linear_trend, tabulate. apply mapM_ok. intros xs Hxs.
    apply mapM_ok. intros i Hi. apply mapM_ok. intros j Hj.
    apply in_seq in Hi, Hj. unfold field_on_line in Hf.
    rewrite Forall_forall in Hf.
    destruct (Hf _ Hxs i j) as [Hy Hc]; try lia.
    unfold calc_slope. rewrite count_true_mask.
    destruct (Nat.ltb_spec (count_valid (time_slice xs i j)) 2) as [Hlt|_];
      [lia|].
    apply fit_on_line with (b := b); assumption. }
  rewrite H. cbn [bind]. f_equal. rewrite map_map. apply map_ext.
  intros _. unfold tabulate, grid_map. rewrite map_map. apply map_ext.
  intros i. rewrite map_map. reflexivity.
Qed.

End GappyTrends.

Lemma gappy_series_on_line : on_line (qint 2) (qint 5) gappy_series.
Proof.
  unfold on_line, gappy_series. simpl.
  repeat constructor; try (left; reflexivity);
    right; apply eqb_eq; vm_compute; reflexivity.
Qed.

Lemma calc_slope_line_with_gaps_witness :
  calc_slope polyfit_exact gappy_series = Ok (Fin (qint 2)).
Proof.
  apply (@calc_slope_line_with_gaps polyfit_exact polyfit_exact_least_squares
           (qint 2) (qint 5)).
  - exact gappy_series_on_line.
  - vm_compute. lia.
Defined.

Lemma gappy_trend_field_on_line :
  field_on_line (qint 2) (qint 5) gappy_trend_field.
Proof.
  unfold field_on_line. simpl. constructor; [|constructor].
  intros i j Hi Hj.
  assert (Hi0 : i = 0%nat) by lia. subst i.
  assert (Hj0 : j = 0%nat \/ j = 1%nat) by lia.
  destruct Hj0; subst j; (split; [|vm_compute; lia]);
    unfold on_line; simpl;
    repeat constructor; try (left; reflexivity);
    right; apply eqb_eq; vm_compute; reflexivity.
Qed.

Lemma winter_trends_line_witness :
  winter_trends polyfit_exact gappy_trend_field
  = Ok (map (fun _ => tabulate 1 2 (fun _ _ => Fin (qint 2 * qint 3)))
            (values gappy_trend_field)).
Proof.
  apply (@winter_trends_line polyfit_exact polyfit_exact_least_squares
           (qint 2) (qint 5) gappy_trend_field).
  exact gappy_trend_field_on_line.
Defined.

(* ------------------------------------------------------------------ *)
(** ** Slices that are too short *)

(** X4.  Where every time slice has fewer than two samples that are not
    NaN (a single time step, or no data), [linear_trend] returns NaN
    everywhere and never raises, whatever [np.polyfit] would do: the fit
    is not called. *)
Theorem linear_trend_too_short
    (polyfit : list Z -> list float -> nat -> result (list float))
    (da : DataArray) :
  Forall (fun xs => forall i j, (i < nlat da)%nat -> (j < nlon da)%nat ->
            (count_valid (time_slice xs i j) < 2)%nat) (values da) ->
  linear_trend polyfit da
  = Ok (map (fun _ => tabulate (nlat da) (nlon da) (fun _ _ => NaN))
            (values da)).
Proof.
  intros H. unfold linear_trend, tabulate. apply mapM_ok. intros xs Hxs.
  apply mapM_ok. intros i Hi. apply mapM_ok. intros j Hj.
  apply in_seq in Hi, Hj. rewrite Forall_forall in H.
  unfold calc_slope. rewrite count_true_mask.
  destruct (Nat.ltb_spec (count_valid (time_slice xs i j)) 2) as [_|Hge];
    [reflexivity|].
  specialize (H xs Hxs i j). lia.
Qed.

Lemma linear_trend_too_short_witness :
  linear_trend (fun _ _ _ => Raise LinAlgError) one_step_field
  = Ok (map (fun _ => tabulate 1 2 (fun _ _ => NaN)) (values one_step_field)).
Proof.
  apply (@linear_trend_too_short (fun _ _ _ => Raise LinAlgError)
           one_step_field).
  simpl. constructor; [|constructor; [|constructor]]; intros i j Hi Hj;
    (assert (Hi0 : i = 0%nat) by lia); subst i;
    (assert (Hj0 : j = 0%nat \/ j = 1%nat) by lia);
    destruct Hj0; subst j; vm_compute; lia.
Defined.

(* ------------------------------------------------------------------ *)
(** ** The ensemble mean of the trends *)

(** X5.  The ensemble mean needs thirty members: with fewer it raises
    IndexError; with thirty or more it is computed from the first thirty
    alone, so that members appended after them never change it. *)
Theorem winter_trends_mean_first_thirty (nlat nlon : nat) (trends : list grid) :
  ((length trends < 30)%nat ->
     winter_trends_mean nlat nlon trends = Raise IndexError)
  /\ ((30 <= length trends)%nat -> forall more,
        winter_trends_mean nlat nlon (trends ++ more)
        = winter_trends_mean nlat nlon trends
        /\ winter_trends_mean nlat nlon trends
           = Ok (tabulate nlat nlon (fun i j =>
                   nanmean (map (fun g => cell g i j) (firstn 30 trends))))).
Proof.
  unfold winter_trends_mean, isel_members. split.
  - intros H. apply Nat.ltb_lt in H. rewrite H. reflexivity.
  - intros H more. rewrite length_app.
    destruct (Nat.ltb_spec (length trends + length more) 30) as [Hlt|_]; [lia|].
    destruct (Nat.ltb_spec (length trends) 30) as [Hlt|_]; [lia|].
    cbn [bind]. rewrite firstn_app.
    replace (30 - length trends)%nat with 0%nat by lia.
    rewrite firstn_O, app_nil_r. split; reflexivity.
Qed.

(* ------------------------------------------------------------------ *)
(** ** Which samples make a winter season *)

Lemma filter_map_comm (A B : Type) (L : A -> B) (p : B -> bool) (l : list A) :
  filter p (map L l) = map L (filter (fun a => p (L a)) l).
Proof.
  induction l as [|a l IH]; simpl; [reflexivity|].
  destruct (p (L a)); simpl; rewrite IH; reflexivity.
Qed.

Lemma sel_mapped (A B C : Type) (L : A -> B) (F : A -> C) (p : B -> bool)
    (l : list A) :
  map snd (filter (fun q => p (fst q)) (combine (map L l) (map F l)))
  = map F (filter (fun a => p (L a)) l).
Proof.
  induction l as [|a l IH]; simpl; [reflexivity|].
  destruct (p (L a)); simpl; rewrite IH; reflexivity.
Qed.

Lemma combine_sel (A : Type) (p : datetime -> bool) (time : list datetime)
    (xs : list A) :
  combine (filter p time)
          (map snd (filter (fun q => p (fst q)) (combine time xs)))
  = filter (fun q => p (fst q)) (combine time xs).
Proof.
  revert xs. induction time as [|t time IH]; intros [|x xs]; simpl;
    try reflexivity.
  - destruct (p t); [reflexivity|]. destruct (filter p time); reflexivity.
  - destruct (p t); simpl; rewrite IH; reflexivity.
Qed.

Lemma filter_and (A : Type) (p q : A -> bool) (l : list A) :
  filter q (filter p l) = filter (fun a => q a && p a) l.
Proof.
  induction l as [|a l IH]; simpl; [reflexivity|].
  destruct (p a); simpl.
  - destruct (q a); simpl; rewrite IH; reflexivity.
  - rewrite andb_false_r. exact IH.
Qed.

Lemma winter_member (y : Z) (s : datetime) :
  valid_date s -> (1979 <= y <= 2012)%Z ->
  ((bin_start QS_DEC s =? 12 * y + 11)%Z && in_years 1979 2012 s)
  = in_winter y s.
Proof.
  unfold valid_date, in_winter, in_years, bin_start, month_ordinal.
  intros Hm Hy.
  set (o := (12 * year s + (month s - 1))%Z).
  pose proof (Z.mod_pos_bound (o + 1) 3 ltac:(lia)) as Hr.
  pose proof (Z.div_mod (o + 1) 3 ltac:(lia)) as Hq.
  set (r := ((o + 1) mod 3)%Z) in *. set (q := ((o + 1) / 3)%Z) in *.
  destruct (Z.eqb_spec (o - r) (12 * y + 11));
    destruct (Z.leb_spec 1979 (year s));
    destruct (Z.leb_spec (year s) 2012);
    destruct (Z.eqb_spec (year s) y);
    destruct (Z.eqb_spec (month s) 12);
    destruct (Z.eqb_spec (year s) (y + 1));
    destruct (Z.leb_spec (month s) 2);
    destruct (Z.leb_spec (y + 1) 2012);
    simpl; try reflexivity; exfalso; subst o; lia.
Qed.

Lemma winter_bins (k : Z) :
  (0 <= k <= 4)%Z ->
  filter (fun b => (month (bin_label b) =? 12)%Z)
         (filter (fun b => in_years 1979 2012 (bin_label b))
                 (bins_between QS_DEC (23747 + 3 * k) 24155))
  = map (fun y => 12 * y + 11)%Z winter_years.
Proof.
  intros Hk.
  assert (Hc : (k = 0 \/ k = 1 \/ k = 2 \/ k = 3 \/ k = 4)%Z) by lia.
  destruct Hc as [Hk0 | [Hk0 | [Hk0 | [Hk0 | Hk0]]]]; subst k;
    vm_compute; reflexivity.
Qed.

(** The December seasons of the resampled window, bin by bin. *)
Lemma winter_seasons_groups (t : DataArray) :
  Forall valid_date (time t) ->
  (exists s, In s (time t) /\ year s = 1979%Z) ->
  (exists s, In s (time t) /\ year s = 2012%Z /\ month s = 12%Z) ->
  let s := sel_time (in_years 1979 2012)
             (resampled QS_DEC nanmean (sel_time (in_years 1979 2012) t)) in
  time (winter_seasons s) = map december winter_years
  /\ values (winter_seasons s)
     = map (fun xs =>
              map (fun y =>
                     reduce_group nanmean (nlat t) (nlon t)
                       (map snd (filter (fun q => in_winter y (fst q))
                                        (combine (time t) xs))))
                  winter_years)
           (values t).
Proof.
  intros Hv H1 H2 s. unfold s.
  destruct (seasons_bins Hv H1 H2) as [k [Hk E]].
  unfold winter_seasons.
  cbn [time values nlat nlon sel_time resampled]. rewrite E. split.
  - rewrite filter_map_comm, filter_map_comm, (winter_bins Hk), map_map.
    reflexivity.
  - rewrite !map_map. apply map_ext. intros xs.
    unfold resample_bins. rewrite E.
    rewrite (sel_mapped bin_label _ (in_years 1979 2012)), filter_map_comm.
    rewrite (sel_mapped bin_label _ (fun l => (month l =? 12)%Z)).
    rewrite (winter_bins Hk), map_map.
    apply map_ext_in. intros y Hy. f_equal.
    unfold group. rewrite combine_sel, filter_and. f_equal.
    apply filter_ext_in. intros [s0 x] Hs. cbn [fst].
    apply winter_member.
    + rewrite Forall_forall in Hv. apply Hv.
      eapply in_combine_l; eauto.
    + unfold winter_years in Hy. apply in_map_iff in Hy.
      destruct Hy as [n [<- Hn]]. apply in_seq in Hn. lia.
Qed.

(** The mean over time of a group of slabs, point by point; a group
    without slabs gives NaN. *)
Lemma reduce_group_valid_mean (nlat nlon : nat) (gs : list grid) :
  reduce_group nanmean nlat nlon gs
  = grid_of nlat nlon (fun i j =>
      valid_mean (map (fun g => nth j (nth i g []) NaN) gs)).
Proof.
  destruct gs as [|g gs]; [reflexivity|].
  unfold reduce_group, reduce_time. apply tabulate_ext. intros i j _ _.
  apply nanmean_valid_mean.
Qed.

(** X6.  On a field with a strictly increasing time axis of valid stamps,
    a sample in 1979 and one in December 2012, the winter seasons are
    labelled 1 December of 1979, 1980, ..., 2012, and the season labelled
    December [y] is, point by point, the mean of the values that are not
    NaN among exactly the samples of December [y] and of January and
    February [y + 1] that lie in 1979..2012: January and February 1979
    enter no season, and the season of December 2012 holds the samples of
    December 2012 alone. *)
Theorem winter_seasons_content (t : DataArray) :
  increasing (time t) ->
  Forall valid_date (time t) ->
  (exists s, In s (time t) /\ year s = 1979%Z) ->
  (exists s, In s (time t) /\ year s = 2012%Z /\ month s = 12%Z) ->
  exists s, seasons t = Ok s
    /\ time (winter_seasons s) = map december winter_years
    /\ values (winter_seasons s)
       = map (fun xs =>
                map (fun y =>
                       grid_of (nlat t) (nlon t) (fun i j =>
                         valid_mean
                           (map (fun g => nth j (nth i g []) NaN)
                              (map snd (filter (fun q => in_winter y (fst q))
                                               (combine (time t) xs))))))
                    winter_years)
             (values t).
Proof.
  intros Hinc Hv H1 H2. eexists. split; [apply seasons_ok; assumption|].
  destruct (winter_seasons_groups t Hv H1 H2) as [Ht Hvals].
  split; [exact Ht|]. rewrite Hvals.
  apply map_ext. intros xs. apply map_ext. intros y.
  apply reduce_group_valid_mean.
Qed.

Lemma winter_seasons_content_witness :
  exists s, seasons (monthly_field 1979 408) = Ok s
    /\ time (winter_seasons s) = map december winter_years
    /\ values (winter_seasons s)
       = map (fun xs =>
                map (fun y =>
                       grid_of 1 1 (fun i j =>
                         valid_mean
                           (map (fun g => nth j (nth i g []) NaN)
                              (map snd (filter (fun q => in_winter y (fst q))
                                               (combine (monthly_axis 1979 408)
                                                        xs))))))
                    winter_years)
             (values (monthly_field 1979 408)).
Proof.
  apply (@winter_seasons_content (monthly_field 1979 408)).
  - apply monthly_axis_increasing.
  - apply Forall_forall. intros s Hs. apply in_map_iff in Hs.
    destruct Hs as [k [<- _]]. unfold valid_date. cbn [month].
    pose proof (Z.mod_pos_bound (12 * 1979 + Z.of_nat k) 12 ltac:(lia)). lia.
  - exists (mkdate 1979 1 15). split; [|reflexivity].
    vm_compute. left. reflexivity.
  - exists (mkdate 2012 12 15). split; [|split; reflexivity].
    apply in_map_iff. exists 407%nat. split; [reflexivity|].
    apply in_seq. lia.
Defined.

(* ------------------------------------------------------------------ *)
(** ** The annual value is the mean over the valid samples *)

Lemma fsum_weighted_finite (ss vs : list sample) :
  Forall (fun s => isfinite (value s) = true) vs ->
  total_duration ss <> 0%Z ->
  fsum (map (fun s => value s * spec_weight ss s)%float vs)
  = Fin (qsum (map (fun s => to_Qc (value s) * qint (duration s))%Qc vs)
         / qint (total_duration ss)).
Proof.
  intros Hf HD. induction Hf as [|s vs Hs _ IH].
  - simpl. f_equal. unfold Qcdiv. ring.
  - cbn [map fsum fold_right qsum].
    fold (fsum (map (fun s => value s * spec_weight ss s)%float vs)).
    fold (qsum (map (fun s => to_Qc (value s) * qint (duration s))%Qc vs)).
    rewrite IH. unfold spec_weight. rewrite (of_Z_div _ HD).
    rewrite (finite_is_Fin _ Hs). simpl. f_equal. unfold Qcdiv. ring.
Qed.

Lemma spec_annual_valid_mean (ss : list sample) :
  (forall s, In s ss -> 0 < duration s)%Z ->
  Forall (fun s => nan_or_finite (value s) = true) ss ->
  spec_annual not_nan ss = valid_duration_mean ss.
Proof.
  intros Hpos Hnf. unfold spec_annual, valid_duration_mean.
  set (vs := filter (fun s => not_nan (value s)) ss).
  assert (Hsub : forall s, In s vs -> In s ss /\ isfinite (value s) = true).
  { intros s Hs. apply filter_In in Hs. destruct Hs as [Hs Hn].
    split; [exact Hs|]. rewrite Forall_forall in Hnf. specialize (Hnf _ Hs).
    unfold nan_or_finite in Hnf. unfold not_nan in Hn.
    destruct (isnan (value s)); [discriminate|exact Hnf]. }
  destruct vs as [|s0 vs0] eqn:Evs; [reflexivity|]. rewrite <- Evs in *.
  assert (Hs0 : In s0 vs) by (rewrite Evs; left; reflexivity).
  assert (HD : (0 < total_duration ss)%Z).
  { apply (@total_duration_pos ss s0 Hpos). apply Hsub. exact Hs0. }
  assert (HDv : (0 < total_duration vs)%Z).
  { apply (@total_duration_pos vs s0); [|exact Hs0].
    intros s Hs. apply Hpos. apply Hsub. exact Hs. }
  rewrite fsum_weighted_finite, fsum_spec_weights by
    (try (apply Forall_forall; intros s Hs; apply Hsub; exact Hs); lia).
  pose proof (qint_neq0 (z := total_duration ss) ltac:(lia)) as HqD.
  pose proof (qint_neq0 (z := total_duration vs) ltac:(lia)) as HqV.
  simpl.
  assert (Hne : (qint (total_duration vs) / qint (total_duration ss))%Qc
                <> 0%Qc).
  { intros E. apply HqV.
    rewrite <- (@Qcmult_div_r (qint (total_duration vs))
                  (qint (total_duration ss))) by exact HqD.
    rewrite E. ring. }
  apply Qc_eqb_false in Hne. rewrite Hne. f_equal. field. split; assumption.
Qed.

(** X7.  For a well-formed dataset with positive durations and a strictly
    increasing time axis whose values are finite or NaN, the annual value
    at every (lat, lon) point, for every calendar year from the first to
    the last, is the mean of the samples of the year that are not NaN,
    each weighted by its own duration:
    (sum of value_i * duration_i) / (sum of duration_i),
    both sums over the valid samples; the normalisation of the weights by
    the total duration of the year cancels out.  The value is NaN exactly
    when the year holds no valid sample at that point. *)
Theorem weighted_temporal_mean_valid_durations (ds : Dataset) :
  wf_dataset ds -> positive_durations ds -> finite_or_missing ds ->
  increasing (ds_time ds) -> ds_time ds <> [] ->
  annual_ratio ds
  = Ok (map (fun y => grid_of (ds_nlat ds) (ds_nlon ds) (fun i j =>
               valid_duration_mean (samples_of_year ds i j y)))
            (calendar_years (ds_time ds)))
  /\ weighted_temporal_mean ds
     = Ok (map (fun y =>
             (new_year y,
              valid_mean (concat (grid_of (ds_nlat ds) (ds_nlon ds)
                (fun i j => valid_duration_mean (samples_of_year ds i j y))))))
             (calendar_years (ds_time ds))).
Proof.
  intros Hwf Hpos Hnf Hinc Hne.
  apply (weighted_temporal_mean_spec valid_duration_mean Hwf Hpos Hinc Hne).
  intros i j y Hi Hj Hy. rewrite <- (year_samples_spec i j y Hwf).
  apply spec_annual_valid_mean.
  - apply year_samples_durations. exact Hpos.
  - apply (@year_samples_values (fun v => nan_or_finite v = true));
      assumption.
Qed.

Lemma weighted_temporal_mean_valid_durations_witness :
  annual_ratio sample_obs_gaps
  = Ok (map (fun y => grid_of 1 2 (fun i j =>
               valid_duration_mean (samples_of_year sample_obs_gaps i j y)))
            (calendar_years (ds_time sample_obs_gaps)))
  /\ weighted_temporal_mean sample_obs_gaps
     = Ok (map (fun y =>
             (new_year y,
              valid_mean (concat (grid_of 1 2 (fun i j =>
                valid_duration_mean (samples_of_year sample_obs_gaps i j y))))))
             (calendar_years (ds_time sample_obs_gaps))).
Proof.
  apply (@weighted_temporal_mean_valid_durations sample_obs_gaps).
  - unfold wf_dataset, has_shape. simpl. repeat split; repeat constructor.
  - unfold positive_durations. simpl. repeat constructor.
  - unfold finite_or_missing. simpl. repeat constructor.
  - exact sample_obs_increasing.
  - discriminate.
Defined.

(* ------------------------------------------------------------------ *)
(** ** A constant field with gaps *)

Lemma qsum_constant_durations (c : Qc) (vs : list sample) :
  Forall (fun s => value s = Fin c) vs ->
  qsum (map (fun s => to_Qc (value s) * qint (duration s))%Qc vs)
  = (c * qint (total_duration vs))%Qc.
Proof.
  unfold total_duration. induction 1 as [|s vs Hs _ IH].
  - simpl. change (qint 0) with 0%Qc. ring.
  - cbn [map qsum fold_right]. rewrite qint_add.
    fold (qsum (map (fun s => to_Qc (value s) * qint (duration s))%Qc vs)).
    rewrite IH, Hs. simpl. ring.
Qed.

Lemma valid_duration_mean_constant (c : Qc) (ss : list sample) :
  (forall s, In s ss -> 0 < duration s)%Z ->
  Forall (fun s => value s = NaN \/ value s = Fin c) ss ->
  valid_duration_mean ss = if has_valid ss then Fin c else NaN.
Proof.
  intros Hpos Hc. unfold valid_duration_mean, has_valid.
  set (vs := filter (fun s => not_nan (value s)) ss).
  assert (Hsub : forall s, In s vs -> In s ss /\ value s = Fin c).
  { intros s Hs. apply filter_In in Hs. destruct Hs as [Hs Hn].
    split; [exact Hs|]. rewrite Forall_forall in Hc.
    destruct (Hc _ Hs) as [E|E]; [|exact E].
    rewrite E in Hn. discriminate. }
  destruct vs as [|s0 vs0] eqn:Evs.
  - destruct (existsb _ ss) eqn:Ex; [|reflexivity].
    apply existsb_exists in Ex. destruct Ex as [s [Hs Hn]].
    assert (Hin : In s vs) by (apply filter_In; auto).
    rewrite Evs in Hin. destruct Hin.
  - rewrite <- Evs in *.
    assert (Hs0 : In s0 vs) by (rewrite Evs; left; reflexivity).
    assert (Ex : existsb (fun s => not_nan (value s)) ss = true).
    { apply existsb_exists. exists s0. apply filter_In in Hs0. exact Hs0. }
    rewrite Ex, (@qsum_constant_durations c)
      by (apply Forall_forall; intros s Hs; apply Hsub; exact Hs).
    assert (HDv : (0 < total_duration vs)%Z).
    { apply (@total_duration_pos vs s0); [|exact Hs0].
      intros s Hs. apply Hpos. apply Hsub. exact Hs. }
    f_equal. field. apply qint_neq0. lia.
Qed.

Lemma nansum_constant (c : Qc) (l : list float) :
  Forall (fun v => v = NaN \/ v = Fin c) l ->
  nansum l = Fin (qint (Z.of_nat (count_valid l)) * c).
Proof.
  unfold nansum, count_valid. induction 1 as [|v l Hv _ IH].
  - simpl. change (qint 0) with 0%Qc. f_equal. ring.
  - cbn [map fsum fold_right filter].
    fold (fsum (map fillna0 l)). rewrite IH.
    destruct Hv as [-> | ->]; cbn [isnan negb fillna0 length].
    + simpl. f_equal. ring.
    + rewrite qint_succ. simpl. f_equal. ring.
Qed.

Lemma nanmean_constant (c : Qc) (l : list float) :
  Forall (fun v => v = NaN \/ v = Fin c) l ->
  nanmean l = NaN \/ nanmean l = Fin c.
Proof.
  intros H. unfold nanmean. rewrite (nansum_constant H).
  set (k := count_valid l). unfold of_Z. fold (qint (Z.of_nat k)).
  simpl. destruct (Qc_eqb (qint (Z.of_nat k)) 0) eqn:Ek.
  - left. apply Qc_eqb_true in Ek. rewrite Ek.
    replace (Qc_eqb (0 * c) 0) with true
      by (symmetry; apply Qc_eqb_true; ring).
    reflexivity.
  - right. apply Qc_eqb_false in Ek. f_equal. field. exact Ek.
Qed.

(** X8.  On a well-formed dataset with positive durations and a strictly
    increasing time axis whose values all equal one constant [c] or are
    NaN, the annual value at a point is [c] when the year holds a valid
    sample there and NaN otherwise, however the gaps fall, and every value
    of the returned series is [c] or NaN: a missing month is never
    averaged in as a zero. *)
Theorem weighted_temporal_mean_constant (c : Qc) (ds : Dataset) :
  wf_dataset ds -> positive_durations ds -> constant_or_missing c ds ->
  increasing (ds_time ds) -> ds_time ds <> [] ->
  annual_ratio ds
  = Ok (map (fun y => grid_of (ds_nlat ds) (ds_nlon ds) (fun i j =>
               if has_valid (samples_of_year ds i j y) then Fin c else NaN))
            (calendar_years (ds_time ds)))
  /\ exists s, weighted_temporal_mean ds = Ok s
       /\ map fst s = map new_year (calendar_years (ds_time ds))
       /\ Forall (fun p => snd p = NaN \/ snd p = Fin c) s.
Proof.
  intros Hwf Hpos Hc Hinc Hne.
  destruct (@weighted_temporal_mean_spec ds
              (fun ss => if has_valid ss then Fin c else NaN)
              Hwf Hpos Hinc Hne) as [H1 H2].
  { intros i j y Hi Hj Hy. rewrite <- (year_samples_spec i j y Hwf).
    pose proof (@year_samples_values (fun v => v = NaN \/ v = Fin c)
                  ds i j y Hwf Hi Hj Hc) as Hv.
    rewrite spec_annual_valid_mean.
    - apply valid_duration_mean_constant; [|exact Hv].
      apply year_samples_durations. exact Hpos.
    - apply year_samples_durations. exact Hpos.
    - eapply Forall_impl; [|exact Hv]. simpl.
      intros s [-> | ->]; reflexivity. }
  split; [exact H1|]. eexists. split; [exact H2|]. split.
  - rewrite map_map. reflexivity.
  - apply Forall_forall. intros [l v] Hp. apply in_map_iff in Hp.
    destruct Hp as [y [E _]]. injection E as _ <-. cbn [snd].
    rewrite <- nanmean_valid_mean. apply nanmean_constant.
    apply Forall_forall. intros v Hin.
    unfold grid_of in Hin. apply in_concat in Hin.
    destruct Hin as [row [Hrow Hin]]. apply in_map_iff in Hrow.
    destruct Hrow as [i [<- _]]. apply in_map_iff in Hin.
    destruct Hin as [j [<- _]].
    destruct (has_valid _); auto.
Qed.

Lemma weighted_temporal_mean_constant_witness :
  annual_ratio sample_obs_constant
  = Ok (map (fun y => grid_of 1 2 (fun i j =>
               if has_valid (samples_of_year sample_obs_constant i j y)
               then Fin (Q2Qc (7 # 2)) else NaN))
            (calendar_years (ds_time sample_obs_constant)))
  /\ exists s, weighted_temporal_mean sample_obs_constant = Ok s
       /\ map fst s
          = map new_year (calendar_years (ds_time sample_obs_constant))
       /\ Forall (fun p => snd p = NaN \/ snd p = Fin (Q2Qc (7 # 2))) s.
Proof.
  apply (@weighted_temporal_mean_constant (Q2Qc (7 # 2)) sample_obs_constant).
  - unfold wf_dataset, has_shape. simpl. repeat split; repeat constructor.
  - unfold positive_durations. simpl. repeat constructor.
  - unfold constant_or_missing. simpl.
    repeat constructor; try (left; reflexivity); right; reflexivity.
  - exact sample_obs_increasing.
  - discriminate.
Defined.

(* ------------------------------------------------------------------ *)
(** ** The years of the annual series *)

Lemma zrange_succ (a : Z) (n : nat) : zrange a (S n) = a :: zrange (a + 1) n.
Proof.
  unfold zrange. cbn [seq map]. f_equal; [lia|].
  rewrite <- seq_shift, map_map. apply map_ext. intros k. lia.
Qed.

Lemma filter_zrange (c : Z) (n : nat) (a : Z) :
  filter (fun y => (c <=? y)%Z) (zrange a n)
  = zrange (Z.max c a) (Z.to_nat (a + Z.of_nat n - Z.max c a)).
Proof.
  revert a. induction n as [|n IH]; intros a.
  - replace (Z.to_nat (a + Z.of_nat 0 - Z.max c a)) with 0%nat by lia.
    reflexivity.
  - rewrite zrange_succ. cbn [filter]. rewrite IH.
    destruct (Z.leb_spec c a) as [Hle|Hgt].
    + rewrite (Z.max_r c a) by lia. rewrite (Z.max_r c (a + 1)) by lia.
      replace (Z.to_nat (a + Z.of_nat (S n) - a)) with (S n) by lia.
      replace (Z.to_nat (a + 1 + Z.of_nat n - (a + 1))) with n by lia.
      rewrite zrange_succ. reflexivity.
    + rewrite (Z.max_l c a) by lia. rewrite (Z.max_l c (a + 1)) by lia.
      f_equal. lia.
Qed.

Lemma obs_years_series_from (y0 : Z) (s : list (datetime * float)) :
  obs_years (series_from y0 s)
  = filter (fun y => (y0 <=? y)%Z) (map year (map fst s)).
Proof.
  unfold obs_years, series_from. rewrite map_map.
  induction s as [|p l IH]; simpl; [reflexivity|].
  destruct (y0 <=? year (fst p))%Z; simpl; rewrite IH; reflexivity.
Qed.

Lemma before_not_leb (a b : datetime) : before b a -> date_leb a b = false.
Proof.
  unfold before, date_leb. intros H.
  destruct (Z.ltb_spec (year a) (year b)); [lia|].
  destruct (Z.eqb_spec (year a) (year b)); [|reflexivity].
  destruct (Z.ltb_spec (month a) (month b)); [lia|].
  destruct (Z.eqb_spec (month a) (month b)); [|reflexivity].
  simpl. apply Z.leb_gt. lia.
Qed.

(** An axis on which some stamp is strictly earlier than the one before
    it fails the monotonicity test. *)
Lemma not_monotonic (d : datetime) (time : list datetime) (k : nat) :
  (S k < length time)%nat ->
  before (nth (S k) time d) (nth k time d) ->
  is_monotonic_increasing time = false.
Proof.
  revert k. induction time as [|a l IH]; intros k Hk Hb;
    [simpl in Hk; lia|].
  destruct l as [|b l']; [simpl in Hk; lia|].
  change (date_leb a b && is_monotonic_increasing (b :: l') = false).
  destruct k as [|k].
  - simpl in Hb. rewrite (before_not_leb Hb). reflexivity.
  - rewrite (IH k); [apply andb_false_r| |exact Hb].
    simpl in Hk |- *. lia.
Qed.

(** X9.  [weighted_temporal_mean] raises ValueError on an empty time axis
    and on one where some stamp is strictly earlier than the one before
    it.  On a strictly increasing axis the returned series is indexed by
    1 January of every year from the first to the last year of the time
    axis, without a gap even where the data have one, and after
    [obs_s[str(y0):]] the years read off its index are the consecutive
    years from the later of [y0] and the first year to the last year. *)
Theorem weighted_temporal_mean_years (ds : Dataset) (y0 : Z) :
  (ds_time ds = [] -> weighted_temporal_mean ds = Raise ValueError)
  /\ (forall k, (S k < length (ds_time ds))%nat ->
        before (nth (S k) (ds_time ds) (mkdate 0 1 1))
               (nth k (ds_time ds) (mkdate 0 1 1)) ->
        weighted_temporal_mean ds = Raise ValueError)
  /\ (increasing (ds_time ds) -> ds_time ds <> [] ->
      exists s, weighted_temporal_mean ds = Ok s
        /\ map fst s = map new_year (calendar_years (ds_time ds))
        /\ obs_years (series_from y0 s)
           = years_between (Z.max y0 (first_year (ds_time ds)))
                           (last_year (ds_time ds))).
Proof.
  unfold weighted_temporal_mean, annual_ratio, obs_sum, ones_out,
    resample_values.
  split; [|split].
  - intros E. rewrite E. reflexivity.
  - intros k Hk Hb. unfold check_time_index.
    rewrite (not_monotonic _ _ Hk Hb).
    destruct (ds_time ds); reflexivity.
  - intros Hinc Hne. rewrite (check_time_index_ok Hinc Hne). cbn [bind].
    eexists. split; [reflexivity|].
    assert (Hl : forall (r : list grid),
              length r = length (bin_range AS (ds_time ds)) ->
              map fst (combine (map bin_label (bin_range AS (ds_time ds)))
                               (map (fun g => nanmean (flatten g)) r))
              = map new_year (calendar_years (ds_time ds))).
    { intros r Hr. rewrite map_fst_combine_eq by (rewrite !length_map; lia).
      rewrite (bin_range_AS_calendar Hne), map_map.
      apply map_ext. intros y. apply bin_label_new_year. }
    rewrite obs_years_series_from, Hl.
    + split; [reflexivity|].
      rewrite map_map. cbn [new_year year]. rewrite map_id.
      unfold calendar_years, years_between. rewrite filter_zrange.
      assert (Hab : (first_year (ds_time ds) <= last_year (ds_time ds))%Z).
      { unfold first_year, last_year.
        destruct (map year (ds_time ds)); [lia|apply fold_min_le_max]. }
      f_equal. lia.
    + unfold div_time, resample_bins.
      rewrite length_map, length_combine, !length_map. lia.
Qed.

Lemma weighted_temporal_mean_years_witness :
  exists s, weighted_temporal_mean sample_obs_gaps = Ok s
    /\ map fst s = map new_year (calendar_years (ds_time sample_obs_gaps))
    /\ obs_years (series_from 2001 s)
       = years_between (Z.max 2001 (first_year (ds_time sample_obs_gaps)))
                       (last_year (ds_time sample_obs_gaps)).
Proof.
  apply (proj2 (proj2 (weighted_temporal_mean_years sample_obs_gaps 2001))).
  - exact sample_obs_increasing.
  - discriminate.
Defined.

(* ------------------------------------------------------------------ *)
(** ** A year without data in the global mean *)

Lemma cell_all_nan (g : grid) (i j : nat) :
  Forall (fun v => v = NaN) (flatten g) -> cell g i j = NaN.
Proof.
  intros H. unfold cell.
  destruct (Nat.lt_ge_cases i (length g)) as [Hi|Hi].
  - destruct (Nat.lt_ge_cases j (length (nth i g []))) as [Hj|Hj].
    + rewrite Forall_forall in H. apply H. unfold flatten. apply in_concat.
      exists (nth i g []). split; apply nth_In; assumption.
    + apply nth_overflow. exact Hj.
  - rewrite (nth_overflow g [] Hi). destruct j; reflexivity.
Qed.

Lemma nansum_all_nan (l : list float) :
  Forall (fun v => v = NaN) l -> nansum l = Fin 0.
Proof.
  unfold nansum. induction 1 as [|v l Hv _ IH]; [reflexivity|].
  cbn [map fsum fold_right]. fold (fsum (map fillna0 l)).
  rewrite IH, Hv. apply fadd_0_l.
Qed.

Lemma nanmean_all_nan (l : list float) :
  Forall (fun v => v = NaN) l -> nanmean l = NaN.
Proof.
  intros H. unfold nanmean. rewrite (nansum_all_nan H).
  assert (Hc : count_valid l = 0%nat).
  { unfold count_valid. induction H as [|v l Hv _ IH]; [reflexivity|].
    simpl. rewrite Hv. simpl. exact IH. }
  rewrite Hc. reflexivity.
Qed.

Lemma reduce_group_all_nan (nlat nlon : nat) (gs : list grid) :
  Forall (fun g => Forall (fun v => v = NaN) (flatten g)) gs ->
  reduce_group nanmean nlat nlon gs = tabulate nlat nlon (fun _ _ => NaN).
Proof.
  intros H. destruct gs as [|g gs]; [reflexivity|].
  unfold reduce_group, reduce_time. apply tabulate_ext. intros i j _ _.
  apply nanmean_all_nan. rewrite Forall_map.
  eapply Forall_impl; [|exact H]. simpl. intros g0 Hg0.
  apply cell_all_nan. exact Hg0.
Qed.

Lemma weighted_cell_all_nan (g w : grid) :
  Forall (fun v => v = NaN) (flatten g) ->
  Forall (fun v => isfinite v = true) (flatten w) ->
  weight_sum w <> 0%Qc ->
  (nansum (flatten (grid_zip fmul g w)) / total_area w)%float = Fin 0.
Proof.
  intros Hg Hw Hs. rewrite flatten_grid_zip, nansum_all_nan.
  - unfold total_area. rewrite (nansum_finite Hw). simpl.
    fold (weight_sum w). apply Qc_eqb_false in Hs. rewrite Hs.
    f_equal. unfold Qcdiv. ring.
  - rewrite Forall_map. apply Forall_forall. intros p Hp.
    destruct (in_paired_cells _ _ _ Hp) as [Hf _].
    rewrite Forall_forall in Hg. rewrite (Hg _ Hf). reflexivity.
Qed.

Lemma flatten_tabulate_const (nlat nlon : nat) (v : float) :
  Forall (fun u => u = v) (flatten (tabulate nlat nlon (fun _ _ => v))).
Proof.
  apply Forall_forall. intros u Hu. unfold flatten, tabulate in Hu.
  apply in_concat in Hu. destruct Hu as [row [Hrow Hin]].
  apply in_map_iff in Hrow. destruct Hrow as [i [<- _]].
  apply in_map_iff in Hin. destruct Hin as [j [<- _]]. reflexivity.
Qed.

Lemma nth_error_zrange (a : Z) (n k : nat) :
  (k < n)%nat -> nth_error (zrange a n) k = Some (a + Z.of_nat k)%Z.
Proof.
  intros Hk. unfold zrange. rewrite nth_error_map.
  rewrite (nth_error_nth' _ 0%nat) by (rewrite length_seq; exact Hk).
  rewrite seq_nth by exact Hk. reflexivity.
Qed.

(** X10.  On a strictly increasing time axis, a year between the first
    and the last one whose samples are all NaN everywhere, or which has no
    sample at all, comes out of [t_20c_ts] with the global mean 0 for
    every member (cell areas finite with a nonzero total): the missing
    annual mean is skipped by the sum over (lat, lon), which then is 0,
    not NaN. *)
Theorem t_20c_ts_missing_year (t : DataArray) (cell_area : grid) (y : Z) :
  increasing (time t) -> time t <> [] ->
  Forall (fun v => isfinite v = true) (flatten cell_area) ->
  weight_sum cell_area <> 0%Qc ->
  (first_year (time t) <= y <= last_year (time t))%Z ->
  (forall xs s g, In xs (values t) -> In (s, g) (combine (time t) xs) ->
     year s = y -> Forall (fun v => v = NaN) (flatten g)) ->
  exists ts, t_20c_ts t cell_area = Ok ts
    /\ Forall (fun row =>
                 nth_error row (Z.to_nat (y - first_year (time t)))
                 = Some (Fin 0)) ts.
Proof.
  intros Hinc Hne Hw Hs Hy Hnan. unfold t_20c_ts, resample.
  rewrite (check_time_index_ok Hinc Hne). cbn [bind].
  eexists. split; [reflexivity|].
  unfold weighted_reduce. cbn [values resampled].
  rewrite map_map. rewrite Forall_map.
  apply Forall_forall. intros xs Hxs. unfold resample_bins.
  rewrite map_map. rewrite nth_error_map.
  rewrite (bin_range_AS_calendar Hne), nth_error_map.
  unfold calendar_years, years_between.
  rewrite nth_error_zrange by lia. cbn [option_map]. f_equal.
  replace (first_year (time t) + Z.of_nat (Z.to_nat (y - first_year (time t))))%Z
    with y by lia.
  rewrite reduce_group_all_nan.
  - apply weighted_cell_all_nan; try assumption.
    apply flatten_tabulate_const.
  - apply Forall_forall. intros g Hg. unfold group in Hg.
    apply in_map_iff in Hg. destruct Hg as [[s g'] [E Hin]].
    cbn [snd] in E. subst g'. apply filter_In in Hin.
    destruct Hin as [Hin Hb]. cbn [fst] in Hb. apply Z.eqb_eq in Hb.
    unfold bin_start in Hb. apply (Hnan xs s g Hxs Hin). lia.
Qed.

Lemma t_20c_ts_missing_year_witness :
  exists ts, t_20c_ts sample_t_gap_year sample_area = Ok ts
    /\ Forall (fun row =>
                 nth_error row
                   (Z.to_nat (2001 - first_year (time sample_t_gap_year)))
                 = Some (Fin 0)) ts.
Proof.
  apply (@t_20c_ts_missing_year sample_t_gap_year sample_area 2001%Z).
  - unfold increasing, before. repeat constructor; simpl; lia.
  - discriminate.
  - unfold sample_area. repeat constructor.
  - float_eval.
  - vm_compute. split; discriminate.
  - intros xs s g Hxs Hin Hy. simpl in Hxs. destruct Hxs as [<-|[]].
    simpl in Hin. destruct Hin as [E|[E|[]]]; injection E as <- _;
      discriminate Hy.
Defined.

(** The global means of that field: 30 in 2000, 0 in the empty year 2001,
    45 in 2002. *)
Example t_20c_ts_gap_year_value :
  t_20c_ts sample_t_gap_year sample_area
  = Ok [[fin 30 1; fin 0 1; fin 45 1]].
Proof.
  apply (ok_by (list_eqb (list_eqb eqb)) _ _ series_eqb_eq).
  vm_compute. reflexivity.
Qed.

(* ------------------------------------------------------------------ *)
(** ** The weighted mean lies between the extremes *)

Lemma qsum_nonneg (l : list Qc) :
  Forall (fun q => (0 <= q)%Qc) l -> (0 <= qsum l)%Qc.
Proof.
  induction 1 as [|q l Hq _ IH]; simpl.
  - apply Qcle_refl.
  - apply Qcplus_nonneg; assumption.
Qed.

Lemma weighted_sum_bounds (lo hi : Qc) (ps : list (float * float)) :
  Forall (fun p => ((lo <= to_Qc (fst p))%Qc /\ (to_Qc (fst p) <= hi)%Qc)
                   /\ (0 <= to_Qc (snd p))%Qc) ps ->
  (lo * qsum (map (fun p => to_Qc (snd p)) ps)
   <= qsum (map (fun p => to_Qc (fst p) * to_Qc (snd p)) ps))%Qc
  /\ (qsum (map (fun p => to_Qc (fst p) * to_Qc (snd p)) ps)
      <= hi * qsum (map (fun p => to_Qc (snd p)) ps))%Qc.
Proof.
  induction 1 as [|[f w] ps [[Hlo Hhi] Hw] _ [IH1 IH2]]; cbn [map qsum fold_right].
  - replace (lo * 0)%Qc with 0%Qc by ring.
    replace (hi * 0)%Qc with 0%Qc by ring. split; apply Qcle_refl.
  - fold (qsum (map (fun p => to_Qc (snd p)) ps)).
    fold (qsum (map (fun p => to_Qc (fst p) * to_Qc (snd p))%Qc ps)).
    cbn [fst snd] in *.
    set (W := qsum (map (fun p => to_Qc (snd p)) ps)) in *.
    set (S := qsum (map (fun p => to_Qc (fst p) * to_Qc (snd p))%Qc ps)) in *.
    split.
    + replace (lo * (to_Qc w + W))%Qc with (lo * to_Qc w + lo * W)%Qc by ring.
      apply Qcplus_le_compat; [|exact IH1].
      apply Qcmult_le_compat_r; assumption.
    + replace (hi * (to_Qc w + W))%Qc with (hi * to_Qc w + hi * W)%Qc by ring.
      apply Qcplus_le_compat; [|exact IH2].
      apply Qcmult_le_compat_r; assumption.
Qed.

Lemma Qcdiv_between (lo hi s w : Qc) :
  (0 < w)%Qc -> (lo * w <= s)%Qc -> (s <= hi * w)%Qc ->
  (lo <= s / w)%Qc /\ (s / w <= hi)%Qc.
Proof.
  intros Hw H1 H2. pose proof (Qclt_not_eq _ _ Hw) as Hne.
  assert (E : (s / w * w)%Qc = s) by (field; congruence).
  split; apply Qcmult_lt_0_le_reg_r with (z := w); try exact Hw;
    rewrite E; assumption.
Qed.

(** X11.  With non-negative finite cell areas of nonzero total, the global
    mean of a field with finite values lies between the smallest and the
    largest value of the slab it is taken from: if every value is in
    [[lo, hi]], so is every global mean. *)
Theorem weighted_reduce_between (x : list (list grid)) (cell_area : grid)
    (lo hi : Qc) :
  field_on isfinite cell_area x ->
  Forall (fun v => isfinite v = true /\ (0 <= to_Qc v)%Qc) (flatten cell_area) ->
  weight_sum cell_area <> 0%Qc ->
  Forall (Forall (fun g =>
            Forall (fun v => (lo <= to_Qc v)%Qc /\ (to_Qc v <= hi)%Qc)
                   (flatten g))) x ->
  Forall (Forall (fun v => exists q, v = Fin q /\ (lo <= q)%Qc /\ (q <= hi)%Qc))
         (weighted_reduce x cell_area).
Proof.
  intros Hx Hw Hs Hb. unfold weighted_reduce.
  assert (Hwf : Forall (fun v => isfinite v = true) (flatten cell_area)).
  { eapply Forall_impl; [|exact Hw]. simpl. tauto. }
  assert (HW : (0 < weight_sum cell_area)%Qc).
  { assert (H0 : (0 <= weight_sum cell_area)%Qc).
    { unfold weight_sum. apply qsum_nonneg. rewrite Forall_map.
      eapply Forall_impl; [|exact Hw]. simpl. tauto. }
    destruct (Qcle_lt_or_eq _ _ H0) as [H|H]; [exact H|congruence]. }
  unfold field_on in Hx. rewrite Forall_forall in Hx, Hb.
  rewrite Forall_map. apply Forall_forall. intros row Hrow.
  specialize (Hx _ Hrow). specialize (Hb _ Hrow).
  rewrite Forall_forall in Hx, Hb.
  rewrite Forall_map. apply Forall_forall. intros g Hg.
  destruct (Hx _ Hg) as [Hsh Hfin]. specialize (Hb _ Hg).
  rewrite weighted_cell; try assumption.
  2:{ eapply Forall_impl; [|exact Hfin]. apply finite_nan_or_finite. }
  rewrite valid_weighted_sum_finite by assumption.
  eexists. split; [reflexivity|].
  assert (Hps : Forall (fun p =>
            ((lo <= to_Qc (fst p))%Qc /\ (to_Qc (fst p) <= hi)%Qc)
            /\ (0 <= to_Qc (snd p))%Qc) (paired_cells g cell_area)).
  { apply Forall_forall. intros p Hp.
    destruct (in_paired_cells _ _ _ Hp) as [Hf Hc].
    rewrite Forall_forall in Hb, Hw. split; [apply Hb; exact Hf|].
    apply Hw. exact Hc. }
  destruct (weighted_sum_bounds Hps) as [B1 B2].
  assert (EW : qsum (map (fun p => to_Qc (snd p)) (paired_cells g cell_area))
               = weight_sum cell_area).
  { unfold weight_sum. rewrite <- (paired_cells_snd Hsh), map_map.
    reflexivity. }
  rewrite EW in B1, B2. apply Qcdiv_between; assumption.
Qed.

Lemma weighted_reduce_between_witness :
  Forall (Forall (fun v => exists q, v = Fin q
                    /\ (Q2Qc 10 <= q)%Qc /\ (q <= Q2Qc 40)%Qc))
         (weighted_reduce sample_field sample_area).
Proof.
  apply (@weighted_reduce_between sample_field sample_area (Q2Qc 10) (Q2Qc 40)).
  - unfold field_on, sample_field. repeat constructor.
  - unfold sample_area. repeat constructor; discriminate.
  - float_eval.
  - unfold sample_field. repeat constructor; discriminate.
Defined.

(* ------------------------------------------------------------------ *)
(** ** The reference period inside the annual series *)

Lemma filter_le_zrange (c : Z) (n : nat) (a : Z) :
  filter (fun y => (y <=? c)%Z) (zrange a n)
  = zrange a (Z.to_nat (Z.min (Z.of_nat n) (c - a + 1))).
Proof.
  revert a. induction n as [|n IH]; intros a.
  - replace (Z.to_nat (Z.min (Z.of_nat 0) (c - a + 1))) with 0%nat by lia.
    reflexivity.
  - rewrite zrange_succ. cbn [filter]. rewrite IH.
    destruct (Z.leb_spec a c) as [Hle|Hgt].
    + replace (Z.to_nat (Z.min (Z.of_nat (S n)) (c - a + 1)))
        with (S (Z.to_nat (Z.min (Z.of_nat n) (c - (a + 1) + 1)))) by lia.
      rewrite zrange_succ. reflexivity.
    + replace (Z.to_nat (Z.min (Z.of_nat n) (c - (a + 1) + 1))) with 0%nat by lia.
      replace (Z.to_nat (Z.min (Z.of_nat (S n)) (c - a + 1))) with 0%nat by lia.
      reflexivity.
Qed.

Lemma years_in_window (a b lo hi : Z) :
  (lo <= a)%Z -> (a <= b)%Z -> (b <= hi)%Z ->
  filter (fun y => in_years a b (bin_label (12 * y))) (years_between lo hi)
  = years_between a b.
Proof.
  intros H1 H2 H3.
  rewrite (filter_ext _ (fun y => (y <=? b)%Z && (a <=? y)%Z)).
  2:{ intros y. rewrite bin_label_new_year. unfold in_years, new_year.
      cbn [year]. apply andb_comm. }
  rewrite <- filter_and. unfold years_between.
  rewrite filter_zrange, filter_le_zrange.
  rewrite (Z.max_l a lo) by lia. f_equal. lia.
Qed.

Lemma window_years (a b : Z) (time : list datetime) :
  (exists s, In s time /\ year s = a) ->
  (exists s, In s time /\ year s = b) ->
  (a <= b)%Z ->
  first_year (filter (in_years a b) time) = a
  /\ last_year (filter (in_years a b) time) = b
  /\ filter (in_years a b) time <> []
  /\ (first_year time <= a)%Z /\ (b <= last_year time)%Z /\ time <> [].
Proof.
  intros [s1 [Hs1 Hy1]] [s2 [Hs2 Hy2]] Hab.
  set (sel := filter (in_years a b) time).
  assert (H1 : In s1 sel).
  { apply filter_In. split; [assumption|]. unfold in_years.
    apply andb_true_iff. split; apply Z.leb_le; lia. }
  assert (H2 : In s2 sel).
  { apply filter_In. split; [assumption|]. unfold in_years.
    apply andb_true_iff. split; apply Z.leb_le; lia. }
  assert (Hsel : forall y, In y (map year sel) -> (a <= y <= b)%Z).
  { intros y Hy. apply in_map_iff in Hy. destruct Hy as [s [<- Hs]].
    apply filter_In in Hs. destruct Hs as [_ Hs]. unfold in_years in Hs.
    apply andb_true_iff in Hs. destruct Hs as [Ha Hb].
    apply Z.leb_le in Ha, Hb. lia. }
  unfold first_year, last_year.
  pose proof (in_map year _ _ H1) as M1. pose proof (in_map year _ _ H2) as M2.
  pose proof (in_map year _ _ Hs1) as N1. pose proof (in_map year _ _ Hs2) as N2.
  destruct (map year sel) as [|y ys] eqn:E; [destruct M1|].
  destruct (map year time) as [|z zs] eqn:F; [destruct N1|].
  destruct (fold_min_spec y ys) as [Lin Lle].
  destruct (fold_max_spec y ys) as [Uin Ule].
  destruct (fold_min_spec z zs) as [_ Lle'].
  destruct (fold_max_spec z zs) as [_ Ule'].
  rewrite Forall_forall in Lle, Ule, Lle', Ule'.
  pose proof (Hsel _ Lin). pose proof (Hsel _ Uin).
  pose proof (Lle _ M1). pose proof (Ule _ M2).
  pose proof (Lle' _ N1). pose proof (Ule' _ N2).
  repeat split; try lia.
  - intros E0. rewrite E0 in H1. destruct H1.
  - intros E0. rewrite E0 in Hs1. destruct Hs1.
Qed.

(** Selecting the reference years before the annual resample, or the
    entries of those years after it, gives the same global means. *)
Lemma reference_window (t : DataArray) (cell_area : grid) :
  (exists s, In s (time t) /\ year s = 1961%Z) ->
  (exists s, In s (time t) /\ year s = 1990%Z) ->
  time (resampled AS nanmean (sel_time (in_years 1961 1990) t))
  = map new_year (years_between 1961 1990)
  /\ weighted_reduce
       (values (resampled AS nanmean (sel_time (in_years 1961 1990) t)))
       cell_area
     = map (fun row =>
              map snd (filter (fun q => in_years 1961 1990 (fst q))
                              (combine (time (resampled AS nanmean t)) row)))
           (weighted_reduce (values (resampled AS nanmean t)) cell_area).
Proof.
  intros H1 H2.
  assert (Hab : (1961 <= 1990)%Z) by lia.
  destruct (@window_years 1961 1990 (time t) H1 H2 Hab)
    as [Ef [El [Hne [Hlo [Hhi Hne']]]]].
  assert (Eb' : bin_range AS (filter (in_years 1961 1990) (time t))
                = map (Z.mul 12) (years_between 1961 1990)).
  { rewrite bin_range_AS_years, Ef, El.
    destruct (filter (in_years 1961 1990) (time t)); [congruence|reflexivity]. }
  assert (Eb : filter (fun b => in_years 1961 1990 (bin_label b))
                      (bin_range AS (time t))
               = map (Z.mul 12) (years_between 1961 1990)).
  { rewrite bin_range_AS_years.
    destruct (time t) as [|t0 T0] eqn:ET; [congruence|]. rewrite <- ET in *.
    rewrite filter_map_comm. f_equal.
    apply years_in_window; lia. }
  split.
  - cbn [time sel_time resampled]. rewrite Eb', map_map.
    apply map_ext. intros y. apply bin_label_new_year.
  - unfold weighted_reduce.
    cbn [time values nlat nlon sel_time resampled].
    rewrite !map_map. apply map_ext. intros xs.
    unfold resample_bins. rewrite Eb', !map_map.
    rewrite (sel_mapped bin_label _ (in_years 1961 1990)), Eb, map_map.
    apply map_ext_in. intros y Hy.
    assert (Eg : group AS (12 * y)
                   (filter (in_years 1961 1990) (time t))
                   (map snd (filter (fun q : datetime * grid =>
                                       in_years 1961 1990 (fst q))
                                    (combine (time t) xs)))
                 = group AS (12 * y) (time t) xs).
    { unfold group. rewrite combine_sel, filter_and. f_equal.
      apply filter_ext. intros [s x]. cbn [fst].
      unfold years_between, zrange in Hy. apply in_map_iff in Hy.
      destruct Hy as [n [<- Hn]]. apply in_seq in Hn.
      unfold bin_start, in_years.
      destruct (Z.eqb_spec (12 * year s) (12 * (1961 + Z.of_nat n)));
        [|reflexivity].
      cbn [andb]. apply andb_true_iff. split; apply Z.leb_le; lia. }
    rewrite Eg. reflexivity.
Qed.

Lemma entries_by_label (a b : Z) (years : list Z) (row : list float) :
  map snd (filter (fun q => in_years a b (fst q))
                  (combine (map new_year years) row))
  = entries_of_years a b years row.
Proof.
  unfold entries_of_years. revert row.
  induction years as [|y years IH]; intros [|v row]; try reflexivity.
  cbn [map combine filter fst]. unfold in_years at 1. cbn [new_year year].
  destruct ((a <=? y)%Z && (y <=? b)%Z); cbn [map snd]; rewrite IH;
    reflexivity.
Qed.

(** X12.  On a strictly increasing time axis with a sample in 1961 and
    one in 1990, the annual global means of the reference field [t_ref]
    are, member by member, the entries of [t_20c_ts] for the years 1961
    to 1990, and [t_ref_ts] is the mean of these entries over years and
    members: selecting whole years commutes with the annual
    resampling. *)
Theorem t_ref_ts_from_t_20c_ts (t : DataArray) (cell_area : grid) :
  increasing (time t) ->
  (exists s, In s (time t) /\ year s = 1961%Z) ->
  (exists s, In s (time t) /\ year s = 1990%Z) ->
  exists ref ts,
    t_ref t = Ok ref
    /\ t_20c_ts t cell_area = Ok ts
    /\ t_20c_ts ref cell_area
       = Ok (map (entries_of_years 1961 1990 (calendar_years (time t))) ts)
    /\ t_ref_ts ref cell_area
       = Ok (valid_mean
               (concat (map (entries_of_years 1961 1990
                               (calendar_years (time t))) ts))).
Proof.
  intros Hinc H1 H2.
  assert (Hab : (1961 <= 1990)%Z) by lia.
  destruct (@window_years 1961 1990 (time t) H1 H2 Hab)
    as [_ [_ [Hne [_ [_ Hne']]]]].
  destruct (reference_window t cell_area H1 H2) as [_ Hmain].
  assert (Hwin : weighted_reduce
                   (values (resampled AS nanmean
                              (sel_time (in_years 1961 1990) t))) cell_area
                 = map (entries_of_years 1961 1990 (calendar_years (time t)))
                       (weighted_reduce (values (resampled AS nanmean t))
                                        cell_area)).
  { rewrite Hmain. apply map_ext. intros row.
    cbn [time resampled]. rewrite (bin_range_AS_calendar Hne'), map_map.
    rewrite (map_ext (fun y => bin_label (12 * y)) new_year bin_label_new_year).
    apply entries_by_label. }
  exists (sel_time (in_years 1961 1990) t),
         (weighted_reduce (values (resampled AS nanmean t)) cell_area).
  unfold t_ref, sel_years, t_20c_ts, t_ref_ts, resample.
  rewrite (increasing_monotonic Hinc), (check_time_index_ok Hinc Hne').
  cbn [time sel_time].
  rewrite (check_time_index_ok (increasing_filter _ Hinc) Hne).
  cbn [bind]. rewrite Hwin, nanmean_valid_mean.
  repeat split; reflexivity.
Qed.

Lemma t_ref_ts_from_t_20c_ts_witness :
  exists ref ts,
    t_ref sample_t_1960_1991 = Ok ref
    /\ t_20c_ts sample_t_1960_1991 [[fin 1 1]] = Ok ts
    /\ t_20c_ts ref [[fin 1 1]]
       = Ok (map (entries_of_years 1961 1990
                    (calendar_years (time sample_t_1960_1991))) ts)
    /\ t_ref_ts ref [[fin 1 1]]
       = Ok (valid_mean
               (concat (map (entries_of_years 1961 1990
                               (calendar_years (time sample_t_1960_1991)))
                            ts))).
Proof.
  apply (@t_ref_ts_from_t_20c_ts sample_t_1960_1991 [[fin 1 1]]).
  - apply monthly_axis_increasing.
  - exists (mkdate 1961 1 15). split; [|reflexivity].
    apply in_map_iff. exists 12%nat. split; [reflexivity|].
    apply in_seq. lia.
  - exists (mkdate 1990 1 15). split; [|reflexivity].
    apply in_map_iff. exists 360%nat. split; [reflexivity|].
    apply in_seq. lia.
Defined.

(* ------------------------------------------------------------------ *)
(** ** The panel of maps *)

(** X13.  In a panel of [rows] x [cols] maps whose last two cells are kept
    for the ensemble mean and the observations, every ensemble index
    below [rows * cols - 2] (30 for the 8 x 4 panel) is stored in the
    entry [axs[plotRow, plotCol]] that lies inside the panel, is the very
    cell its subplot index addresses, and is neither of the two reserved
    cells; two different members never share a cell. *)
Theorem ensemble_panel_cells (rows cols e e' : Z) :
  (2 <= cols)%Z -> (0 <= e < rows * cols - 2)%Z ->
  (0 <= e' < rows * cols - 2)%Z ->
  (0 <= plotRow cols e < rows)%Z
  /\ (0 <= plotCol cols e < cols)%Z
  /\ subplot_cell cols (plot_index e) = (plotRow cols e, plotCol cols e)
  /\ (plotRow cols e, plotCol cols e) <> subplot_cell cols (rows * cols - 1)
  /\ (plotRow cols e, plotCol cols e) <> subplot_cell cols (rows * cols)
  /\ ((plotRow cols e, plotCol cols e) = (plotRow cols e', plotCol cols e')
      -> e = e').
Proof.
  intros Hc He He'. unfold plotRow, plotCol, plot_index, subplot_cell.
  replace (e + 1 - 1)%Z with e by lia.
  pose proof (Z.div_mod e cols ltac:(lia)) as D.
  pose proof (Z.mod_pos_bound e cols ltac:(lia)) as M.
  pose proof (Z.div_mod e' cols ltac:(lia)) as D'.
  pose proof (Z.div_mod (rows * cols - 1 - 1) cols ltac:(lia)) as D1.
  pose proof (Z.div_mod (rows * cols - 1) cols ltac:(lia)) as D2.
  split; [split|].
  - apply Z.div_pos; lia.
  - apply Z.div_lt_upper_bound; lia.
  - split; [exact M|]. split; [reflexivity|]. repeat split.
    + intros E. injection E as E1 E2. rewrite E1, E2 in D. lia.
    + intros E. injection E as E1 E2. rewrite E1, E2 in D. lia.
    + intros E. injection E as E1 E2. rewrite E1, E2 in D. lia.
Qed.

Lemma ensemble_panel_cells_witness :
  (0 <= plotRow 4 29 < 8)%Z
  /\ (0 <= plotCol 4 29 < 4)%Z
  /\ subplot_cell 4 (plot_index 29) = (plotRow 4 29, plotCol 4 29)
  /\ (plotRow 4 29, plotCol 4 29) <> subplot_cell 4 (8 * 4 - 1)
  /\ (plotRow 4 29, plotCol 4 29) <> subplot_cell 4 (8 * 4)
  /\ ((plotRow 4 29, plotCol 4 29) = (plotRow 4 0, plotCol 4 0)
      -> 29%Z = 0%Z).
Proof.
  apply (@ensemble_panel_cells 8 4 29 0); lia.
Defined.

(** The reserved cells of the 8 x 4 panel are [axs[7, 2]] and [axs[7, 3]],
    the cells of the subplot indexes 31 and 32. *)
Example reserved_cells :
  subplot_cell 4 31 = (7, 2)%Z /\ subplot_cell 4 32 = (7, 3)%Z.
Proof. split; reflexivity. Qed.

(* ------------------------------------------------------------------ *)
(** ** Wrapping and sorting the longitudes *)

Lemma Qc_ltb_true (a b : Qc) : Qc_ltb a b = true <-> (a < b)%Qc.
Proof.
  unfold Qc_ltb. rewrite Qclt_alt.
  destruct (a ?= b)%Qc; split; congruence.
Qed.

Lemma fleb_total (a b : float) : fleb a b = false -> fleb b a = true.
Proof.
  destruct a as [| | |x], b as [| | |y]; simpl; try congruence.
  intros H. apply negb_false_iff in H. apply Qc_ltb_true in H.
  apply negb_true_iff. destruct (Qc_ltb x y) eqn:E; [|reflexivity].
  apply Qc_ltb_true in E. exfalso.
  exact (Qclt_not_le _ _ H (Qclt_le_weak _ _ E)).
Qed.

Lemma insert_key_perm (p : float * nat) (l : list (float * nat)) :
  Permutation (insert_key p l) (p :: l).
Proof.
  induction l as [|q l IH]; simpl; [reflexivity|].
  destruct (fleb (fst p) (fst q)); [reflexivity|].
  rewrite IH. apply perm_swap.
Qed.

Lemma isort_perm (l : list (float * nat)) :
  Permutation (fold_right insert_key [] l) l.
Proof.
  induction l as [|p l IH]; simpl; [reflexivity|].
  rewrite insert_key_perm, IH. reflexivity.
Qed.

Lemma insert_key_sorted (p : float * nat) (l : list (float * nat)) :
  Sorted (fun a b => fleb (fst a) (fst b) = true) l ->
  Sorted (fun a b => fleb (fst a) (fst b) = true) (insert_key p l).
Proof.
  induction 1 as [|q l Hs IH Hd]; simpl; [repeat constructor|].
  destruct (fleb (fst p) (fst q)) eqn:E.
  - constructor; [constructor; assumption|]. constructor. exact E.
  - constructor; [exact IH|].
    destruct l as [|r l]; simpl.
    + constructor. apply fleb_total. exact E.
    + destruct (fleb (fst p) (fst r)).
      * constructor. apply fleb_total. exact E.
      * constructor. inversion Hd. assumption.
Qed.

Lemma isort_sorted (l : list (float * nat)) :
  Sorted (fun a b => fleb (fst a) (fst b) = true) (fold_right insert_key [] l).
Proof.
  induction l as [|p l IH]; simpl; [constructor|].
  apply insert_key_sorted. exact IH.
Qed.

Lemma Sorted_map_fst (l : list (float * nat)) :
  Sorted (fun a b => fleb (fst a) (fst b) = true) l ->
  Sorted (fun a b => fleb a b = true) (map fst l).
Proof.
  induction 1 as [|q l Hs IH Hd]; simpl; constructor; [exact IH|].
  destruct Hd; simpl; constructor. assumption.
Qed.

Lemma in_combine_seq (A : Type) (d : A) (keys : list A) (s : nat) (k : A) (i : nat) :
  In (k, i) (combine keys (seq s (length keys))) ->
  nth (i - s) keys d = k /\ (s <= i < s + length keys)%nat.
Proof.
  revert s. induction keys as [|x keys IH]; intros s; simpl; [tauto|].
  intros [E|Hin].
  - injection E as <- <-. rewrite Nat.sub_diag. split; [reflexivity|lia].
  - destruct (IH (S s) Hin) as [Hn Hb]. split; [|lia].
    replace (i - s)%nat with (S (i - S s)) by lia. exact Hn.
Qed.

Lemma sorted_pairs_keys (keys : list float) :
  map fst (fold_right insert_key [] (combine keys (seq 0 (length keys))))
  = take NaN (argsort keys) keys.
Proof.
  unfold take, argsort. rewrite map_map. apply map_ext_in.
  intros [k i] Hin. cbn [fst snd].
  apply (Permutation_in _ (isort_perm _)) in Hin.
  destruct (in_combine_seq NaN _ _ _ _ Hin) as [Hn _].
  rewrite Nat.sub_0_r in Hn. symmetry. exact Hn.
Qed.

Lemma argsort_perm (keys : list float) :
  Permutation (argsort keys) (seq 0 (length keys)).
Proof.
  unfold argsort.
  rewrite (Permutation_map snd (isort_perm _)).
  rewrite map_snd_combine_eq; [reflexivity|].
  rewrite length_seq. reflexivity.
Qed.

Lemma take_sorted (keys : list float) :
  Sorted (fun a b => fleb a b = true) (take NaN (argsort keys) keys).
Proof.
  rewrite <- sorted_pairs_keys. apply Sorted_map_fst, isort_sorted.
Qed.

Lemma take_perm (keys : list float) :
  Permutation (take NaN (argsort keys) keys) keys.
Proof.
  rewrite <- sorted_pairs_keys.
  rewrite (Permutation_map fst (isort_perm _)).
  rewrite map_fst_combine_eq; [reflexivity|].
  rewrite length_seq. reflexivity.
Qed.

Lemma take_attached (keys row : list float) :
  length row = length keys ->
  Permutation (combine (take NaN (argsort keys) keys)
                       (take NaN (argsort keys) row))
              (combine keys row).
Proof.
  intros Hl. unfold take. rewrite combine_map_same.
  rewrite (combine_by_index NaN NaN keys row Hl).
  apply Permutation_map, argsort_perm.
Qed.

Lemma Forall2_map_self (A B : Type) (R : A -> B -> Prop) (f : A -> B)
    (l : list A) :
  (forall a, In a l -> R a (f a)) -> Forall2 R l (map f l).
Proof.
  induction l as [|a l IH]; intros H; simpl; constructor.
  - apply H. left. reflexivity.
  - apply IH. intros b Hb. apply H. right. exact Hb.
Qed.

Lemma wrap_and_sort_lon_sorted_perm (ds : ObsDataset) :
  Sorted (fun a b => fleb a b = true) (obs_lon (wrap_and_sort_lon ds))
  /\ Permutation (obs_lon (wrap_and_sort_lon ds)) (map wrap_lon (obs_lon ds)).
Proof.
  unfold wrap_and_sort_lon. cbn [obs_lon].
  split; [apply take_sorted|apply take_perm].
Qed.

(** X14.  After [assign_coords(lon=(lon + 360) % 360).sortby('lon')] the
    longitudes are the wrapped longitudes in increasing order (NaN last),
    none lost and none added, and in every row of [tempanomaly] each value
    is still paired with the longitude it was given at: the (longitude,
    value) pairs of the new row are those of the old row, reordered. *)
Theorem wrap_and_sort_lon_keeps_pairs (ds : ObsDataset) :
  Sorted (fun a b => fleb a b = true) (obs_lon (wrap_and_sort_lon ds))
  /\ Permutation (obs_lon (wrap_and_sort_lon ds)) (map wrap_lon (obs_lon ds))
  /\ Forall2 (Forall2 (fun row row' =>
                length row = length (obs_lon ds) ->
                Permutation (combine (obs_lon (wrap_and_sort_lon ds)) row')
                            (combine (map wrap_lon (obs_lon ds)) row)))
             (tempanomaly ds) (tempanomaly (wrap_and_sort_lon ds)).
Proof.
  unfold wrap_and_sort_lon. cbn [obs_lon tempanomaly].
  split; [apply take_sorted|]. split; [apply take_perm|].
  apply Forall2_map_self. intros g _. apply Forall2_map_self. intros row _ Hl.
  apply take_attached. rewrite length_map. exact Hl.
Qed.

Lemma Qmod_360_range (q : Q) :
  (0 <= q - 360 * inject_Z (Qfloor (q / 360))
   /\ q - 360 * inject_Z (Qfloor (q / 360)) < 360)%Q.
Proof.
  pose proof (Qfloor_le (q / 360)) as H1.
  pose proof (Qlt_floor (q / 360)) as H2.
  rewrite inject_Z_plus in H2. change (inject_Z 1) with 1%Q in H2.
  set (z := inject_Z (Qfloor (q / 360))) in *.
  assert (E : (q == 360 * (q / 360))%Q) by field.
  set (t := (q / 360)%Q) in *.
  assert (Hq : (360 * z <= q)%Q).
  { rewrite E. apply Qmult_le_l; [reflexivity|exact H1]. }
  assert (Hq' : (q < 360 * z + 360)%Q).
  { rewrite E at 1. setoid_replace (360 * z + 360)%Q with (360 * (z + 1))%Q by ring.
    apply Qmult_lt_l; [reflexivity|exact H2]. }
  split.
  - apply (Qplus_le_r _ _ (360 * z)). ring_simplify. exact Hq.
  - apply (Qplus_lt_r _ _ (360 * z)). ring_simplify. exact Hq'.
Qed.

Lemma floor_div_360 (x : Qc) :
  Qfloor (x / qint 360)%Qc = Qfloor (this x / 360)%Q.
Proof.
  apply Qfloor_comp. unfold Qcdiv, Qcmult, Qcinv, qint, Q2Qc. cbn [this].
  rewrite !Qred_correct. reflexivity.
Qed.

Lemma this_mod_360 (x : Qc) :
  (this (x - qint 360 * qint (Qfloor (x / qint 360)%Qc))%Qc
   == this x - 360 * inject_Z (Qfloor (this x / 360)))%Q.
Proof.
  rewrite floor_div_360.
  unfold Qcminus, Qcplus, Qcopp, Qcmult, qint, Q2Qc.
  cbn [this]. rewrite !Qred_correct.
  change (inject_Z 360) with (360 # 1)%Q. ring.
Qed.

Lemma wrap_lon_finite (x : Qc) :
  exists q, wrap_lon (Fin x) = Fin q
    /\ (0 <= q)%Qc /\ (q < qint 360)%Qc
    /\ exists m : Z, x = (q + qint 360 * qint m)%Qc.
Proof.
  unfold wrap_lon. cbn [fadd fmod].
  replace (Qc_eqb (qint 360) 0) with false by reflexivity.
  eexists. split; [reflexivity|].
  set (t := (x + qint 360)%Qc).
  split; [|split].
  - unfold Qcle. rewrite this_mod_360. apply Qmod_360_range.
  - unfold Qclt. rewrite this_mod_360.
    change (this (qint 360)) with (360 # 1)%Q. apply Qmod_360_range.
  - exists (Qfloor (t / qint 360)%Qc - 1)%Z.
    replace (Qfloor (t / qint 360)%Qc - 1)%Z
      with (Qfloor (t / qint 360)%Qc + (-1))%Z by lia.
    rewrite qint_add. change (qint (-1)) with (- (1))%Qc.
    unfold t. ring.
Qed.

(** X15.  When the longitudes are finite, every longitude of the result
    lies in [0, 360) and differs from one of the original longitudes by a
    whole number of turns. *)
Theorem wrap_and_sort_lon_range (ds : ObsDataset) :
  Forall (fun v => isfinite v = true) (obs_lon ds) ->
  Forall (fun v => exists q, v = Fin q /\ (0 <= q)%Qc /\ (q < qint 360)%Qc
                    /\ exists u m, In u (obs_lon ds)
                         /\ to_Qc u = (q + qint 360 * qint m)%Qc)
         (obs_lon (wrap_and_sort_lon ds)).
Proof.
  intros Hf. apply Forall_forall. intros v Hv.
  destruct (wrap_and_sort_lon_sorted_perm ds) as [_ Hp].
  apply (Permutation_in _ Hp) in Hv. apply in_map_iff in Hv.
  destruct Hv as [u [<- Hu]]. rewrite Forall_forall in Hf.
  rewrite (finite_is_Fin _ (Hf _ Hu)).
  destruct (wrap_lon_finite (to_Qc u)) as [q [E [H0 [H1 [m Hm]]]]].
  exists q. repeat split; try assumption. exists u, m. auto.
Qed.

(* ------------------------------------------------------------------ *)
(** ** Least squares over the valid samples *)

Lemma fit_inputs_valid (y : list float) :
  Forall (fun v => nan_or_finite v = true) y ->
  fst (fit_inputs y) = valid_indexes y
  /\ snd (fit_inputs y) = map Fin (valid_values y)
  /\ NoDup (valid_indexes y)
  /\ length (valid_indexes y) = count_valid y
  /\ length (valid_values y) = count_valid y.
Proof.
  intros Hy. rewrite fit_inputs_values, fit_inputs_indexes.
  unfold valid_indexes, valid_values, count_valid.
  change (fun v => negb (isnan v)) with not_nan.
  change (fun q : Z * float => negb (isnan (snd q)))
    with (fun q : Z * float => not_nan (snd q)).
  split; [reflexivity|]. split; [|split; [|split]].
  - apply all_finite_map. apply Forall_forall. intros v Hv.
    apply filter_In in Hv. destruct Hv as [Hv Hn].
    rewrite Forall_forall in Hy. specialize (Hy _ Hv).
    unfold nan_or_finite in Hy. unfold not_nan in Hn.
    destruct (isnan v); [discriminate|exact Hy].
  - apply NoDup_masked, NoDup_arange.
  - rewrite length_map.
    rewrite <- (filter_snd_combine not_nan (arange (length y)) y)
      by apply length_arange.
    rewrite length_map. reflexivity.
  - rewrite length_map. reflexivity.
Qed.

Lemma moments_affine (k c : Qc) (xs : list Z) (qs : list Qc) :
  length xs = length qs ->
  Sxy xs (map (fun q => k * q + c)%Qc qs) = (k * Sxy xs qs + c * Sx xs)%Qc
  /\ qsum (map (fun q => k * q + c)%Qc qs)
     = (k * qsum qs + c * ols_count xs)%Qc.
Proof.
  revert qs. induction xs as [|x xs IH]; intros [|q qs] Hl; try discriminate.
  - cbn. change (ols_count []) with 0%Qc. split; ring.
  - destruct (IH qs ltac:(simpl in Hl; congruence)) as [IH1 IH2].
    rewrite ols_count_cons. unfold Sxy, Sx in *.
    cbn [map combine qsum fold_right fst snd].
    fold (qsum (map (fun p => qint (fst p) * snd p)%Qc
                    (combine xs (map (fun q => k * q + c)%Qc qs)))).
    fold (qsum (map (fun p => qint (fst p) * snd p)%Qc (combine xs qs))).
    fold (qsum (map (fun q => k * q + c)%Qc qs)).
    fold (qsum (map qint xs)). fold (qsum qs).
    rewrite IH1, IH2. split; ring.
Qed.

(** The least-squares slope follows a change of unit and ignores a change
    of origin. *)
Lemma ols_slope_affine (k c : Qc) (xs : list Z) (qs : list Qc) :
  length xs = length qs -> ols_det xs <> 0%Qc ->
  ols_slope xs (map (fun q => k * q + c)%Qc qs) = (k * ols_slope xs qs)%Qc.
Proof.
  intros Hl Hd. unfold ols_slope.
  destruct (moments_affine k c xs qs Hl) as [-> ->].
  unfold ols_det in *. field. exact Hd.
Qed.

Lemma affine_valid (k c : Qc) (y : list float) :
  Forall (fun v => nan_or_finite v = true) y ->
  Forall (fun v => nan_or_finite v = true) (map (affine k c) y)
  /\ valid_indexes (map (affine k c) y) = valid_indexes y
  /\ valid_values (map (affine k c) y)
     = map (fun q => k * q + c)%Qc (valid_values y)
  /\ count_valid (map (affine k c) y) = count_valid y.
Proof.
  intros Hy.
  assert (Hn : forall v, In v y ->
             not_nan (affine k c v) = not_nan v
             /\ nan_or_finite (affine k c v) = true
             /\ (not_nan v = true ->
                 to_Qc (affine k c v) = (k * to_Qc v + c)%Qc)).
  { intros v Hv. rewrite Forall_forall in Hy. specialize (Hy _ Hv).
    destruct v; try discriminate; repeat split; intros;
      try reflexivity; discriminate. }
  split; [|split; [|split]].
  - rewrite Forall_map. apply Forall_forall. intros v Hv. apply Hn. exact Hv.
  - unfold valid_indexes. rewrite length_map.
    assert (E : combine (arange (length y)) (map (affine k c) y)
                = map (fun q => (fst q, affine k c (snd q)))
                      (combine (arange (length y)) y)).
    { generalize (arange (length y)). intros ar. revert ar.
      induction y as [|v y IH]; intros [|x ar]; simpl; try reflexivity.
      rewrite IH; [reflexivity| |].
      - inversion Hy; assumption.
      - intros u Hu. apply Hn. right. exact Hu. }
    rewrite E, filter_map_comm, map_map. cbn [fst snd]. f_equal.
    apply filter_ext_in. intros [x v] Hq. cbn [snd].
    apply Hn. eapply in_combine_r; eauto.
  - unfold valid_values. rewrite filter_map_comm, !map_map.
    rewrite (filter_ext_in _ not_nan) by (intros v Hv; apply Hn; exact Hv).
    apply map_ext_in. intros v Hv. apply filter_In in Hv.
    destruct Hv as [Hv Hnn]. apply Hn; assumption.
  - unfold count_valid. change (fun v => negb (isnan v)) with not_nan.
    rewrite filter_map_comm, length_map.
    rewrite (filter_ext_in _ not_nan) by (intros v Hv; apply Hn; exact Hv).
    reflexivity.
Qed.

Section ValidSamples.

Variable polyfit : list Z -> list float -> nat -> result (list float).
Hypothesis polyfit_ls : least_squares_fit polyfit.

Lemma fit_valid (y : list float) :
  Forall (fun v => nan_or_finite v = true) y -> (2 <= count_valid y)%nat ->
  first_coefficient (polyfit (fst (fit_inputs y)) (snd (fit_inputs y)) 1)
  = Ok (Fin (ols_slope (valid_indexes y) (valid_values y)))
  /\ ols_det (valid_indexes y) <> 0%Qc
  /\ length (valid_indexes y) = length (valid_values y).
Proof.
  intros Hy Hc.
  destruct (fit_inputs_valid Hy) as [Hx [Hv [Hnd [Hl Hl']]]].
  assert (Hd : ols_det (valid_indexes y) <> 0%Qc).
  { apply ols_det_distinct; [exact Hnd|lia]. }
  assert (He : length (valid_indexes y) = length (valid_values y)) by lia.
  split; [|split; assumption].
  rewrite Hx, Hv.
  pose proof (polyfit_ls : least_squares_fit polyfit) as Hp.
  unfold least_squares_fit in Hp.
  rewrite Hp by assumption. reflexivity.
Qed.

(** X16.  With a least-squares [np.polyfit], on a series whose samples
    are finite or NaN, at least two of them not NaN, the slope is the
    least-squares slope of the samples that are not NaN against the
    indexes they have in the full series. *)
Theorem calc_slope_valid_samples (y : list float) :
  Forall (fun v => nan_or_finite v = true) y -> (2 <= count_valid y)%nat ->
  calc_slope polyfit y
  = Ok (Fin (ols_slope (valid_indexes y) (valid_values y))).
Proof.
  intros Hy Hc. unfold calc_slope. rewrite count_true_mask.
  destruct (Nat.ltb_spec (count_valid y) 2) as [Hlt|_]; [lia|].
  apply fit_valid; assumption.
Qed.

(** X17.  Under the same conditions, replacing every sample [v] by
    [k * v + c] multiplies the slope by [k]: a change of unit scales the
    trend, and a change of origin (temperatures against anomalies) leaves
    it unchanged. *)
Theorem calc_slope_affine (k c : Qc) (y : list float) :
  Forall (fun v => nan_or_finite v = true) y -> (2 <= count_valid y)%nat ->
  exists s, calc_slope polyfit y = Ok (Fin s)
    /\ calc_slope polyfit (map (affine k c) y) = Ok (Fin (k * s)).
Proof.
  intros Hy Hc.
  exists (ols_slope (valid_indexes y) (valid_values y)).
  destruct (fit_valid Hy Hc) as [Hfit [Hd Hl]].
  destruct (affine_valid k c Hy) as [Hy' [Ex [Ev Ec]]].
  assert (Hc' : (2 <= count_valid (map (affine k c) y))%nat) by lia.
  destruct (fit_valid Hy' Hc') as [Hfit' _].
  split.
  - unfold calc_slope. rewrite count_true_mask.
    destruct (Nat.ltb_spec (count_valid y) 2) as [Hlt|_]; [lia|]. exact Hfit.
  - unfold calc_slope. rewrite count_true_mask.
    destruct (Nat.ltb_spec (count_valid (map (affine k c) y)) 2) as [Hlt|_];
      [lia|].
    rewrite Hfit', Ex, Ev, ols_slope_affine by assumption. reflexivity.
Qed.

End ValidSamples.

Lemma calc_slope_valid_samples_witness :
  calc_slope polyfit_exact gappy_values
  = Ok (Fin (ols_slope (valid_indexes gappy_values)
                       (valid_values gappy_values))).
Proof.
  apply (@calc_slope_valid_samples polyfit_exact polyfit_exact_least_squares).
  - unfold gappy_values. repeat constructor.
  - vm_compute. lia.
Defined.

Lemma calc_slope_affine_witness :
  exists s, calc_slope polyfit_exact gappy_values = Ok (Fin s)
    /\ calc_slope polyfit_exact
         (map (affine (Q2Qc (9 # 5)) (qint 32)) gappy_values)
       = Ok (Fin (Q2Qc (9 # 5) * s)).
Proof.
  apply (@calc_slope_affine polyfit_exact polyfit_exact_least_squares).
  - unfold gappy_values. repeat constructor.
  - vm_compute. lia.
Defined.

Lemma wrap_and_sort_lon_range_witness :
  Forall (fun v => exists q, v = Fin q /\ (0 <= q)%Qc /\ (q < qint 360)%Qc
                    /\ exists u m, In u (obs_lon sample_gridded)
                         /\ to_Qc u = (q + qint 360 * qint m)%Qc)
         (obs_lon (wrap_and_sort_lon sample_gridded)).
Proof.
  apply (@wrap_and_sort_lon_range sample_gridded).
  unfold sample_gridded. cbn [obs_lon]. repeat constructor.
Defined.
